(** * Erudite web front end: routes, middleware, poller and renderer

    A shallow embedding of the TypeScript sources of the Erudite UI
    (Next.js route handlers, the middleware, the loading page poller, the
    agent-thought stream reader and the citation renderer), followed by the
    properties proved about them.

    Conventions.  A JavaScript string is the list of its UTF-16 code units
    ([jsstring]); a JavaScript value read from JSON is a [json]; the value
    [undefined] is [None] of [option json].  Code that can throw returns
    in the [completion] type.  Numbers are integers ([Z]); the places where
    the sources rely on floating point are pointed out where they occur. *)

From Stdlib Require Import List NArith ZArith Bool Ascii String Lia.
From Stdlib Require Import Sorted DecimalString.
Import ListNotations.

Set Implicit Arguments.
Set Warnings "-register-all".

(* ===================================================================== *)
(** * Part I.  The model                                                   *)
(* ===================================================================== *)

(** ** JavaScript strings *)

Module Js.

Definition jsstring := list N.

(** Code unit of an ASCII character, and ASCII literals. *)
Definition cu (a : ascii) : N := N_of_ascii a.

Definition lit (s : string) : jsstring := map N_of_ascii (list_ascii_of_string s).

(** [a === b] on strings. *)
Fixpoint str_eqb (a b : jsstring) : bool :=
  match a, b with
  | [], [] => true
  | x :: a', y :: b' => N.eqb x y && str_eqb a' b'
  | _, _ => false
  end.

(** [s.startsWith(prefix)]. *)
Fixpoint startsWith (s prefix : jsstring) {struct prefix} : bool :=
  match prefix, s with
  | [], _ => true
  | p :: prefix', c :: s' => N.eqb c p && startsWith s' prefix'
  | _ :: _, [] => false
  end.

(** [s.split(sep)] for a separator of one code unit: the fields between
    the separators, in order; the empty string has the single field [""]. *)
Fixpoint split (sep : N) (s : jsstring) : list jsstring :=
  match s with
  | [] => [[]]
  | c :: s' =>
      if N.eqb c sep then [] :: split sep s'
      else match split sep s' with
           | f :: fs => (c :: f) :: fs
           | [] => [[c]]
           end
  end.

(** [l.join(sep)]. *)
Fixpoint join (sep : jsstring) (l : list jsstring) : jsstring :=
  match l with
  | [] => []
  | [x] => x
  | x :: l' => x ++ sep ++ join sep l'
  end.

(** [s.substring(0, end)]: [end] is truncated to an integer and clamped
    to [0 .. s.length]. *)
Definition substring0 (s : jsstring) (endIndex : Z) : jsstring :=
  firstn (Z.to_nat endIndex) s.

(** White space as [String.prototype.trim] sees it. *)
Definition is_whitespace (c : N) : bool :=
  ((9 <=? c) && (c <=? 13) || (c =? 32) || (c =? 160) || (c =? 5760)
   || (8192 <=? c) && (c <=? 8202) || (c =? 8232) || (c =? 8233)
   || (c =? 8239) || (c =? 8287) || (c =? 12288) || (c =? 65279))%N.

Fixpoint dropWhile (p : N -> bool) (s : jsstring) : jsstring :=
  match s with
  | [] => []
  | c :: s' => if p c then dropWhile p s' else s
  end.

(** [s.trim()]. *)
Definition trim (s : jsstring) : jsstring :=
  rev (dropWhile is_whitespace (rev (dropWhile is_whitespace s))).

(** Truthiness of a string: non-empty. *)
Definition str_truthy (s : jsstring) : bool :=
  match s with [] => false | _ :: _ => true end.

(** Decimal digits, [\d] of a regular expression without the [u] flag. *)
Definition is_digit (c : N) : bool := ((48 <=? c) && (c <=? 57))%N.

(** [parseInt(ds)] for a string of decimal digits. *)
Definition parseInt_digits (ds : jsstring) : Z :=
  fold_left (fun acc c => (10 * acc + (Z.of_N c - 48))%Z) ds 0%Z.

(** The decimal digits of an integer, with its sign. *)
Definition decimal (z : Z) : jsstring :=
  lit (NilZero.string_of_int (Z.to_int z)).

(** Whether the real number [v] rounds to the double [z], for an integer
    [z] from [2^53] on: [z] is [m * 2^e] with [2^52 <= m < 2^53]; the
    doubles next to it are [2^e] away (half as far below a power of two);
    a tie goes to the even mantissa. *)
Definition rounds_to (z v : Z) : bool :=
  (let e := Z.log2 z - 52 in
   let m := z / 2 ^ e in
   let up := 2 ^ e in
   let down := if m =? 2 ^ 52 then 2 ^ (e - 1) else 2 ^ e in
   let d := 2 * (v - z) in
   if Z.even m then (- down <=? d) && (d <=? up) else (- down <? d) && (d <? up))%Z.

(** The digits [s] and the exponent [n] of the shortest decimal
    [s * 10^(n - k)], [s] of [k] digits, that rounds to [z]: for
    [k = 1, 2, ...] the two multiples of [10^(n - k)] around [z] are tried;
    of two that round to [z] the closer one is taken, and the even [s] when
    they are equally close. *)
Fixpoint shortest (fuel : nat) (k n : Z) (z : Z) : Z * Z :=
  match fuel with
  | O => (z, n)
  | S fuel' =>
      (let p := 10 ^ (n - k) in
       let lo := z / p in
       let hi := lo + 1 in
       let lo_ok := rounds_to z (lo * p) in
       let hi_ok := rounds_to z (hi * p) in
       let norm s := if s =? 10 ^ k then (1, n + 1) else (s, n) in
       if lo_ok && hi_ok then
         let dl := z - lo * p in
         let dh := hi * p - z in
         if dl <? dh then norm lo
         else if dh <? dl then norm hi
         else if Z.even lo then norm lo else norm hi
       else if lo_ok then norm lo
       else if hi_ok then norm hi
       else shortest fuel' (k + 1) n z)%Z
  end.

(** [Number::toString] for a positive integer from [2^53] on: the digits
    of the shortest decimal, followed by zeros up to 21 digits in all, and in
    exponent form beyond. *)
Definition large_to_string (z : Z) : jsstring :=
  let n0 := Z.of_nat (List.length (decimal z)) in
  let (s, n) := shortest (Z.to_nat n0) 1 n0 z in
  let ds := decimal s in
  let k := Z.of_nat (List.length ds) in
  if (n <=? 21)%Z then ds ++ repeat 48%N (Z.to_nat (n - k))
  else
    match ds with
    | [] => []
    | d :: rest =>
        (d :: match rest with [] => [] | _ => 46%N :: rest end)
        ++ lit "e+" ++ decimal (n - 1)
    end.

(** String conversion of an integer-valued number (a double): its decimal
    digits below [2^53], where every integer is a double; from there on
    the shortest digits that identify the double, as [Number::toString]
    prints them ([2^64] as [18446744073709552000], [10^21] as [1e+21]). *)
Definition number_to_string (z : Z) : jsstring :=
  if (Z.abs z <? 2 ^ 53)%Z then decimal z
  else if (z <? 0)%Z then 45%N :: large_to_string (- z)
  else large_to_string z.

(** The text of a list of complete lines: each followed by the separator. *)
Definition unlines (sep : N) (ls : list jsstring) : jsstring :=
  flat_map (fun l => l ++ [sep]) ls.

End Js.

(** ** JSON values and the conversions the sources apply to them *)

Module Json.
Import Js.

Inductive json : Type :=
| JNull
| JBool (b : bool)
| JNum (z : Z)
| JStr (s : jsstring)
| JArr (items : list json)
| JObj (fields : list (jsstring * json)).

(** A JavaScript value as the routes meet it: a JSON value or [undefined]. *)
Definition jsval := option json.

(** A computation that may throw. *)
Inductive completion (A : Type) : Type :=
| Normal (a : A)
| Throw.
Arguments Throw {A}.

Fixpoint assoc (k : jsstring) (fields : list (jsstring * json)) : jsval :=
  match fields with
  | [] => None
  | (k', v) :: rest => if str_eqb k' k then Some v else assoc k rest
  end.

(** [v.k] for the field names the sources read ([text], [id], [uuid],
    [status], [type], ...): an object yields the field or [undefined];
    booleans, numbers, strings and arrays have no such property; [null]
    and [undefined] throw a TypeError. *)
Definition prop (v : jsval) (k : jsstring) : completion jsval :=
  match v with
  | None | Some JNull => Throw
  | Some (JObj fields) => Normal (assoc k fields)
  | Some _ => Normal None
  end.

(** [v?.k]. *)
Definition opt_prop (v : jsval) (k : jsstring) : jsval :=
  match v with
  | Some (JObj fields) => assoc k fields
  | _ => None
  end.

(** Truthiness: [undefined], [null], [false], [0] and [""] are falsy. *)
Definition truthy (v : jsval) : bool :=
  match v with
  | None | Some JNull => false
  | Some (JBool b) => b
  | Some (JNum z) => negb (Z.eqb z 0)
  | Some (JStr s) => str_truthy s
  | Some (JArr _) | Some (JObj _) => true
  end.

(** The text of a string conversion, as in a template literal [`${v}`],
    for the values whose conversion succeeds ([ToString] below tells which
    those are). *)
Fixpoint to_string_json (v : json) : jsstring :=
  match v with
  | JNull => lit "null"
  | JBool true => lit "true"
  | JBool false => lit "false"
  | JNum z => number_to_string z
  | JStr s => s
  | JArr items =>
      join (lit ",")
        (map (fun i => match i with JNull => [] | _ => to_string_json i end) items)
  | JObj _ => lit "[object Object]"
  end.

Definition to_string (v : jsval) : jsstring :=
  match v with
  | None => lit "undefined"
  | Some j => to_string_json j
  end.

(** The string conversion itself, [ToString] of the language, which can
    throw: an object is converted by its [toString] method, and an object
    read from JSON that has a field of its own named [toString] hides the
    inherited method by a value that cannot be called, so that the
    conversion ends in a TypeError (the inherited [valueOf] gives back the
    object); without such a field the inherited method gives
    ["[object Object]"].  An array joins the conversions of its elements,
    [null] counting as the empty string, and throws when one of them
    throws.  Where it succeeds its text is [to_string]. *)
Fixpoint ToString_json (v : json) : completion jsstring :=
  match v with
  | JNull => Normal (lit "null")
  | JBool true => Normal (lit "true")
  | JBool false => Normal (lit "false")
  | JNum z => Normal (number_to_string z)
  | JStr s => Normal s
  | JArr items =>
      match
        (fix elements (l : list json) : completion (list jsstring) :=
           match l with
           | [] => Normal []
           | i :: l' =>
               match match i with JNull => Normal [] | _ => ToString_json i end,
                     elements l' with
               | Normal s, Normal ss => Normal (s :: ss)
               | _, _ => Throw
               end
           end) items
      with
      | Normal texts => Normal (join (lit ",") texts)
      | Throw => Throw
      end
  | JObj fields =>
      match assoc (lit "toString") fields with
      | Some _ => Throw
      | None => Normal (lit "[object Object]")
      end
  end.

Definition ToString (v : jsval) : completion jsstring :=
  match v with
  | None => Normal (lit "undefined")
  | Some j => ToString_json j
  end.

(** Text without a lone surrogate, made of code units: the text that
    [encodeURIComponent] accepts and that a [FormData] entry keeps as it
    is. *)
Fixpoint well_formed_text (s : jsstring) : bool :=
  match s with
  | [] => true
  | c :: s' =>
      if (55296 <=? c)%N && (c <=? 56319)%N then
        match s' with
        | d :: s'' => (56320 <=? d)%N && (d <=? 57343)%N && well_formed_text s''
        | [] => false
        end
      else negb ((56320 <=? c)%N && (c <=? 57343)%N) && (c <? 65536)%N
           && well_formed_text s'
  end.

(** A value that a [FormData] entry and a cookie carry as the text of its
    string conversion: the conversion succeeds and its text is well
    formed. *)
Definition sendable (v : jsval) : bool :=
  match ToString v with
  | Normal s => well_formed_text s
  | Throw => false
  end.

(** [v === "literal"]. *)
Definition is_str (v : jsval) (s : jsstring) : bool :=
  match v with
  | Some (JStr s') => str_eqb s' s
  | _ => false
  end.

(** An object literal handed to [JSON.stringify]: fields whose value is
    [undefined] are left out. *)
Fixpoint object_literal (fields : list (jsstring * jsval)) : list (jsstring * json) :=
  match fields with
  | [] => []
  | (k, Some v) :: rest => (k, v) :: object_literal rest
  | (_, None) :: rest => object_literal rest
  end.

End Json.

(** ** The loading page ([loading/[slug]/page.tsx]) *)

Module LoadingPage.
Import Js Json.

(** The React state the page renders. *)
Record view : Type := mkView {
  currentStage : Z;
  graphTitle : json;
  topics : list jsstring
}.

Definition defaultTitle : json := JStr (lit "Creating Knowledge Graph...").

Definition initialView : view :=
  {| currentStage := 0; graphTitle := defaultTitle; topics := [] |}.

(** What [fetch('/api/graph-status')] gives one poll: a rejected promise,
    or a response with its [ok] flag and its body ([None] when
    [response.json()] rejects). *)
Inductive reply : Type :=
| FetchFails
| Reply (ok : bool) (body : option json).

(** Effects of one poll besides the state updates. *)
Inductive effect : Type :=
| ConsoleLog
| ConsoleError
| RouterPush (target : jsstring).

(** [status.split(':')[1].split('|')]; [None] stands for the TypeError of
    calling [split] on [undefined]. *)
Definition topicList (status : jsstring) : option (list jsstring) :=
  match nth_error (split (cu ":") status) 1 with
  | Some segment => Some (split (cu "|") segment)
  | None => None
  end.

Definition setGraphTitle (title : jsval) (v : view) : view :=
  {| currentStage := currentStage v;
     graphTitle := match title with
                   | Some t => if truthy title then t else defaultTitle
                   | None => defaultTitle
                   end;
     topics := topics v |}.

Definition setCurrentStage (n : Z) (v : view) : view :=
  {| currentStage := n; graphTitle := graphTitle v; topics := topics v |}.

Definition setTopics (l : list jsstring) (v : view) : view :=
  {| currentStage := currentStage v; graphTitle := graphTitle v; topics := l |}.

(** The branches of [pollStatus] on a status that is a string other than
    ['done']. *)
Definition onStatusString (slug status : jsstring) (v : view) : view * list effect :=
  if startsWith status (lit "topics_found:") then
    let v2 := setCurrentStage (1 + 1) v in
    match topicList status with
    | Some topicList => (setTopics topicList v2, [ConsoleLog])
    | None => (v2, [ConsoleError])
    end
  else if str_eqb status (lit "search_results_found") then
    (setCurrentStage (2 + 1) v, [])
  else if str_eqb status (lit "articles_generated") then
    (setCurrentStage (3 + 1) v, [])
  else if str_eqb status (lit "done") then
    (v, [RouterPush (lit "/graph/" ++ slug)])
  else (v, []).

(** One run of [pollStatus]: the new state and the effects, in order. *)
Definition pollStatus (slug : jsstring) (v : view) (r : reply) : view * list effect :=
  match r with
  | FetchFails => (v, [ConsoleError])
  | Reply false _ => (v, [ConsoleError])
  | Reply true None => (v, [ConsoleError])
  | Reply true (Some data) =>
      match prop (Some data) (lit "status"), prop (Some data) (lit "title") with
      | Normal status, Normal title =>
          let v1 := setGraphTitle title v in
          if is_str status (lit "done") then
            (v1, [ConsoleLog; RouterPush (lit "/graph/" ++ slug)])
          else
            match status with
            | Some (JStr s) =>
                let (v2, effs) := onStatusString slug s v1 in (v2, ConsoleLog :: effs)
            | _ => (v1, [ConsoleLog; ConsoleError])
            end
      | _, _ => (v, [ConsoleLog; ConsoleError])
      end
  end.

Fixpoint pushes (effs : list effect) : list jsstring :=
  match effs with
  | [] => []
  | RouterPush t :: rest => t :: pushes rest
  | _ :: rest => pushes rest
  end.

(** The mounted page: its state, the navigations requested so far, the
    interval timer installed by [setInterval(pollStatus, 2000)] (its period,
    or [None] once [clearInterval] ran), and the polls performed. *)
Record poller : Type := mkPoller {
  pview : view;
  navigations : list jsstring;
  interval : option Z;
  polls : nat
}.

(** The effect body on mount: without a token cookie the page goes to
    [/login] and installs no timer. *)
Definition mount (token : option jsstring) : poller :=
  match token with
  | Some (_ :: _) =>
      {| pview := initialView; navigations := []; interval := Some 2000%Z; polls := 0 |}
  | _ =>
      {| pview := initialView; navigations := [lit "/login"]; interval := None; polls := 0 |}
  end.

(** One timer tick.  The only [clearInterval] is the effect's cleanup,
    which runs when a navigation unmounts the page. *)
Definition tick (slug : jsstring) (p : poller) (r : reply) : poller :=
  match interval p with
  | None => p
  | Some period =>
      let (v, effs) := pollStatus slug (pview p) r in
      {| pview := v;
         navigations := navigations p ++ pushes effs;
         interval := match pushes effs with [] => Some period | _ :: _ => None end;
         polls := S (polls p) |}
  end.

(** The page over a sequence of ticks, one reply per tick. *)
Definition run (slug : jsstring) (p : poller) (replies : list reply) : poller :=
  fold_left (tick slug) replies p.

(** Modelled from the spec: the orchestrator's encoding of the
    [topics_found] status (the backend is not part of the sources): the
    string ["topics_found:"] followed by the topic names joined with ['|']. *)
Definition encode_topics_found (names : list jsstring) : jsstring :=
  lit "topics_found:" ++ join (lit "|") names.

(** The status one poll reads: [data.status] of an ok reply with a JSON
    body, [undefined] otherwise. *)
Definition status_of (r : reply) : jsval :=
  match r with
  | Reply true (Some data) => opt_prop (Some data) (lit "status")
  | _ => None
  end.

(** The statuses on which [pollStatus] moves the stage marker. *)
Definition stage_status (status : jsval) : bool :=
  match status with
  | Some (JStr s) =>
      startsWith s (lit "topics_found:")
      || str_eqb s (lit "search_results_found")
      || str_eqb s (lit "articles_generated")
  | _ => false
  end.

Definition console_only (e : effect) : bool :=
  match e with RouterPush _ => false | _ => true end.

(** Two replies for the examples. *)
Definition failed_reply : reply :=
  Reply true (Some (JObj [(lit "status", JStr (lit "failed")); (lit "title", JStr (lit "q"))])).

Definition started_reply : reply :=
  Reply true (Some (JObj [(lit "status", JStr (lit "started"))])).

End LoadingPage.

(** ** The chat prompt builder ([api/llm/route.ts]) *)

Module LlmRoute.
Import Js Json.

Record node : Type := mkNode {
  name : jsval;
  content : jsstring
}.

Definition nl : jsstring := [10%N].

(** [const len = 5000 / graphData.nodes.length].  The quotient is a
    double; [substring] truncates it to an integer, and for a length [n >= 1]
    the truncated double is the integer quotient (the multiples of [1/n]
    below 5000 are further from the next integer than a double's rounding
    error).  For an empty node list the quotient is [Infinity] and no node is
    rendered. *)
Definition len (nodes : list node) : Z := 5000 / Z.of_nat (List.length nodes).

(** What the prompt shows of one node's content. *)
Definition included (nodes : list node) (nd : node) : jsstring :=
  substring0 (content nd) (len nodes).

Definition node_line (nodes : list node) (nd : node) : jsstring :=
  lit "- " ++ to_string (name nd) ++ lit ": " ++ included nodes nd ++ lit "...".

Definition prompt_head : jsstring :=
  nl ++ lit "    You are an AI assistant that answers questions about a knowledge graph on machine learning." ++ nl
  ++ lit "    The graph contains the following nodes and links:" ++ nl
  ++ lit "    " ++ nl
  ++ lit "    Nodes:" ++ nl
  ++ lit "    ".

Definition prompt_tail (question : jsval) : jsstring :=
  nl ++ lit "    " ++ nl
  ++ lit "    Please answer the following question based on this knowledge graph:" ++ nl
  ++ lit "    " ++ to_string question ++ nl
  ++ nl
  ++ lit "    Cite the nodes where you are getting the answer from, by enclosing it in double brackets [[Node Name]]." ++ nl
  ++ lit "  ".

Definition prompt (question : jsval) (nodes : list node) : jsstring :=
  prompt_head ++ join nl (map (node_line nodes) nodes) ++ prompt_tail question.

(** The request [POST] sends to the chat model. *)
Record chat_request : Type := mkChat {
  model : jsstring;
  messages : list (jsstring * jsval);
  stream : bool
}.

Definition POST (question : jsval) (nodes : list node) : chat_request :=
  {| model := lit "llama-3.2-90b-vision-preview";
     messages := [(lit "system", Some (JStr (prompt question nodes)));
                  (lit "user", question)];
     stream := true |}.

(** A payload of two nodes, for the examples. *)
Definition two_nodes : list node :=
  [ {| name := Some (JStr (lit "A")); content := lit "alpha" |};
    {| name := Some (JStr (lit "B")); content := lit "beta" |} ].

End LlmRoute.

(** ** The middleware ([middleware.ts]) *)

Module Middleware.
Import Js.

Record NextRequest : Type := mkRequest {
  pathname : jsstring;
  cookies : list (jsstring * jsstring)
}.

(** [NextResponse.redirect(new URL(path, request.url))] keeps the origin of
    the request and replaces the path; [NextResponse.next()] lets the
    request through. *)
Inductive NextResponse : Type :=
| redirect (path : jsstring)
| next.

(** [request.cookies.get(name)]: the cookie object, or [undefined]. *)
Fixpoint cookies_get (name : jsstring) (cs : list (jsstring * jsstring)) : option (jsstring * jsstring) :=
  match cs with
  | [] => None
  | (n, v) :: rest => if str_eqb n name then Some (n, v) else cookies_get name rest
  end.

Definition has_token (request : NextRequest) : bool :=
  match cookies_get (lit "token") (cookies request) with
  | Some _ => true
  | None => false
  end.

Definition isAuthPage (request : NextRequest) : bool :=
  startsWith (pathname request) (lit "/login")
  || startsWith (pathname request) (lit "/register").

Definition middleware (request : NextRequest) : NextResponse :=
  let token := has_token request in
  if str_eqb (pathname request) (lit "/") && negb token then redirect (lit "/login")
  else if negb token && negb (isAuthPage request) then redirect (lit "/login")
  else if token && isAuthPage request then redirect (lit "/")
  else next.

(** [favicon.ico] inside the matcher: the dot matches any one character. *)
Definition starts_favicon_ico (s : jsstring) : bool :=
  startsWith s (lit "favicon")
  && match skipn 7 s with
     | _ :: rest => startsWith rest (lit "ico")
     | [] => false
     end.

(** [config.matcher]: a slash, then a group that opens with the negative
    lookahead [(?!api|_next/static|_next/image|favicon.ico)] and takes the
    rest of the path.  A path is matched when, after its leading slash, it
    does not begin with one of the four excluded prefixes. *)
Definition matcher (path : jsstring) : bool :=
  match path with
  | c :: rest =>
      N.eqb c (cu "/")
      && negb (startsWith rest (lit "api")
               || startsWith rest (lit "_next/static")
               || startsWith rest (lit "_next/image")
               || starts_favicon_ico rest)
  | [] => false
  end.

(** A request for a graph page without cookies, for the examples. *)
Definition graph_page_request : NextRequest :=
  {| pathname := lit "/graph/abc"; cookies := [] |}.

End Middleware.

(** ** Route handlers: requests, responses and the backend *)

Module Http.
Import Js Json.

(** Body of an outgoing [fetch]: none, [JSON.stringify] of a value, or a
    [FormData] with its fields in [append] order. *)
Inductive payload : Type :=
| NoBody
| JsonBody (j : json)
| FormBody (fields : list (jsstring * jsstring)).

(** A call of [fetch] as the handler makes it: the method, the text of the
    URL, the headers and the body it gives. *)
Record request : Type := mkRequest {
  method : jsstring;
  url : jsstring;
  headers : list (jsstring * jsstring);
  body : payload
}.

(** A [fetch] response: its HTTP status code, and what [response.json()]
    resolves to ([None] when it rejects: no body, as under the statuses 204
    and 304, or a body that is not JSON). *)
Record response : Type := mkResponse {
  status : Z;
  parsed : option json
}.

(** [response.ok]: the status is in the range 200-299. *)
Definition ok (r : response) : bool := (200 <=? status r)%Z && (status r <=? 299)%Z.

Inductive fetched : Type :=
| Rejected
| Resolved (r : response).

(** The backend as a handler sees it: the answer to the newest request,
    given every request the handler has sent so far (oldest first). *)
Definition backend : Type := list request -> fetched.

(** The incoming request of a route handler: its [authorization] header
    ([None] when [headers().get] gives [null]) and what [request.json()]
    resolves to ([None] when it rejects). *)
Record Request : Type := mkIncoming {
  authorization : option jsstring;
  json_body : option json
}.

Inductive cookie_op : Type :=
| cookie_set (name value : jsstring) (httpOnly secure : bool) (sameSite : jsstring) (maxAge : Z)
| cookie_delete (name : jsstring).

(** A [NextResponse]: status, JSON body, and the operations applied to its
    cookies, in order. *)
Record NextResponse : Type := mkNextResponse {
  nr_status : Z;
  nr_body : json;
  nr_cookies : list cookie_op
}.

(** [NextResponse.json(body, { status })]; the status defaults to 200. *)
Definition NextResponse_json (body : json) (status : option Z) : NextResponse :=
  {| nr_status := match status with Some s => s | None => 200%Z end;
     nr_body := body;
     nr_cookies := [] |}.

(** The check of the [Response] constructor on a status given with a
    body: a status outside 200-599 is a RangeError, and one of the statuses
    that carry no body (204, 205, 304 in that range) is a TypeError. *)
Definition valid_status (s : Z) : bool :=
  ((200 <=? s) && (s <=? 599) && negb ((s =? 204) || (s =? 205) || (s =? 304)))%Z.

(** [NextResponse.json(body, { status })] for a status that is not known
    beforehand, such as the status of the backend's response. *)
Definition NextResponse_json_at (body : json) (status : Z) : completion NextResponse :=
  if valid_status status then Normal (NextResponse_json body (Some status)) else Throw.

(** A token that a header carries as it is: not empty and made of visible
    ASCII characters (a header value loses the white space around it, and
    [fetch] refuses line breaks and characters above U+00FF).  No token,
    which the pages send as the text [null], is carried as well. *)
Definition header_safe (token : option jsstring) : bool :=
  match token with
  | None => true
  | Some t => str_truthy t && forallb (fun c => (33 <=? c)%N && (c <=? 126)%N) t
  end.

Definition with_cookie (op : cookie_op) (r : NextResponse) : NextResponse :=
  {| nr_status := nr_status r; nr_body := nr_body r; nr_cookies := nr_cookies r ++ [op] |}.

(** [{ error: msg }] and [{ message: msg }]. *)
Definition error_body (msg : string) : json := JObj [(lit "error", JStr (lit msg))].
Definition message_body (msg : string) : json := JObj [(lit "message", JStr (lit msg))].

(** An environment variable inside a template literal. *)
Definition env_string (v : option jsstring) : jsstring :=
  match v with Some s => s | None => lit "undefined" end.

(** Handler computations: they may throw, and they extend the list of
    requests sent to the backend. *)
Definition M (A : Type) : Type := backend -> list request -> completion A * list request.

Definition ret {A} (a : A) : M A := fun _ sent => (Normal a, sent).

Definition throw {A} : M A := fun _ sent => (Throw, sent).

Definition bind {A B} (m : M A) (k : A -> M B) : M B :=
  fun be sent =>
    match m be sent with
    | (Normal a, sent') => k a be sent'
    | (Throw, sent') => (Throw, sent')
    end.

Definition lift {A} (c : completion A) : M A :=
  match c with Normal a => ret a | Throw => throw end.

(** [await fetch(...)]. *)
Definition fetch (rq : request) : M response :=
  fun be sent =>
    let sent' := sent ++ [rq] in
    match be sent' with
    | Resolved r => (Normal r, sent')
    | Rejected => (Throw, sent')
    end.

(** [await response.json()] and [await request.json()]. *)
Definition response_json (r : response) : M json :=
  match parsed r with Some j => ret j | None => throw end.

Definition request_json (rq : Request) : M json :=
  match json_body rq with Some j => ret j | None => throw end.

(** [try { m } catch (error) { return fallback }]. *)
Definition try_catch {A} (m : M A) (fallback : A) : M A :=
  fun be sent =>
    match m be sent with
    | (Normal a, sent') => (Normal a, sent')
    | (Throw, sent') => (Normal fallback, sent')
    end.

(** Running a handler against a backend: its response and the requests it
    sent. *)
Definition run {A} (m : M A) (be : backend) : completion A * list request := m be [].

Declare Scope route_scope.
Delimit Scope route_scope with route.
Notation "x <- m ;; k" := (bind m (fun x => k))
  (at level 61, m at next level, right associativity) : route_scope.

End Http.

(** ** [api/generate-knowledgebase/route.ts] *)

Module GenerateKnowledgebase.
Import Js Json Http.
Local Open Scope route_scope.

Section Route.
Variable BACKEND_URL : option jsstring.

Definition me_request (token : jsstring) : request :=
  {| method := lit "GET";
     url := env_string BACKEND_URL ++ lit "/auth/me";
     headers := [(lit "Authorization", token)];
     body := NoBody |}.

Definition create_request (token : jsstring) (text id : jsval) : request :=
  {| method := lit "POST";
     url := env_string BACKEND_URL ++ lit "/knowledge-graphs/";
     headers := [(lit "Authorization", token); (lit "Content-Type", lit "application/json")];
     body := JsonBody (JObj (object_literal [(lit "title", text); (lit "user_id", id)])) |}.

Definition POST (request : Request) : M NextResponse :=
  try_catch
    (match authorization request with
     | None | Some [] =>
         ret (NextResponse_json (error_body "Authorization token required") (Some 401%Z))
     | Some token =>
         userResponse <- fetch (me_request token) ;;
         if negb (ok userResponse) then
           ret (NextResponse_json (error_body "Failed to get user info") (Some (status userResponse)))
         else
           userInfo <- response_json userResponse ;;
           body <- request_json request ;;
           text <- lift (prop (Some body) (lit "text")) ;;
           if negb (truthy text) then
             ret (NextResponse_json (error_body "Query is required") (Some 400%Z))
           else
             id <- lift (prop (Some userInfo) (lit "id")) ;;
             response <- fetch (create_request token text id) ;;
             if negb (ok response) then
               error <- response_json response ;;
               ret (NextResponse_json error (Some (status response)))
             else
               data <- response_json response ;;
               ret (NextResponse_json data None)
     end)
    (NextResponse_json (error_body "Failed to create knowledge graph") (Some 500%Z)).

End Route.

(** The caller, [handleSubmit] of the home page: the body it posts to the
    route, and the [Authorization] header built from the token cookie. *)
Definition handleSubmit_request (token : jsval) (textAreaValue mode : jsstring) : Request :=
  {| authorization := Some (lit "Bearer " ++ to_string token);
     json_body := Some (JObj [(lit "text", JStr textAreaValue); (lit "mode", JStr mode)]) |}.

(** A post from the home page, for the examples. *)
Definition pioneer_request : Request :=
  handleSubmit_request (Some (JStr (lit "tok"))) (lit "quantum computing") (lit "pioneer").

(** A backend that knows the user as number 7 and assigns the uuid [u-1]. *)
Definition sample_backend : backend :=
  fun sent =>
    match sent with
    | [_] => Resolved {| status := 200; parsed := Some (JObj [(lit "id", JNum 7)]) |}
    | _ => Resolved {| status := 200; parsed := Some (JObj [(lit "uuid", JStr (lit "u-1"))]) |}
    end.

End GenerateKnowledgebase.

(** ** The graph-status route *)

Module GraphStatus.
Import Js Json Http.
Local Open Scope route_scope.

Section Route.
Variable BACKEND_URL : option jsstring.

(** The request of the [fetch], from the texts of the two template
    literals. *)
Definition status_request_of (uuid auth : jsstring) : request :=
  {| method := lit "GET";
     url := env_string BACKEND_URL ++ lit "/knowledge-graphs/status/" ++ uuid;
     headers := [(lit "Content-Type", lit "application/json");
                 (lit "Authorization", lit "Bearer " ++ auth)];
     body := NoBody |}.

(** The request for a [uuid] and an [auth] whose conversions succeed. *)
Definition status_request (uuid auth : jsval) : request :=
  status_request_of (to_string uuid) (to_string auth).

(** The two template literals are evaluated, the first argument of
    [fetch] before the second, before the request is made; a conversion
    that throws is caught by the [catch] of the route. *)
Definition POST (request : Request) : M NextResponse :=
  try_catch
    (body <- request_json request ;;
     uuid <- lift (prop (Some body) (lit "uuid")) ;;
     auth <- lift (prop (Some body) (lit "auth")) ;;
     if negb (truthy uuid) then
       ret (NextResponse_json (error_body "UUID is required in the request body") (Some 400%Z))
     else
       uuid_text <- lift (ToString uuid) ;;
       auth_text <- lift (ToString auth) ;;
       response <- fetch (status_request_of uuid_text auth_text) ;;
       if negb (ok response) then
         error <- response_json response ;;
         lift (NextResponse_json_at error (status response))
       else
         data <- response_json response ;;
         ret (NextResponse_json data None))
    (NextResponse_json (error_body "Failed to fetch graph status") (Some 500%Z)).

End Route.
(** The two answers of the route's own. *)
Definition uuid_required : NextResponse :=
  NextResponse_json (error_body "UUID is required in the request body") (Some 400%Z).

Definition fetch_failed : NextResponse :=
  NextResponse_json (error_body "Failed to fetch graph status") (Some 500%Z).

(** What the route answers once the backend has been asked: the
    backend's JSON body, under status 200 when the backend's response is ok
    and under the backend's status when it is not and a response with a body
    can carry it; the answer of the [catch] otherwise. *)
Definition relayed (answer : fetched) : NextResponse :=
  match answer with
  | Rejected => fetch_failed
  | Resolved r =>
      match parsed r with
      | None => fetch_failed
      | Some j =>
          if ok r then NextResponse_json j (Some 200%Z)
          else if valid_status (status r) then NextResponse_json j (Some (status r))
          else fetch_failed
      end
  end.

(** A request and a backend for the examples: the backend answers 201. *)
Definition status_body : json := JObj [(lit "status", JStr (lit "started"))].

Definition uuid_request : Request :=
  {| authorization := None;
     json_body := Some (JObj [(lit "uuid", JStr (lit "u1")); (lit "auth", JStr (lit "tok"))]) |}.

Definition created_backend : backend :=
  fun _ => Resolved {| status := 201; parsed := Some status_body |}.

(** A request whose uuid is an object with a field named [toString]:
    truthy, and without a string conversion. *)
Definition unconvertible_request : Request :=
  {| authorization := None;
     json_body := Some (JObj [(lit "uuid", JObj [(lit "toString", JNum 1)]);
                              (lit "auth", JStr (lit "tok"))]) |}.

End GraphStatus.

(** ** [api/auth/route.ts] *)

Module Auth.
Import Js Json Http.
Local Open Scope route_scope.

Section Route.
Variable BACKEND_URL : option jsstring.
Variable NODE_ENV : option jsstring.

(** [process.env.NODE_ENV === 'production']. *)
Definition production : bool :=
  match NODE_ENV with Some e => str_eqb e (lit "production") | None => false end.

(** [60 * 60 * 24 * 7], seven days. *)
Definition maxAge : Z := 60 * 60 * 24 * 7.

(** The form post of a login.  [FormData.append] converts the two values
    to text; the request is given for values whose conversion succeeds and
    yields well-formed text ([sendable]), which the entry keeps as it is. *)
Definition token_request (username password : jsval) : request :=
  {| method := lit "POST";
     url := env_string BACKEND_URL ++ lit "/auth/token";
     headers := [];
     body := FormBody [(lit "username", to_string username);
                       (lit "password", to_string password)] |}.

Definition register_request (username password email : jsval) : request :=
  {| method := lit "POST";
     url := env_string BACKEND_URL ++ lit "/auth/register";
     headers := [(lit "Content-Type", lit "application/json")];
     body := JsonBody (JObj (object_literal [(lit "username", username);
                                             (lit "password", password);
                                             (lit "email", email)])) |}.

(** The value of a cookie as [cookies.set] writes it: [value ?? ''], so
    the empty text for [undefined] and [null], and the text of the value
    otherwise. *)
Definition cookie_value (value : jsval) : jsstring :=
  match value with
  | None | Some JNull => []
  | Some _ => to_string value
  end.

(** A 200 response carrying [message] that sets the two session cookies,
    for values that a cookie carries ([sendable]). *)
Definition session_response (message : string) (access_token username : jsval) : NextResponse :=
  with_cookie (cookie_set (lit "username") (cookie_value username) false production (lit "lax") maxAge)
    (with_cookie (cookie_set (lit "token") (cookie_value access_token) false production (lit "lax") maxAge)
       (NextResponse_json (message_body message) (Some 200%Z))).

Definition logoutResponse : NextResponse :=
  with_cookie (cookie_delete (lit "username"))
    (with_cookie (cookie_delete (lit "token"))
       (NextResponse_json (message_body "Logout successful") (Some 200%Z))).

(** The part of [POST] after the [if / else if] chain on [action], reached
    by [login] and [register] with the backend's [response]. *)
Definition after_fetch (action username password : jsval) (response : response) : M NextResponse :=
  data <- response_json response ;;
  access_token <- (if is_str action (lit "login")
                   then lift (prop (Some data) (lit "access_token"))
                   else ret None) ;;
  if is_str action (lit "login") && truthy access_token then
    ret (session_response "Login successful" access_token username)
  else if is_str action (lit "register") then
    if (status response =? 400)%Z then
      ret (NextResponse_json (error_body "User already exists") (Some 400%Z))
    else if (status response =? 200)%Z then
      loginResponse <- fetch (token_request username password) ;;
      loginData <- response_json loginResponse ;;
      login_token <- lift (prop (Some loginData) (lit "access_token")) ;;
      if truthy login_token then
        ret (session_response "Registration successful, and login successful" login_token username)
      else
        ret (NextResponse_json (error_body "Login failed after registration") (Some 500%Z))
    else ret (NextResponse_json data (Some (status response)))
  else ret (NextResponse_json data (Some (status response))).

Definition POST (request : Request) : M NextResponse :=
  try_catch
    (body <- request_json request ;;
     action <- lift (prop (Some body) (lit "action")) ;;
     username <- lift (prop (Some body) (lit "username")) ;;
     password <- lift (prop (Some body) (lit "password")) ;;
     email <- lift (prop (Some body) (lit "email")) ;;
     if is_str action (lit "login") then
       response <- fetch (token_request username password) ;;
       after_fetch action username password response
     else if is_str action (lit "register") then
       response <- fetch (register_request username password email) ;;
       after_fetch action username password response
     else if is_str action (lit "logout") then
       ret logoutResponse
     else
       ret (NextResponse_json (error_body "Invalid action") (Some 400%Z)))
    (NextResponse_json (error_body "Internal server error") (Some 500%Z)).

End Route.
(** A logout request with another field, for the examples. *)
Definition logout_request : Request :=
  {| authorization := None;
     json_body := Some (JObj [(lit "username", JStr (lit "ada"));
                              (lit "action", JStr (lit "logout"))]) |}.

End Auth.

(** ** The agent-thought stream reader ([AgentThoughts.handleSubmit]) *)

Module AgentThoughts.
Import Js Json.

Definition nl : jsstring := [10%N].

(** The four emoji prefixes, as UTF-16 code units followed by a space:
    U+1F914, U+1F50D, U+1F4DD (surrogate pairs) and U+274C. *)
Definition thought_prefix : jsstring := [55358; 56596; 32]%N.
Definition action_prefix : jsstring := [55357; 56589; 32]%N.
Definition observation_prefix : jsstring := [55357; 56541; 32]%N.
Definition error_prefix : jsstring := [10060; 32]%N.

(** The [switch (data.type)]: the prefix chosen for a type. *)
Definition prefix_of (type : jsval) : jsstring :=
  if is_str type (lit "thought") then thought_prefix
  else if is_str type (lit "action") then action_prefix
  else if is_str type (lit "observation") then observation_prefix
  else if is_str type (lit "error") then error_prefix
  else [].

(** [formattedMessage] for a parsed line; reading [data.type] throws when
    [data] is [null], and the template literal throws when [data.content]
    has no string conversion. *)
Definition formattedMessage (data : json) : completion jsstring :=
  match prop (Some data) (lit "type") with
  | Throw => Throw
  | Normal type =>
      match prop (Some data) (lit "content") with
      | Throw => Throw
      | Normal content =>
          match ToString content with
          | Normal text => Normal (prefix_of type ++ text ++ nl)
          | Throw => Throw
          end
      end
  end.

(** The complete lines of a text: those closed by a newline. *)
Definition complete_lines (s : jsstring) : list jsstring :=
  removelast (split (cu "010") s).

Section Reader.
(** [JSON.parse], a built-in of the runtime: the parsed value, or [None]
    when it throws a SyntaxError. *)
Variable JSON_parse : jsstring -> option json.

(** The body of [for (const line of lines)]: a blank line is skipped; a
    line that parses and formats appends its message; any exception inside
    the inner [try] is logged and the loop goes on. *)
Definition process_line (thoughts : list jsstring) (line : jsstring) : list jsstring :=
  if str_truthy (trim line) then
    match JSON_parse line with
    | Some data =>
        match formattedMessage data with
        | Normal formatted => thoughts ++ [formatted]
        | Throw => thoughts
        end
    | None => thoughts
    end
  else thoughts.

(** How the response body ends: [read()] reports [done], or rejects with
    an error whose string conversion is given. *)
Inductive ending : Type :=
| Done
| ReadFails (error : jsstring).

(** The [while (true)] loop over the decoded chunks of the stream, with
    the [buffer] that keeps the last, incomplete line.  The result is the
    list of thoughts and whether the loop ended normally. *)
Fixpoint read_loop (chunks : list jsstring) (e : ending) (buffer : jsstring)
    (thoughts : list jsstring) : completion unit * list jsstring :=
  match chunks with
  | [] =>
      match e with
      | Done => (Normal tt, thoughts)
      | ReadFails _ => (Throw, thoughts)
      end
  | value :: rest =>
      let buffer1 := buffer ++ value in
      let lines := split (cu "010") buffer1 in
      let buffer2 := last lines [] in
      read_loop rest e buffer2 (fold_left process_line (removelast lines) thoughts)
  end.

(** The component state touched by [handleSubmit]. *)
Record state : Type := mkState {
  thoughts : list jsstring;
  isStreaming : bool
}.

(** The answer of [fetch('/api/agents/stream')]. *)
Inductive stream_response : Type :=
| FetchRejects (error : jsstring)
| NotOk
| NoReader
| Stream (chunks : list jsstring) (e : ending).

Definition error_message (error : jsstring) : jsstring :=
  error_prefix ++ lit "Error: " ++ error ++ nl.

Definition handleSubmit (prompt : jsstring) (st : state) (r : stream_response) : state :=
  if negb (str_truthy (trim prompt)) || isStreaming st then st
  else
    match r with
    | FetchRejects error =>
        {| thoughts := [error_message error]; isStreaming := false |}
    | NotOk =>
        {| thoughts := [error_message (lit "Error: Stream request failed")]; isStreaming := false |}
    | NoReader =>
        {| thoughts := [error_message (lit "Error: No reader available")]; isStreaming := false |}
    | Stream chunks e =>
        match read_loop chunks e [] [], e with
        | (Throw, ths), ReadFails error =>
            {| thoughts := ths ++ [error_message error]; isStreaming := false |}
        | (_, ths), _ => {| thoughts := ths; isStreaming := false |}
        end
    end.

(** What one line adds to the display: nothing for a blank line, for a
    line that [JSON.parse] rejects, for the JSON text [null] and for a value
    whose [content] has no string conversion; otherwise one message, the
    prefix of its type, then its content, then a newline. *)
Definition shown (line : jsstring) : list jsstring :=
  if str_truthy (trim line) then
    match JSON_parse line with
    | None | Some JNull => []
    | Some data =>
        match ToString (opt_prop (Some data) (lit "content")) with
        | Normal text => [prefix_of (opt_prop (Some data) (lit "type")) ++ text ++ nl]
        | Throw => []
        end
    end
  else [].

End Reader.

(** A parser that agrees with [JSON.parse] on the three JSON literal names
    and rejects every other text; enough to run the reader on the concrete
    streams of the examples. *)
Definition parse_literal (s : jsstring) : option json :=
  if str_eqb s (lit "null") then Some JNull
  else if str_eqb s (lit "true") then Some (JBool true)
  else if str_eqb s (lit "false") then Some (JBool false)
  else None.

(** An idle component and a stream in four chunks, for the examples. *)
Definition idle : state := {| thoughts := []; isStreaming := false |}.

Definition null_stream : list jsstring := [lit "nu"; lit "ll" ++ nl; lit "true" ++ nl; lit "tail"].

End AgentThoughts.

(** ** The citation renderer ([doc-renderer.tsx], [renderContent]) *)

Module DocRenderer.
Import Js Json.

(** The longest prefix of decimal digits and what follows it. *)
Fixpoint span_digits (s : jsstring) : jsstring * jsstring :=
  match s with
  | c :: s' =>
      if is_digit c then let (ds, rest) := span_digits s' in (c :: ds, rest)
      else ([], s)
  | [] => ([], [])
  end.

(** One attempt of the pattern [\[S(\d+)\]] at the start of [s]: the digits
    captured and the text after the closing bracket.  The digits are
    taken greedily; giving some back cannot help, because the character
    after a shorter run is a digit and not the bracket. *)
Definition match_marker (s : jsstring) : option (jsstring * jsstring) :=
  match s with
  | c0 :: c1 :: s1 =>
      if N.eqb c0 (cu "[") && N.eqb c1 (cu "S") then
        let (ds, s2) := span_digits s1 in
        match ds, s2 with
        | _ :: _, c2 :: rest => if N.eqb c2 (cu "]") then Some (ds, rest) else None
        | _, _ => None
        end
      else None
  | _ => None
  end.

(** The text of a marker with the given digits. *)
Definition marker (ds : jsstring) : jsstring := lit "[S" ++ ds ++ lit "]".

(** Output and reads of two stretches of the scan, one after the other;
    after an exception nothing more is done. *)
Definition emit (a b : completion jsstring * list Z) : completion jsstring * list Z :=
  match fst a with
  | Normal x =>
      (match fst b with Normal y => Normal (x ++ y) | Throw => Throw end, snd a ++ snd b)
  | Throw => (Throw, snd a)
  end.

Section Renderer.
(** [renderToString] of a [SourceBadge] for a zero-based index and the
    metadata object built from the chunk's title and url, which may throw;
    and the two library stages around the replacement: Markdown to HTML, and
    [DOMPurify.sanitize]. *)
Variable renderBadge : Z -> jsval -> jsval -> completion jsstring.
Variable renderMarkdown : jsstring -> jsstring.
Variable sanitize : jsstring -> jsstring.

Variable chunks : list json.

(** [chunks[index]] for an index inside the array. *)
Definition chunk_at (index : Z) : jsval := nth_error chunks (Z.to_nat index).

(** The callback of [replace]: the replacement text, and the indices at
    which it read [chunks], in order.  The conjunction short-circuits, so
    [chunks] is read only after both comparisons succeeded. *)
Definition replacer (ds : jsstring) : completion jsstring * list Z :=
  let index := (parseInt_digits ds - 1)%Z in
  if (0 <=? index)%Z && (index <? Z.of_nat (List.length chunks))%Z then
    let metadata := opt_prop (opt_prop (chunk_at index) (lit "content")) (lit "metadata") in
    if truthy metadata then
      (renderBadge index (opt_prop metadata (lit "title")) (opt_prop metadata (lit "url")),
       [index; index; index])
    else (Normal (marker ds), [index])
  else (Normal (marker ds), []).

(** [htmlString.replace(/\[S(\d+)\]/g, callback)]: a scan from the left;
    where the pattern matches, the callback's text is emitted and the scan
    resumes after the match; elsewhere one character is copied.  Each step
    consumes at least one character, so [length s] steps suffice.  An
    exception of the callback ends the replacement. *)
Fixpoint replace_from (fuel : nat) (s : jsstring) : completion jsstring * list Z :=
  match fuel with
  | O => (Normal s, [])
  | S fuel' =>
      match s with
      | [] => (Normal [], [])
      | c :: s' =>
          match match_marker s with
          | Some (ds, rest) => emit (replacer ds) (replace_from fuel' rest)
          | None => emit (Normal [c], []) (replace_from fuel' s')
          end
      end
  end.

Definition replace_markers (s : jsstring) : completion jsstring * list Z :=
  replace_from (List.length s) s.

Definition processedHtml (htmlString : jsstring) : completion jsstring :=
  fst (replace_markers htmlString).

Definition chunk_reads (htmlString : jsstring) : list Z := snd (replace_markers htmlString).

(** The HTML handed to [dangerouslySetInnerHTML] for one part. *)
Definition renderContent (part : jsstring) : completion jsstring :=
  match processedHtml (renderMarkdown part) with
  | Normal html => Normal (sanitize html)
  | Throw => Throw
  end.

(** The condition under which the callback renders a badge. *)
Definition cited (ds : jsstring) : bool :=
  let index := (parseInt_digits ds - 1)%Z in
  (0 <=? index)%Z && (index <? Z.of_nat (List.length chunks))%Z
  && truthy (opt_prop (opt_prop (nth_error chunks (Z.to_nat index)) (lit "content"))
               (lit "metadata")).

(** The badge of a citation: built from the title and url of the metadata
    of chunk [k - 1]. *)
Definition badge_of (ds : jsstring) : completion jsstring :=
  let index := (parseInt_digits ds - 1)%Z in
  let metadata :=
    opt_prop (opt_prop (nth_error chunks (Z.to_nat index)) (lit "content")) (lit "metadata") in
  renderBadge index (opt_prop metadata (lit "title")) (opt_prop metadata (lit "url")).

(** What stands in the output for a marker: the badge of a citation, the
    marker itself otherwise. *)
Definition replacement (ds : jsstring) : completion jsstring :=
  if cited ds then badge_of ds else Normal (marker ds).

(** Three stretches of output, one after the other. *)
Definition sequence3 (a b c : completion jsstring) : completion jsstring :=
  match a, b, c with
  | Normal x, Normal y, Normal z => Normal (x ++ y ++ z)
  | _, _, _ => Throw
  end.

(** An index inside the bounds of [chunks]. *)
Definition in_bounds (index : Z) : Prop :=
  (0 <= index < Z.of_nat (List.length chunks))%Z.

(** A text in which the pattern matches nowhere. *)
Definition marker_free (s : jsstring) : Prop :=
  forall pre t, s = pre ++ t -> match_marker t = None.

End Renderer.

(** A stand-in for the badge markup, for running the renderer on concrete
    inputs: the url, then the one-based source number. *)
Definition plainBadge (index : Z) (title url : jsval) : completion jsstring :=
  Normal (lit "<a href=" ++ to_string url ++ lit ">Source " ++ number_to_string (index + 1)
          ++ lit "</a>").

(** One chunk with metadata, for the examples. *)
Definition one_chunk : list json :=
  [JObj [(lit "content",
          JObj [(lit "metadata",
                 JObj [(lit "title", JStr (lit "T")); (lit "url", JStr (lit "http://a"))])])]].

(** One chunk whose [content.metadata] is the empty string: the field is
    there, and it is falsy. *)
Definition empty_metadata_chunk : list json :=
  [JObj [(lit "content", JObj [(lit "metadata", JStr [])])]].

End DocRenderer.

(** ** The graph orchestrator's status writes *)

Module Orchestrator.
Import Js.

(** Modelled from the spec: the status values of section 4.6 (the
    orchestrator is backend code that is not part of the sources).
    [topics_found] carries the planned topic list. *)
Inductive Status : Type :=
| started
| topics_found (topics : list jsstring)
| search_results_found
| articles_generated
| done
| failed.

(** Modelled from the spec: [done] and [failed] are terminal. *)
Definition terminal (s : Status) : bool :=
  match s with done | failed => true | _ => false end.

(** Modelled from the spec: the position of a status along
    [started -> topics_found -> search_results_found -> articles_generated
    -> done], with [failed] placed after every other status. *)
Definition stage (s : Status) : nat :=
  match s with
  | started => 0
  | topics_found _ => 1
  | search_results_found => 2
  | articles_generated => 3
  | done => 4
  | failed => 5
  end.

(** Modelled from the spec: the transitions of section 4.6.  Each stage
    advances to the next one, and [failed] is reachable from every state
    that is not terminal; nothing leaves [done] or [failed]. *)
Definition transition (a b : Status) : bool :=
  match a, b with
  | started, topics_found _ => true
  | topics_found _, search_results_found => true
  | search_results_found, articles_generated => true
  | articles_generated, done => true
  | _, failed => negb (terminal a)
  | _, _ => false
  end.

(** Modelled from the spec: the statuses written for one graph UUID form
    a run of the state machine: the first write is [started] (the graph row
    is created in that status) and each later write is a transition from
    the write before it. *)
Fixpoint chained (prev : Status) (rest : list Status) : bool :=
  match rest with
  | [] => true
  | s :: rest' => transition prev s && chained s rest'
  end.

Definition writes_of_run (ws : list Status) : bool :=
  match ws with
  | started :: rest => chained started rest
  | _ => false
  end.

(** Modelled from the spec: the orchestrator of section 4.6 as a function
    of what its collaborators do.  [plan] is the planner's topic list
    ([None] when planning fails); [retrieved] and [synthesized] tell, per
    topic, whether retrieval and synthesis succeeded.  The result is the
    list of statuses written, oldest first.  [search_results_found] is
    written when all retrievals have settled; a graph none of whose topics
    succeeds fails. *)
Definition orchestrate (plan : option (list jsstring))
    (retrieved synthesized : jsstring -> bool) : list Status :=
  match plan with
  | None => [started; failed]
  | Some topics =>
      let found := filter retrieved topics in
      let written := filter synthesized found in
      match found, written with
      | [], _ => [started; topics_found topics; failed]
      | _ :: _, [] => [started; topics_found topics; search_results_found; failed]
      | _ :: _, _ :: _ =>
          [started; topics_found topics; search_results_found; articles_generated; done]
      end
  end.

(** Some status written earlier in [ws] is [a] and a later one is [b]. *)
Fixpoint followed_by (a b : Status -> bool) (ws : list Status) : bool :=
  match ws with
  | [] => false
  | s :: rest => (a s && existsb b rest) || followed_by a b rest
  end.

Definition is_done (s : Status) : bool := match s with done => true | _ => false end.

Definition is_articles_generated (s : Status) : bool :=
  match s with articles_generated => true | _ => false end.

(** The strict order of statuses along the pipeline. *)
Definition before (a b : Status) : Prop := (stage a < stage b)%nat.

(** The run in which every topic succeeds, for the examples. *)
Definition full_run : list Status :=
  orchestrate (Some [lit "Qubits"; lit "Quantum Gates"]) (fun _ => true) (fun _ => true).

End Orchestrator.

(** ** Outcomes of the auth route *)

Module AuthOutcomes.
Import Js Json Http Auth.

(** The answer of the [catch] block of the auth route. *)
Definition internal_error : NextResponse :=
  NextResponse_json (error_body "Internal server error") (Some 500%Z).

Definition invalid_action : NextResponse :=
  NextResponse_json (error_body "Invalid action") (Some 400%Z).

(** What a login answers once the backend's answer to the token request is
    known: a session when the body carries a truthy [access_token], the
    backend's body under its status when it does not, and the [catch]
    answer when the fetch rejects, the body is not JSON or is [null]. *)
Definition login_answer (NODE_ENV : option jsstring) (username : jsval)
    (answer : fetched) : NextResponse :=
  match answer with
  | Rejected => internal_error
  | Resolved r =>
      match parsed r with
      | None | Some JNull => internal_error
      | Some data =>
          if truthy (opt_prop (Some data) (lit "access_token")) then
            session_response NODE_ENV "Login successful"
              (opt_prop (Some data) (lit "access_token")) username
          else NextResponse_json data (Some (status r))
      end
  end.

(** What a registration answers after the automatic login that follows a
    backend status 200. *)
Definition auto_login_answer (NODE_ENV : option jsstring) (username : jsval)
    (answer : fetched) : NextResponse :=
  match answer with
  | Rejected => internal_error
  | Resolved r =>
      match parsed r with
      | None | Some JNull => internal_error
      | Some loginData =>
          if truthy (opt_prop (Some loginData) (lit "access_token")) then
            session_response NODE_ENV "Registration successful, and login successful"
              (opt_prop (Some loginData) (lit "access_token")) username
          else NextResponse_json (error_body "Login failed after registration") (Some 500%Z)
      end
  end.

(** The cookies a response sets, by name. *)
Fixpoint cookies_set (ops : list cookie_op) : list jsstring :=
  match ops with
  | [] => []
  | cookie_set name _ _ _ _ _ :: rest => name :: cookies_set rest
  | cookie_delete _ :: rest => cookies_set rest
  end.

(** Bodies for the examples. *)
Definition login_body : json :=
  JObj [(lit "action", JStr (lit "login")); (lit "username", JStr (lit "ada"));
        (lit "password", JStr (lit "pw"))].

Definition register_body : json :=
  JObj [(lit "action", JStr (lit "register")); (lit "username", JStr (lit "ada"));
        (lit "password", JStr (lit "pw")); (lit "email", JStr (lit "a@b.c"))].

Definition token_backend : backend :=
  fun _ => Resolved {| status := 200;
                       parsed := Some (JObj [(lit "access_token", JStr (lit "t0"))]) |}.

Definition taken_backend : backend :=
  fun _ => Resolved {| status := 400;
                       parsed := Some (JObj [(lit "detail", JStr (lit "taken"))]) |}.

End AuthOutcomes.

(** ** Outcomes of the create-knowledgebase route, and the home page that
    calls it ([handleSubmit] of the home page) *)

Module HomePage.
Import Js Json Http GenerateKnowledgebase.

(** The route's own answers. *)
Definition unauthorized : NextResponse :=
  NextResponse_json (error_body "Authorization token required") (Some 401%Z).

Definition user_info_failed (status : Z) : NextResponse :=
  NextResponse_json (error_body "Failed to get user info") (Some status).

Definition query_required : NextResponse :=
  NextResponse_json (error_body "Query is required") (Some 400%Z).

Definition create_failed : NextResponse :=
  NextResponse_json (error_body "Failed to create knowledge graph") (Some 500%Z).

(** What the route answers once the backend has been asked to create the
    graph. *)
Definition create_relayed (answer : fetched) : NextResponse :=
  match answer with
  | Rejected => create_failed
  | Resolved r =>
      match parsed r with
      | None => create_failed
      | Some j => NextResponse_json j (if ok r then None else Some (status r))
      end
  end.

(** [if (data.uuid) router.push(`/loading/${data.uuid}`)]: the page the
    home page goes to for a response body; reading [uuid] of [null] throws
    and nothing is pushed. *)
Definition navigation (data : json) : option jsstring :=
  match prop (Some data) (lit "uuid") with
  | Normal uuid => if truthy uuid then Some (lit "/loading/" ++ to_string uuid) else None
  | Throw => None
  end.

(** [handleSubmit] of the home page against the route and a backend: the
    page pushed, if any, and the requests the route sent.  [token] is what
    [getCookie('token')] gave: the cookie's value or [null]. *)
Definition handleSubmit (BACKEND_URL : option jsstring) (be : backend)
    (token : option jsstring) (textAreaValue mode : jsstring)
    : option jsstring * list request :=
  let cookie := match token with Some t => JStr t | None => JNull end in
  match run (POST BACKEND_URL (handleSubmit_request (Some cookie) textAreaValue mode)) be with
  | (Normal res, sent) => (navigation (nr_body res), sent)
  | (Throw, sent) => (None, sent)
  end.

End HomePage.

(** ** The list-graphs route, and the sidebar that calls it *)

Module ListGraphs.
Import Js Json Http.
Local Open Scope route_scope.

Section Route.
Variable BACKEND_URL : option jsstring.

Definition list_request (token : jsstring) : request :=
  {| method := lit "GET";
     url := env_string BACKEND_URL ++ lit "/knowledge-graphs/";
     headers := [(lit "Authorization", token)];
     body := NoBody |}.

Definition GET (request : Request) : M NextResponse :=
  try_catch
    (match authorization request with
     | None | Some [] =>
         ret (NextResponse_json (error_body "Authorization token required") (Some 401%Z))
     | Some token =>
         response <- fetch (list_request token) ;;
         if negb (ok response) then
           error <- response_json response ;;
           ret (NextResponse_json error (Some (status response)))
         else
           data <- response_json response ;;
           ret (NextResponse_json data None)
     end)
    (NextResponse_json (error_body "Failed to list knowledge graphs") (Some 500%Z)).

End Route.

Definition list_failed : NextResponse :=
  NextResponse_json (error_body "Failed to list knowledge graphs") (Some 500%Z).

(** What the route answers once the backend has been asked. *)
Definition list_relayed (answer : fetched) : NextResponse :=
  match answer with
  | Rejected => list_failed
  | Resolved r =>
      match parsed r with
      | None => list_failed
      | Some j => NextResponse_json j (if ok r then None else Some (status r))
      end
  end.

(** The sidebar's [then] handler: [if (Array.isArray(data))
    setKnowledgeGraphs(data)]. *)
Definition setKnowledgeGraphs_if_array (knowledgeGraphs : list json) (data : json) : list json :=
  match data with
  | JArr items => items
  | _ => knowledgeGraphs
  end.

(** The state of the sidebar that the effect touches; [username] starts
    as [null]. *)
Record sidebar : Type := mkSidebar {
  knowledgeGraphs : list json;
  username : jsval
}.

Section Sidebar.
(** [atob], a built-in: the decoded text, or an InvalidCharacterError; and
    [JSON.parse], [None] when it throws. *)
Variable atob : jsstring -> completion jsstring.
Variable JSON_parse : jsstring -> option json.

(** [JSON.parse(atob(token.split('.')[1])).sub], handed to [setUsername].
    A token without a dot has no second segment, and [atob] is given the
    text [undefined].  Reading [sub] of [null] throws.  A payload that is a
    string has an inherited method of that name; [setUsername] takes a
    function for an updater and calls it without a receiver, which throws
    as well. *)
Definition token_subject (token : jsstring) : completion jsval :=
  match atob (to_string (option_map JStr (nth_error (split (cu ".") token) 1))) with
  | Throw => Throw
  | Normal text =>
      match JSON_parse text with
      | None => Throw
      | Some (JStr _) => Throw
      | Some payload => prop (Some payload) (lit "sub")
      end
  end.

(** The sidebar's effect on mount, against the route and a backend.
    Without a token ([getCookie] gave [null] or the empty string) it does
    nothing.  With one it starts the request to the route under [Bearer
    token], whose answer replaces the list of graphs when it is an array,
    and then reads the user's name from the token.  [Throw] stands for an
    exception that escapes the effect or the state update; the request has
    been sent by then. *)
Definition sidebar_load (BACKEND_URL : option jsstring) (be : backend)
    (token : option jsstring) (st : sidebar) : completion sidebar * list request :=
  match token with
  | None | Some [] => (Normal st, [])
  | Some t =>
      let (res, sent) := run (GET BACKEND_URL {| authorization := Some (lit "Bearer " ++ t);
                                                 json_body := None |}) be in
      match token_subject t with
      | Throw => (Throw, sent)
      | Normal sub =>
          (Normal {| knowledgeGraphs :=
                       match res with
                       | Normal r => setKnowledgeGraphs_if_array (knowledgeGraphs st) (nr_body r)
                       | Throw => knowledgeGraphs st
                       end;
                     username := sub |},
           sent)
      end
  end.

End Sidebar.

(** A decoder that agrees with [atob] on the text [dHJ1ZQ==], which is the
    base64 form of [true], and rejects every other text; enough to run the
    effect on the token of the examples. *)
Definition atob_true (s : jsstring) : completion jsstring :=
  if str_eqb s (lit "dHJ1ZQ==") then Normal (lit "true") else Throw.

(** A backend for the examples: it lists one graph. *)
Definition one_graph : json :=
  JObj [(lit "uuid", JStr (lit "u1")); (lit "title", JStr (lit "Qubits"))].

Definition listing_backend : backend :=
  fun _ => Resolved {| status := 200; parsed := Some (JArr [one_graph]) |}.

Definition expired_backend : backend :=
  fun _ => Resolved {| status := 401;
                       parsed := Some (JObj [(lit "detail", JStr (lit "expired"))]) |}.

End ListGraphs.

(** ** The simulated status route (a module-level request counter) *)

Module StatusDemo.
Import Js Json.

Definition statusTexts : list jsstring :=
  [ lit "Initializing..."; lit "Loading data..."; lit "Processing information...";
    lit "Analyzing results..."; lit "Finalizing..." ].

(** [var hitCount = -1], shared by all requests. *)
Definition initial_hitCount : Z := -1.

(** The JSON answer: [status] and [statusText]. *)
Record answer : Type := mkAnswer {
  status : jsstring;
  statusText : option jsstring
}.

(** [GET]: the counter is incremented, and the step is the remainder of
    the incremented counter plus one by the number of texts plus one.  The
    [slug] of the query string is read and not used.  The result is the
    answer and the new counter. *)
Definition GET (slug : option jsstring) (hitCount : Z) : answer * Z :=
  let hitCount := (hitCount + 1)%Z in
  let currentStep := Z.rem (hitCount + 1) (Z.of_nat (List.length statusTexts) + 1) in
  if (currentStep =? Z.of_nat (List.length statusTexts))%Z then
    ({| status := lit "completed"; statusText := Some (lit "Completed!") |}, hitCount)
  else
    ({| status := lit "loading";
        statusText := nth_error statusTexts (Z.to_nat currentStep) |}, hitCount).

(** The answers to a sequence of requests, given by their slugs. *)
Fixpoint serve (slugs : list (option jsstring)) (hitCount : Z) : list answer :=
  match slugs with
  | [] => []
  | slug :: rest => let (a, h) := GET slug hitCount in a :: serve rest h
  end.

(** The answer to the [n]-th request since the start, counted from 1. *)
Definition nth_answer (n : Z) : answer :=
  if (n mod 6 =? 5)%Z then
    {| status := lit "completed"; statusText := Some (lit "Completed!") |}
  else
    {| status := lit "loading";
       statusText := Some (nth (Z.to_nat (n mod 6)) statusTexts []) |}.

End StatusDemo.

(** ** The loading page, its token cookie and the route it polls *)

Module LoadingFlow.
Import Js Json Http LoadingPage.

(** [s.split('; ')]: the fields between the occurrences of a separator of
    two code units. *)
Fixpoint split2 (a b : N) (s : jsstring) : list jsstring :=
  match s with
  | [] => [[]]
  | c :: s' =>
      match s' with
      | d :: s'' =>
          if N.eqb c a && N.eqb d b then [] :: split2 a b s''
          else match split2 a b s' with
               | f :: fs => (c :: f) :: fs
               | [] => [[c]]
               end
      | [] => [[c]]
      end
  end.

(** [document.cookie.split('; ').find(row => row.startsWith('token='))
    ?.split('=')[1]]. *)
Definition token_of_cookie (cookie : jsstring) : option jsstring :=
  match find (fun row => startsWith row (lit "token=")) (split2 (cu ";") (cu " ") cookie) with
  | Some row => nth_error (split (cu "=") row) 1
  | None => None
  end.

(** The text of [document.cookie] for a list of cookies: [name=value]
    pairs joined by a semicolon and a space. *)
Definition cookie_string (jar : list (jsstring * jsstring)) : jsstring :=
  join (lit "; ") (map (fun nv => fst nv ++ cu "=" :: snd nv) jar).

(** The first cookie of a jar with the given name. *)
Definition jar_find (name : jsstring) (jar : list (jsstring * jsstring))
    : option (jsstring * jsstring) :=
  find (fun nv => str_eqb (fst nv) name) jar.

(** The request body of one poll: [{ uuid: params.slug, auth: token }]. *)
Definition poll_request (slug token : jsstring) : Request :=
  {| authorization := None;
     json_body := Some (JObj [(lit "uuid", JStr slug); (lit "auth", JStr token)]) |}.

(** The route's response as the page's [fetch] sees it. *)
Definition reply_of (res : NextResponse) : reply :=
  Reply ((200 <=? nr_status res)%Z && (nr_status res <=? 299)%Z) (Some (nr_body res)).

(** One poll of the page through the graph-status route to a backend: the
    new state, the page's effects, and the requests the route sent. *)
Definition poll_through_route (BACKEND_URL : option jsstring) (be : backend)
    (slug token : jsstring) (v : view) : view * list effect * list request :=
  match Http.run (GraphStatus.POST BACKEND_URL (poll_request slug token)) be with
  | (Normal res, sent) => (pollStatus slug v (reply_of res), sent)
  | (Throw, sent) => (pollStatus slug v FetchFails, sent)
  end.

(** The stage indices the page can show. *)
Definition stage_shown (v : view) : Prop :=
  In (currentStage v) [0; 2; 3; 4]%Z /\ truthy (Some (graphTitle v)) = true.

(** A backend whose graph is done, for the examples. *)
Definition done_backend : backend :=
  fun _ => Resolved {| Http.status := 200;
                       parsed := Some (JObj [(lit "status", JStr (lit "done"))]) |}.

End LoadingFlow.

(** ** The parts of an article ([CustomRenderer] of [doc-renderer.tsx]) *)

Module Cards.
Import Js Json.

(** Prepending a character to the first field of a split. *)
Definition cons_field (c : N) (fields : list jsstring) : list jsstring :=
  match fields with
  | f :: fs => (c :: f) :: fs
  | [] => [[c]]
  end.

(** [content.split] at the pattern that matches three backquotes followed
    by [card], or else three backquotes: a scan from the left; where the
    pattern matches, a field ends and the characters of the match are
    skipped ([skip] counts those still to skip); elsewhere the character
    joins the current field.  The longer alternative is tried first. *)
Fixpoint split_fences (skip : nat) (s : jsstring) : list jsstring :=
  match s with
  | [] => [[]]
  | c :: s' =>
      match skip with
      | S k => split_fences k s'
      | O =>
          if startsWith s (lit "```card") then [] :: split_fences 6 s'
          else if startsWith s (lit "```") then [] :: split_fences 2 s'
          else cons_field c (split_fences 0 s')
      end
  end.

(** [const parts = content.split(...)]. *)
Definition parts (content : jsstring) : list jsstring := split_fences 0 content.

(** What one part renders to: the HTML of a Markdown part, a card with its
    parsed properties, or the text ['Error rendering card']. *)
Inductive rendered : Type :=
| MarkdownPart (html : jsstring)
| CardPart (cardProps : json)
| CardError.

Section Renderer.
Variable renderBadge : Z -> jsval -> jsval -> completion jsstring.
Variable renderMarkdown : jsstring -> jsstring.
Variable sanitize : jsstring -> jsstring.
Variable JSON_parse : jsstring -> option json.
Variable chunks : list json.

(** One part: the parts of even index are rendered as Markdown with their
    citations, outside any [try]; those of odd index are parsed as the
    properties of a card, and a part that does not parse gives the error
    text. *)
Definition render_part (index : nat) (part : jsstring) : completion rendered :=
  if Nat.even index then
    match DocRenderer.renderContent renderBadge renderMarkdown sanitize chunks part with
    | Normal html => Normal (MarkdownPart html)
    | Throw => Throw
    end
  else
    Normal match JSON_parse part with
           | Some cardProps => CardPart cardProps
           | None => CardError
           end.

(** [parts.map((part, index) => ...)], from the left; an exception ends
    it. *)
Fixpoint render_parts (index : nat) (ps : list jsstring) : completion (list rendered) :=
  match ps with
  | [] => Normal []
  | part :: rest =>
      match render_part index part with
      | Throw => Throw
      | Normal r =>
          match render_parts (S index) rest with
          | Normal rs => Normal (r :: rs)
          | Throw => Throw
          end
      end
  end.

Definition CustomRenderer (content : jsstring) : completion (list rendered) :=
  render_parts 0 (parts content).

End Renderer.

Definition backquote : N := 96%N.

End Cards.

(** ** The chat sidebar ([llm-sidebar.tsx]) *)

Module LlmSidebar.
Import Js Json.

(** *** Cited node names *)

(** Line terminators, which the dot of a pattern does not match. *)
Definition is_line_terminator (c : N) : bool :=
  (c =? 10)%N || (c =? 13)%N || (c =? 8232)%N || (c =? 8233)%N.

(** The lazy group of the pattern [\[\[(.*?)\]\]] after the two opening
    brackets: the shortest run of characters of one line that is followed
    by two closing brackets, and the text after them. *)
Fixpoint lazy_name (s : jsstring) : option (jsstring * jsstring) :=
  match s with
  | [] => None
  | c :: s' =>
      if startsWith s (lit "]]") then Some ([], skipn 2 s)
      else if is_line_terminator c then None
      else match lazy_name s' with
           | Some (name, rest) => Some (c :: name, rest)
           | None => None
           end
  end.

(** One attempt of the pattern at the start of [s]. *)
Definition match_cite (s : jsstring) : option (jsstring * jsstring) :=
  if startsWith s (lit "[[") then lazy_name (skipn 2 s) else None.

Definition cite (name : jsstring) : jsstring := lit "[[" ++ name ++ lit "]]".

Section Renderer.
(** [renderToString] of a [SourceBadge] for a name. *)
Variable renderName : jsstring -> jsstring.

(** [htmlString.replace(pattern, callback)] with the global flag: where
    the pattern matches, the badge of the captured name is emitted and the
    scan resumes after the match; elsewhere one character is copied.
    [length s] steps suffice. *)
Fixpoint replace_cites_from (fuel : nat) (s : jsstring) : jsstring :=
  match fuel with
  | O => s
  | S fuel' =>
      match s with
      | [] => []
      | c :: s' =>
          match match_cite s with
          | Some (name, rest) => renderName name ++ replace_cites_from fuel' rest
          | None => c :: replace_cites_from fuel' s'
          end
      end
  end.

Definition processedHtml (htmlString : jsstring) : jsstring :=
  replace_cites_from (List.length htmlString) htmlString.

End Renderer.

(** *** The conversation *)

Inductive author : Type := user | ai.

Record Message : Type := mkMessage {
  type : author;
  content : jsstring
}.

Definition agentMessages : list jsstring :=
  [ lit "_Searching Semantic Scholar..._"; lit "_Querying YouTube transcripts..._";
    lit "_Scanning news articles..._"; lit "_Analyzing web search results..._";
    lit "_Processing research papers..._" ].

(** The narration message of an index. *)
Definition narration (index : nat) : Message :=
  {| type := ai; content := nth index agentMessages [] |}.

(** [s.includes(sub)]. *)
Fixpoint includes (s sub : jsstring) : bool :=
  startsWith s sub
  || match s with
     | [] => false
     | _ :: s' => includes s' sub
     end.

(** The loop that fills [selectedIndices]: indices are drawn until the set
    holds [numAgents] of them; a [Set] keeps the order of first insertion.
    [draws] are the successive values of [Math.floor(Math.random() *
    agentMessages.length)]; the result is [None] when they run out before
    the set is full. *)
Fixpoint select (numAgents : nat) (selected : list nat) (draws : list nat)
    : option (list nat) :=
  if (numAgents <=? List.length selected)%nat then Some selected
  else
    match draws with
    | [] => None
    | d :: rest =>
        if existsb (Nat.eqb d) selected then select numAgents selected rest
        else select numAgents (selected ++ [d]) rest
    end.

(** The state updater called for each chunk of the answer: the last
    message takes the text received so far when it is an [ai] message,
    otherwise a new [ai] message is pushed.  Reading the type of the last
    message of an empty list throws. *)
Definition show_answer (aiResponse : jsstring) (prev : list Message)
    : completion (list Message) :=
  match rev prev with
  | [] => Throw
  | lastMessage :: before =>
      match type lastMessage with
      | ai => Normal (rev before ++ [{| type := ai; content := aiResponse |}])
      | user => Normal (prev ++ [{| type := ai; content := aiResponse |}])
      end
  end.

(** How the body of the answer ends. *)
Inductive ending : Type :=
| Done
| ReadFails.

(** The [while (true)] loop over the decoded chunks. *)
Fixpoint read_answer (chunks : list jsstring) (e : ending) (aiResponse : jsstring)
    (messages : list Message) : completion unit * list Message :=
  match chunks with
  | [] => (match e with Done => Normal tt | ReadFails => Throw end, messages)
  | chunk :: rest =>
      let aiResponse := aiResponse ++ chunk in
      match show_answer aiResponse messages with
      | Normal messages' => read_answer rest e aiResponse messages'
      | Throw => (Throw, messages)
      end
  end.

(** The answer of [fetch('/api/llm')]. *)
Inductive llm_response : Type :=
| FetchRejects
| NotOk
| NoReader
| Stream (chunks : list jsstring) (e : ending).

(** The component state touched by [handleSubmit], and the number of calls
    of [handleGraphExpansion]. *)
Record state : Type := mkState {
  messages : list Message;
  inputValue : jsstring;
  isLoading : bool;
  expansions : nat
}.

Definition sorry : Message :=
  {| type := ai; content := lit "Sorry, there was an error processing your question." |}.

Definition generating : Message :=
  {| type := ai; content := lit "_Generating additional nodes..._" |}.

(** The [finally] block. *)
Definition finish (expand : bool) (expansions : nat) (ms : list Message) : state :=
  {| messages := if expand then ms ++ [generating] else ms;
     inputValue := [];
     isLoading := false;
     expansions := if expand then S expansions else expansions |}.

(** [handleSubmit]: [numAgents] is the 2 or 3 drawn first, [draws] the
    indices drawn afterwards; the result is [None] when the selection loop
    has not finished within the draws given.  The delays are not
    modelled. *)
Definition handleSubmit (st : state) (numAgents : nat) (draws : list nat)
    (r : llm_response) : option state :=
  let expand := includes (inputValue st) (lit "add to the graph") in
  let ms0 := messages st ++ [{| type := user; content := inputValue st |}] in
  match select numAgents [] draws with
  | None => None
  | Some selectedIndices =>
      let ms1 := ms0 ++ map (fun index => {| type := ai;
                                             content := nth index agentMessages [] |})
                            selectedIndices in
      Some (match r with
            | FetchRejects | NotOk => finish expand (expansions st) (ms1 ++ [sorry])
            | NoReader => finish expand (expansions st) ms1
            | Stream chunks e =>
                match read_answer chunks e [] ms1 with
                | (Normal _, ms2) => finish expand (expansions st) ms2
                | (Throw, ms2) => finish expand (expansions st) (ms2 ++ [sorry])
                end
            end)
  end.

End LlmSidebar.

(** ** Cookies on the client ([getCookie], [removeCookie], [handleLogout]) *)

Module Cookies.
Import Js Json.

(** The capturing group of the pattern: the longest run of characters
    other than a semicolon. *)
Fixpoint until_semicolon (s : jsstring) : jsstring :=
  match s with
  | [] => []
  | c :: s' => if N.eqb c (cu ";") then [] else c :: until_semicolon s'
  end.

(** The pattern after its first group, tried at the start of [s]: the
    name, an equals sign, and the value up to the next semicolon.  The name
    is escaped before it is put into the pattern (every character that is
    special in a pattern gets a backslash), so it matches itself. *)
Definition value_here (name s : jsstring) : option jsstring :=
  if startsWith s (name ++ [cu "="]) then
    Some (until_semicolon (skipn (List.length name + 1) s))
  else None.

(** The search for the alternative that begins with a semicolon and a
    space, from the left. *)
Fixpoint search_after_separator (name s : jsstring) : option jsstring :=
  match s with
  | [] => None
  | c :: s' =>
      match (if startsWith s (lit "; ") then value_here name (skipn 2 s) else None) with
      | Some value => Some value
      | None => search_after_separator name s'
      end
  end.

(** [document.cookie.match(pattern)]: the first group of the leftmost
    match; at the start of the text the alternative of the start is tried
    first. *)
Definition cookie_match (name cookie : jsstring) : option jsstring :=
  match value_here name cookie with
  | Some value => Some value
  | None => search_after_separator name cookie
  end.

Section Decode.
(** [decodeURIComponent], a built-in: the decoded text, or a URIError. *)
Variable decodeURIComponent : jsstring -> completion jsstring.

(** [getCookie(name)] on the text of [document.cookie]: the decoded value,
    or [null]. *)
Definition getCookie (name cookie : jsstring) : completion (option jsstring) :=
  match cookie_match name cookie with
  | Some value =>
      match decodeURIComponent value with
      | Normal decoded => Normal (Some decoded)
      | Throw => Throw
      end
  | None => Normal None
  end.

End Decode.

(** [removeCookie(name)]: the text assigned to [document.cookie]. *)
Definition removeCookie (name : jsstring) : jsstring :=
  name ++ lit "=; path=/; max-age=0".

(** [handleLogout] of the sidebar: the texts assigned to
    [document.cookie], in order, and the page the window goes to. *)
Definition handleLogout (cookie : jsstring) : list jsstring * jsstring :=
  (map (fun c => removeCookie (trim (hd [] (split (cu "=") c)))) (split (cu ";") cookie),
   lit "/login").

Definition not_whitespace (s : jsstring) : bool :=
  forallb (fun c => negb (is_whitespace c)) s.

(** Cookies as [document.cookie] lists them: no semicolon in a name or a
    value, no equals sign in a name. *)
Definition well_formed (jar : list (jsstring * jsstring)) : Prop :=
  Forall (fun nv => ~ In (cu ";") (fst nv) /\ ~ In (cu "=") (fst nv)
                    /\ ~ In (cu ";") (snd nv)) jar.

(** One [name=value] row of [document.cookie]. *)
Definition pair_text (nv : jsstring * jsstring) : jsstring :=
  fst nv ++ cu "=" :: snd nv.

End Cookies.

(** ** The sign-in form ([AuthForm.handleSubmit]) *)

Module AuthForm.
Import Js Json Http.

Inductive mode : Type := login | register.

Definition mode_name (m : mode) : jsstring :=
  match m with login => lit "login" | register => lit "register" end.

(** The body posted to [/api/auth]: the email is added for a
    registration. *)
Definition form_body (m : mode) (username password email : jsstring) : json :=
  JObj ([(lit "action", JStr (mode_name m)); (lit "username", JStr username);
         (lit "password", JStr password)]
        ++ match m with
           | register => [(lit "email", JStr email)]
           | login => []
           end).

(** What the form shows and where it goes. *)
Record outcome : Type := mkOutcome {
  error : jsstring;
  pushed : option jsstring
}.

Section Form.
(** The message of the TypeError thrown by reading a property of [null]. *)
Variable TypeError_message : jsstring.

(** The part of [handleSubmit] after the response has arrived. *)
Definition on_response (m : mode) (res : NextResponse) : outcome :=
  if negb ((200 <=? nr_status res)%Z && (nr_status res <=? 299)%Z) then
    match prop (Some (nr_body res)) (lit "error") with
    | Normal e =>
        {| error := if truthy e then to_string e else lit "Authentication failed";
           pushed := None |}
    | Throw => {| error := TypeError_message; pushed := None |}
    end
  else
    {| error := [];
       pushed := Some (match m with login => lit "/" | register => lit "/login" end) |}.

(** [handleSubmit] against the auth route and a backend: the outcome, the
    response (for its cookies) and the requests the route sent. *)
Definition handleSubmit (BACKEND_URL NODE_ENV : option jsstring) (be : backend)
    (m : mode) (username password email : jsstring)
    : outcome * option NextResponse * list request :=
  match run (Auth.POST BACKEND_URL NODE_ENV
               {| authorization := None;
                  json_body := Some (form_body m username password email) |}) be with
  | (Normal res, sent) => (on_response m res, Some res, sent)
  | (Throw, sent) => ({| error := lit "Something went wrong"; pushed := None |}, None, sent)
  end.

End Form.


End AuthForm.

(* ===================================================================== *)
(** * Part II.  Properties                                                 *)
(* ===================================================================== *)

Unset Implicit Arguments.

(** ** Facts about strings *)

Module JsFacts.
Import Js.

(** The string operations on small inputs, as the JavaScript console
    answers them. *)
Example split_fields : split (cu ":") (lit "a:b:c") = [lit "a"; lit "b"; lit "c"].
Proof. reflexivity. Qed.

Example split_empty : split (cu ":") [] = [[]].
Proof. reflexivity. Qed.

Example split_trailing : split (cu "|") (lit "a|") = [lit "a"; []].
Proof. reflexivity. Qed.

Example join_fields : join (lit "|") [lit "a"; lit "b"; lit "c"] = lit "a|b|c".
Proof. reflexivity. Qed.

Example newline_code : cu "010" = 10%N.
Proof. reflexivity. Qed.

Example trim_both_ends : trim (lit "  x y " ++ [10%N]) = lit "x y".
Proof. reflexivity. Qed.

Example parseInt_leading_zero : parseInt_digits (lit "012") = 12%Z.
Proof. reflexivity. Qed.

Example number_to_string_negative : number_to_string (-5) = lit "-5".
Proof. reflexivity. Qed.

(** Beyond [2^53] a number is printed by its shortest digits: [2^64] with
    seventeen digits and three zeros, [10^21] and the double next to [10^23]
    in exponent form. *)
Example number_to_string_large :
  number_to_string (2 ^ 64) = lit "18446744073709552000"
  /\ number_to_string (10 ^ 21) = lit "1e+21"
  /\ number_to_string 99999999999999991611392 = lit "1e+23"
  /\ number_to_string (- 2 ^ 70) = lit "-1.1805916207174113e+21"
  /\ number_to_string (2 ^ 53 + 2) = lit "9007199254740994".
Proof. repeat split; vm_compute; reflexivity. Qed.

Example substring0_clamps : substring0 (lit "abc") 5 = lit "abc".
Proof. reflexivity. Qed.

Lemma str_eqb_spec (a b : jsstring) : reflect (a = b) (str_eqb a b).
Proof.
  revert b; induction a as [|x a IH]; intros [|y b]; simpl;
    try (constructor; congruence).
  destruct (N.eqb_spec x y) as [->|Hxy]; simpl.
  - destruct (IH b) as [->|Hab]; constructor; congruence.
  - constructor; congruence.
Qed.

Lemma str_eqb_refl (a : jsstring) : str_eqb a a = true.
Proof. destruct (str_eqb_spec a a); congruence. Qed.

Lemma split_no_sep (sep : N) (s : jsstring) :
  ~ In sep s -> split sep s = [s].
Proof.
  induction s as [|c s IH]; simpl; intros Hs; [reflexivity|].
  destruct (N.eqb_spec c sep) as [->|_].
  - exfalso; apply Hs; now left.
  - rewrite IH by tauto. reflexivity.
Qed.

Lemma split_app_sep (sep : N) (a b : jsstring) :
  ~ In sep a -> split sep (a ++ sep :: b) = a :: split sep b.
Proof.
  induction a as [|c a IH]; simpl; intros Ha.
  - now rewrite N.eqb_refl.
  - destruct (N.eqb_spec c sep) as [->|_].
    + exfalso; apply Ha; now left.
    + rewrite IH by tauto. reflexivity.
Qed.

Lemma split_nonempty (sep : N) (s : jsstring) : split sep s <> [].
Proof.
  destruct s as [|c s]; simpl; [discriminate|].
  destruct (N.eqb c sep); [discriminate|].
  destruct (split sep s); discriminate.
Qed.

(** Splitting undoes joining when no field holds the separator. *)
Lemma split_join (sep : N) (l : list jsstring) :
  l <> [] ->
  Forall (fun x => ~ In sep x) l ->
  split sep (join [sep] l) = l.
Proof.
  induction l as [|x l IH]; intros Hne Hall; [congruence|].
  inversion Hall as [|? ? Hx Hl]; subst.
  destruct l as [|y l].
  - simpl. now apply split_no_sep.
  - change (join [sep] (x :: y :: l)) with (x ++ sep :: join [sep] (y :: l)).
    rewrite split_app_sep by assumption.
    rewrite IH; [reflexivity | discriminate | assumption].
Qed.

Lemma in_join (c : N) (sep : jsstring) (l : list jsstring) :
  In c (join sep l) -> In c sep \/ exists x, In x l /\ In c x.
Proof.
  induction l as [|x l IH]; simpl; [tauto|].
  destruct l as [|y l].
  - intros H; right; exists x; tauto.
  - rewrite !in_app_iff. intros [H|[H|H]].
    + right; exists x; tauto.
    + now left.
    + destruct (IH H) as [?|[z [Hz Hc]]]; [now left|].
      right; exists z; split; [now right | assumption].
Qed.

Lemma length_substring0 (s : jsstring) (e : Z) :
  (0 <= e)%Z -> (Z.of_nat (List.length (substring0 s e)) <= e)%Z.
Proof.
  intros He. unfold substring0. rewrite length_firstn. lia.
Qed.

End JsFacts.

(** ** The [topics_found] status: encoding and the page's parse *)

Module LoadingPageFacts.
Import Js Json LoadingPage JsFacts.

Lemma encode_starts (names : list jsstring) :
  startsWith (encode_topics_found names) (lit "topics_found:") = true.
Proof. unfold encode_topics_found. vm_compute. reflexivity. Qed.

Lemma topicList_encode (names : list jsstring) :
  names <> [] ->
  Forall (fun x => ~ In (cu ":") x /\ ~ In (cu "|") x) names ->
  topicList (encode_topics_found names) = Some names.
Proof.
  intros Hne Hall.
  assert (Hcolon : ~ In (cu ":") (join (lit "|") names)).
  { intros Hin. apply in_join in Hin as [Hin|[x [Hx Hin]]].
    - simpl in Hin. destruct Hin as [Hin|[]]. discriminate Hin.
    - rewrite Forall_forall in Hall. destruct (Hall x Hx) as [Hc _]. exact (Hc Hin). }
  unfold topicList, encode_topics_found.
  change (lit "topics_found:" ++ join (lit "|") names)
    with (lit "topics_found" ++ cu ":" :: join (lit "|") names).
  rewrite split_app_sep.
  - rewrite split_no_sep by exact Hcolon. simpl nth_error.
    change (lit "|") with [cu "|"]. cbv iota beta.
    rewrite split_join; [reflexivity | assumption |].
    eapply Forall_impl; [|exact Hall]. simpl; tauto.
  - vm_compute. intuition discriminate.
Qed.

(** C2. Round trip of the [topics_found] status: for a non-empty list of
    topic names none of which holds [':'] or ['|'], the status
    ["topics_found:" ++ names joined with '|'] is parsed back by the loading
    page ([status.split(':')[1].split('|')]) into exactly the names, in order,
    and one poll that receives this status stores them as the page's topics. *)
Theorem topics_found_roundtrip (names : list jsstring) (slug : jsstring) (v : view) :
  names <> [] ->
  Forall (fun x => ~ In (cu ":") x /\ ~ In (cu "|") x) names ->
  topicList (encode_topics_found names) = Some names
  /\ topics (fst (onStatusString slug (encode_topics_found names) v)) = names.
Proof.
  intros Hne Hall.
  pose proof (topicList_encode names Hne Hall) as Hparse.
  split; [exact Hparse|].
  unfold onStatusString. rewrite encode_starts, Hparse. reflexivity.
Qed.

Lemma topics_found_roundtrip_witness :
  topicList (encode_topics_found [lit "Qubits"; lit "Quantum Gates"])
    = Some [lit "Qubits"; lit "Quantum Gates"]
  /\ topics (fst (onStatusString (lit "u1")
                    (encode_topics_found [lit "Qubits"; lit "Quantum Gates"]) initialView))
     = [lit "Qubits"; lit "Quantum Gates"].
Proof.
  apply (topics_found_roundtrip [lit "Qubits"; lit "Quantum Gates"]).
  - discriminate.
  - repeat constructor; vm_compute; intuition discriminate.
Defined.

Lemma pushes_console_only (effs : list effect) :
  forallb console_only effs = true -> pushes effs = [].
Proof.
  induction effs as [|e effs IH]; simpl; [reflexivity|].
  destruct e; simpl; auto; discriminate.
Qed.

Lemma onStatusString_not_done (slug s : jsstring) (v : view) :
  str_eqb s (lit "done") = false ->
  forallb console_only (snd (onStatusString slug s v)) = true
  /\ (stage_status (Some (JStr s)) = false ->
      currentStage (fst (onStatusString slug s v)) = currentStage v).
Proof.
  intros Hnd. unfold onStatusString, stage_status.
  destruct (startsWith s (lit "topics_found:")).
  - destruct (topicList s); simpl; split; auto; discriminate.
  - destruct (str_eqb s (lit "search_results_found")); [simpl; split; auto; discriminate|].
    destruct (str_eqb s (lit "articles_generated")); [simpl; split; auto; discriminate|].
    rewrite Hnd. simpl; auto.
Qed.

Lemma setGraphTitle_stage (title : jsval) (v : view) :
  currentStage (setGraphTitle title v) = currentStage v.
Proof. reflexivity. Qed.

(** One poll on a status other than ['done']. *)
Lemma pollStatus_not_done (slug : jsstring) (v : view) (r : reply) :
  is_str (status_of r) (lit "done") = false ->
  forallb console_only (snd (pollStatus slug v r)) = true
  /\ (stage_status (status_of r) = false ->
      currentStage (fst (pollStatus slug v r)) = currentStage v).
Proof.
  intros Hnd. destruct r as [|[|] [data|]]; simpl; auto.
  destruct data as [|b|z|s|items|fields]; simpl; auto.
  simpl in Hnd.
  destruct (assoc (lit "status") fields) as [[|b|z|s|items|fs]|] eqn:Hst;
    simpl; auto.
  simpl in Hnd. rewrite Hnd.
  destruct (onStatusString_not_done slug s (setGraphTitle (assoc (lit "title") fields) v) Hnd)
    as [Hc Hs].
  destruct (onStatusString slug s (setGraphTitle (assoc (lit "title") fields) v))
    as [v2 effs] eqn:Hon.
  simpl in *. split; [assumption|].
  intros Hstage. now rewrite Hs.
Qed.

Lemma run_not_done (slug : jsstring) (replies : list reply) (p : poller) (period : Z) :
  interval p = Some period ->
  navigations p = [] ->
  Forall (fun r => is_str (status_of r) (lit "done") = false) replies ->
  navigations (run slug p replies) = []
  /\ interval (run slug p replies) = Some period
  /\ polls (run slug p replies) = (polls p + List.length replies)%nat.
Proof.
  revert p. induction replies as [|r replies IH]; intros p Hint Hnav Hall.
  - simpl. repeat split; auto.
  - inversion Hall as [|? ? Hr Hrest]; subst.
    destruct (pollStatus_not_done slug (pview p) r Hr) as [Hc _].
    apply pushes_console_only in Hc.
    assert (Htick : tick slug p r =
                    {| pview := fst (pollStatus slug (pview p) r);
                       navigations := [];
                       interval := Some period;
                       polls := S (polls p) |}).
    { unfold tick. rewrite Hint.
      destruct (pollStatus slug (pview p) r) as [v effs]. simpl in *.
      rewrite Hc, Hnav. reflexivity. }
    change (run slug p (r :: replies)) with (run slug (tick slug p r) replies).
    specialize (IH (tick slug p r)). rewrite Htick in IH |- *.
    destruct (IH eq_refl eq_refl Hrest) as (H1 & H2 & H3).
    repeat split; auto. rewrite H3. simpl. lia.
Qed.

(** C8. The loading page leaves only on ['done'].  For a page mounted with
    a token and any sequence of poll replies none of whose status is the
    exact string ['done'] (so also for ['failed'] and ['started']): no
    navigation is requested, every effect of every poll is a console write
    (nothing is shown as an error), the 2000 ms interval timer stays
    installed and every tick performs its poll; and a single poll leaves the
    stage index unchanged unless the status starts with ['topics_found:'] or
    is ['search_results_found'] or ['articles_generated']. *)
Theorem poller_leaves_only_on_done (slug token : jsstring) (replies : list reply) :
  token <> [] ->
  Forall (fun r => is_str (status_of r) (lit "done") = false) replies ->
  let p := run slug (mount (Some token)) replies in
  navigations p = []
  /\ interval p = Some 2000%Z
  /\ polls p = List.length replies
  /\ Forall (fun r => forall v,
               forallb console_only (snd (pollStatus slug v r)) = true
               /\ (stage_status (status_of r) = false ->
                   currentStage (fst (pollStatus slug v r)) = currentStage v)) replies.
Proof.
  intros Htok Hall p.
  assert (Hmount : mount (Some token) =
                   {| pview := initialView; navigations := [];
                      interval := Some 2000%Z; polls := 0 |}).
  { destruct token; [congruence | reflexivity]. }
  subst p. rewrite Hmount.
  destruct (run_not_done slug replies
              {| pview := initialView; navigations := [];
                 interval := Some 2000%Z; polls := 0 |} 2000%Z eq_refl eq_refl Hall)
    as (H1 & H2 & H3).
  repeat split; auto.
  rewrite Forall_forall in *. intros r Hr v.
  apply pollStatus_not_done. now apply Hall.
Qed.

Lemma poller_leaves_only_on_done_witness :
  let p := run (lit "u1") (mount (Some (lit "tok"))) [started_reply; failed_reply; FetchFails] in
  navigations p = [] /\ interval p = Some 2000%Z /\ polls p = 3%nat.
Proof.
  destruct (poller_leaves_only_on_done (lit "u1") (lit "tok")
              [started_reply; failed_reply; FetchFails]) as (H1 & H2 & H3 & _).
  - discriminate.
  - repeat constructor.
  - auto.
Defined.

End LoadingPageFacts.

(** ** The chat prompt: staircase truncation *)

Module LlmRouteFacts.
Import Js Json LlmRoute JsFacts.

Lemma len_nonneg (nodes : list node) : (0 <= len nodes)%Z.
Proof. unfold len. apply Z_div_nonneg_nonneg; lia. Qed.

Lemma included_length (nodes : list node) (nd : node) :
  (Z.of_nat (List.length (included nodes nd)) <= len nodes)%Z.
Proof. apply length_substring0, len_nonneg. Qed.

(** Total length of what a list of nodes contributes under a fixed budget. *)
Lemma included_total (nodes l : list node) :
  (Z.of_nat (List.length (List.concat (map (included nodes) l)))
   <= Z.of_nat (List.length l) * len nodes)%Z.
Proof.
  induction l as [|nd l IH]; [simpl; lia|].
  change (List.concat (map (included nodes) (nd :: l)))
    with (included nodes nd ++ List.concat (map (included nodes) l)).
  rewrite length_app, length_cons. pose proof (included_length nodes nd). lia.
Qed.

Lemma len_antitone (nodes nodes' : list node) :
  (1 <= List.length nodes)%nat ->
  (List.length nodes <= List.length nodes')%nat ->
  (len nodes' <= len nodes)%Z.
Proof.
  intros H1 H2. unfold len. apply Z.div_le_compat_l; lia.
Qed.

(** C3. Staircase truncation in the chat prompt.  For a payload with
    [n >= 1] nodes the prompt is the fixed head, then one line per node in
    payload order joined by newlines, then the tail with the question; the
    line of a node shows exactly the first [floor(5000 / n)] characters of
    its content (all of it when it is shorter); the contents shown add up to
    at most 5000 characters; and the per-node budget [floor(5000 / n)] does
    not grow when the number of nodes grows. *)
Theorem staircase_truncation (question : jsval) (nodes : list node) :
  (1 <= List.length nodes)%nat ->
  let n := Z.of_nat (List.length nodes) in
  prompt question nodes
    = prompt_head
      ++ join nl (map (fun nd => lit "- " ++ to_string (name nd) ++ lit ": "
                                 ++ firstn (Z.to_nat (5000 / n)) (content nd)
                                 ++ lit "...") nodes)
      ++ prompt_tail question
  /\ Forall (fun nd =>
       included nodes nd = firstn (Z.to_nat (5000 / n)) (content nd)
       /\ Z.of_nat (List.length (included nodes nd))
          = Z.min (5000 / n) (Z.of_nat (List.length (content nd)))) nodes
  /\ (Z.of_nat (List.length (List.concat (map (included nodes) nodes))) <= 5000)%Z
  /\ (forall nodes', (List.length nodes <= List.length nodes')%nat ->
        (len nodes' <= len nodes)%Z)
  /\ messages (POST question nodes)
     = [(lit "system", Some (JStr (prompt question nodes))); (lit "user", question)].
Proof.
  intros Hn n. repeat split.
  - rewrite Forall_forall. intros nd _. split; [reflexivity|].
    unfold included, substring0, len. fold n. rewrite length_firstn.
    assert (0 <= 5000 / n)%Z by (apply Z.div_pos; lia). lia.
  - pose proof (included_total nodes nodes) as Htot. fold n in Htot.
    assert (n * len nodes <= 5000)%Z.
    { unfold len. fold n. apply Z.mul_div_le. lia. }
    lia.
  - intros nodes' Hle. now apply len_antitone.
Qed.

Lemma staircase_truncation_witness :
  (Z.of_nat (List.length (List.concat (map (included two_nodes) two_nodes))) <= 5000)%Z.
Proof.
  destruct (staircase_truncation None two_nodes) as (_ & _ & H & _).
  - simpl. lia.
  - exact H.
Defined.

End LlmRouteFacts.

(** ** The middleware *)

Module MiddlewareFacts.
Import Js Middleware JsFacts.

Example matcher_skips_api : matcher (lit "/api/graph-status") = false.
Proof. reflexivity. Qed.

Example matcher_skips_favicon : matcher (lit "/favicon.ico") = false.
Proof. reflexivity. Qed.

Example matcher_takes_pages : matcher (lit "/loading/u1") = true.
Proof. reflexivity. Qed.

(** C9. Middleware authentication.  For every request whose path the
    matcher accepts: without a [token] cookie the response is a redirect to
    [/login] unless the path starts with [/login] or [/register]; with a
    [token] cookie on such a path it is a redirect to [/]; in every other
    case the request proceeds.  Hence a matched request that proceeds without
    a [token] cookie is for an auth page. *)
Theorem middleware_auth (request : NextRequest) :
  matcher (pathname request) = true ->
  (has_token request = false -> isAuthPage request = false ->
     middleware request = redirect (lit "/login"))
  /\ (has_token request = true -> isAuthPage request = true ->
     middleware request = redirect (lit "/"))
  /\ (has_token request = false -> isAuthPage request = true ->
     middleware request = next)
  /\ (has_token request = true -> isAuthPage request = false ->
     middleware request = next)
  /\ (middleware request = next -> has_token request = false ->
     isAuthPage request = true).
Proof.
  intros _. unfold middleware.
  destruct (has_token request) eqn:Htok, (isAuthPage request) eqn:Hauth;
    destruct (str_eqb_spec (pathname request) (lit "/")) as [Hroot|Hroot];
    simpl; repeat split; intros; try congruence.
  unfold isAuthPage in Hauth. rewrite Hroot in Hauth. discriminate Hauth.
Qed.

Lemma middleware_auth_witness :
  matcher (pathname graph_page_request) = true
  /\ middleware graph_page_request = redirect (lit "/login").
Proof.
  split; [reflexivity|].
  destruct (middleware_auth graph_page_request) as (H & _).
  - reflexivity.
  - apply H; reflexivity.
Defined.

End MiddlewareFacts.

(** ** The route handlers *)

Module RouteFacts.
Import Js Json Http JsFacts.

Lemma is_str_true (v : jsval) (s : jsstring) :
  is_str v s = true -> v = Some (JStr s).
Proof.
  destruct v as [[| | |s'| |]|]; simpl; try discriminate.
  intros H. destruct (str_eqb_spec s' s); congruence.
Qed.

(** Induction on JSON values that reaches the items of an array. *)
Lemma json_ind_items (P : json -> Prop) :
  P JNull -> (forall b, P (JBool b)) -> (forall z, P (JNum z)) -> (forall s, P (JStr s)) ->
  (forall items, Forall P items -> P (JArr items)) ->
  (forall fields, P (JObj fields)) ->
  forall v, P v.
Proof.
  intros HNull HBool HNum HStr HArr HObj. fix IH 1.
  intros [| b | z | s | items | fields];
    [exact HNull | apply HBool | apply HNum | apply HStr | | apply HObj].
  apply HArr. induction items as [|x l IHl]; constructor; [apply IH | exact IHl].
Qed.

(** Where the string conversion succeeds, its text is [to_string]. *)
Lemma ToString_json_text (v : json) :
  forall s, ToString_json v = Normal s -> to_string_json v = s.
Proof.
  induction v as [| b | z | t | items IH | fields] using json_ind_items; intros s;
    cbn [ToString_json to_string_json].
  - now intros [= <-].
  - destruct b; now intros [= <-].
  - now intros [= <-].
  - now intros [= <-].
  - match goal with
    | |- match ?f items with _ => _ end = _ -> _ => set (elements := f)
    end.
    assert (H : forall texts, elements items = Normal texts ->
              map (fun i => match i with JNull => [] | _ => to_string_json i end) items
              = texts).
    { induction IH as [|i l Hi _ IHl]; intros texts; cbn [elements map].
      - now intros [= <-].
      - fold elements.
        assert (Hhead : forall t, match i with JNull => Normal [] | _ => ToString_json i end
                                  = Normal t ->
                                  match i with JNull => [] | _ => to_string_json i end = t).
        { intros t. destruct i; try apply Hi. now intros [= <-]. }
        destruct (match i with JNull => Normal [] | _ => ToString_json i end) as [t|];
          [|discriminate].
        destruct (elements l) as [ts|]; [|discriminate].
        intros [= <-]. now rewrite (Hhead t eq_refl), (IHl ts eq_refl). }
    destruct (elements items) as [texts|]; [|discriminate].
    intros [= <-]. now rewrite (H texts eq_refl).
  - destruct (assoc (lit "toString") fields); [discriminate | now intros [= <-]].
Qed.

Example ToString_cases :
  ToString (Some (JObj [(lit "toString", JNum 1)])) = Throw
  /\ ToString (Some (JObj [(lit "valueOf", JNum 1)])) = Normal (lit "[object Object]")
  /\ ToString (Some (JArr [JNull; JNum 1; JArr [JStr (lit "a")]])) = Normal (lit ",1,a")
  /\ ToString (Some (JArr [JObj [(lit "toString", JNull)]])) = Throw
  /\ ToString None = Normal (lit "undefined").
Proof. repeat split. Qed.

Lemma ToString_text (v : jsval) (s : jsstring) :
  ToString v = Normal s -> to_string v = s.
Proof.
  destruct v as [j|]; cbn [ToString to_string]; [apply ToString_json_text | now intros [= <-]].
Qed.

Lemma sendable_text (v : jsval) :
  sendable v = true -> ToString v = Normal (to_string v).
Proof.
  unfold sendable. destruct (ToString v) as [s|] eqn:H; [|discriminate].
  intros _. now rewrite (ToString_text _ _ H).
Qed.

Lemma prop_object (body : json) (k : jsstring) :
  body <> JNull -> prop (Some body) k = Normal (opt_prop (Some body) k).
Proof. destruct body; simpl; intros H; solve [reflexivity | now elim H]. Qed.

Lemma truthy_object_field (body : json) (k : jsstring) :
  truthy (opt_prop (Some body) k) = true -> body <> JNull.
Proof. destruct body; simpl; intros H; discriminate. Qed.

(** Unfolding of the handler monad, leaving the values it carries alone. *)
Ltac run_route :=
  cbv beta iota zeta delta
    [run try_catch bind lift ret throw fetch request_json response_json].

End RouteFacts.

(** *** The graph-status route *)

Module GraphStatusFacts.
Import Js Json Http JsFacts RouteFacts GraphStatus.

Lemma POST_unreadable (BACKEND_URL : option jsstring) (be : backend) (request : Request) :
  json_body request = None \/ json_body request = Some JNull ->
  run (POST BACKEND_URL request) be = (Normal fetch_failed, []).
Proof.
  intros [H|H]; unfold POST; run_route; rewrite H; reflexivity.
Qed.

(** C6, as amended.  The route answers 400 with ['UUID is required in
    the request body'], sending nothing to the backend, exactly when the body
    is JSON other than [null] and its [uuid] field is absent or falsy.  For a
    body with a truthy [uuid], when [uuid] and [auth] convert to strings it
    makes one [fetch], a GET of the backend status endpoint for that uuid,
    and answers with the backend's JSON body, under status 200 when the
    backend's response is ok and under the backend's status code when it is
    not.  Its own 500 is answered only when reading the request body throws,
    [uuid] or [auth] cannot be converted to a string (no [fetch] is made
    then), the [fetch] rejects (as it does for a URL or a header it
    refuses), the backend's body is not JSON, or the backend's status is not
    ok and is one that no response with a body can carry. *)
Theorem graph_status_route (BACKEND_URL : option jsstring) (be : backend)
    (request : Request) :
  let result := run (POST BACKEND_URL request) be in
  let uuid_of body := opt_prop (Some body) (lit "uuid") in
  let auth_of body := opt_prop (Some body) (lit "auth") in
  (forall body, json_body request = Some body -> body <> JNull ->
     truthy (uuid_of body) = false -> result = (Normal uuid_required, []))
  /\ (forall body uuid auth, json_body request = Some body ->
     truthy (uuid_of body) = true ->
     ToString (uuid_of body) = Normal uuid ->
     ToString (auth_of body) = Normal auth ->
     result = (Normal (relayed (be [status_request_of BACKEND_URL uuid auth])),
               [status_request_of BACKEND_URL uuid auth]))
  /\ (forall body, json_body request = Some body ->
     truthy (uuid_of body) = true ->
     ToString (uuid_of body) = Throw \/ ToString (auth_of body) = Throw ->
     result = (Normal fetch_failed, []))
  /\ (json_body request = None \/ json_body request = Some JNull ->
     result = (Normal fetch_failed, []))
  /\ (result = (Normal uuid_required, []) ->
     exists body, json_body request = Some body /\ body <> JNull
                  /\ truthy (uuid_of body) = false)
  /\ (relayed Rejected = fetch_failed
      /\ (forall r, parsed r = None -> relayed (Resolved r) = fetch_failed)
      /\ (forall r data, parsed r = Some data -> ok r = true ->
            relayed (Resolved r) = NextResponse_json data (Some 200%Z))
      /\ (forall r data, parsed r = Some data -> ok r = false ->
            valid_status (status r) = true ->
            relayed (Resolved r) = NextResponse_json data (Some (status r)))
      /\ (forall r data, parsed r = Some data -> ok r = false ->
            valid_status (status r) = false ->
            relayed (Resolved r) = fetch_failed)).
Proof.
  intros result uuid_of auth_of.
  assert (Hread : forall body, json_body request = Some body -> body <> JNull ->
    result =
    if truthy (uuid_of body) then
      match ToString (uuid_of body), ToString (auth_of body) with
      | Normal uuid, Normal auth =>
          (Normal (relayed (be [status_request_of BACKEND_URL uuid auth])),
           [status_request_of BACKEND_URL uuid auth])
      | _, _ => (Normal fetch_failed, [])
      end
    else (Normal uuid_required, [])).
  { intros body Hbody Hnull. subst result uuid_of auth_of. cbv beta.
    set (uuid := opt_prop (Some body) (lit "uuid")).
    set (auth := opt_prop (Some body) (lit "auth")).
    unfold POST. run_route.
    rewrite Hbody. rewrite !prop_object by assumption. fold uuid auth. run_route.
    clearbody uuid auth.
    destruct (truthy uuid); simpl; [|reflexivity].
    destruct (ToString uuid) as [u|]; simpl; [|reflexivity].
    destruct (ToString auth) as [a|]; simpl; [|reflexivity].
    unfold relayed, NextResponse_json_at.
    destruct (be [status_request_of BACKEND_URL u a]) as [|r]; [reflexivity|].
    destruct (ok r); simpl; destruct (parsed r); try reflexivity.
    destruct (valid_status (status r)); reflexivity. }
  pose proof (POST_unreadable BACKEND_URL be request) as Hunread. fold result in Hunread.
  split; [|split; [|split; [|split; [|split]]]].
  - intros body Hbody Hnull Hfalsy. now rewrite (Hread body Hbody Hnull), Hfalsy.
  - intros body uuid auth Hbody Htruthy Hu Ha.
    pose proof (truthy_object_field body (lit "uuid") Htruthy) as Hnull.
    rewrite (Hread body Hbody Hnull). subst uuid_of auth_of. cbv beta in *.
    now rewrite Htruthy, Hu, Ha.
  - intros body Hbody Htruthy Hthrow.
    pose proof (truthy_object_field body (lit "uuid") Htruthy) as Hnull.
    rewrite (Hread body Hbody Hnull). subst uuid_of auth_of. cbv beta in *.
    rewrite Htruthy. destruct Hthrow as [Hu|Ha].
    + now rewrite Hu.
    + rewrite Ha. destruct (ToString (opt_prop (Some body) (lit "uuid"))); reflexivity.
  - exact Hunread.
  - intros Hres. destruct (json_body request) as [body|] eqn:Hbody.
    + assert (Hd : body = JNull \/ body <> JNull)
        by (destruct body; [now left | right; discriminate ..]).
      destruct Hd as [->|Hnull].
      * rewrite Hunread in Hres by (now right). discriminate Hres.
      * exists body. split; [reflexivity|]. split; [assumption|].
        destruct (truthy (uuid_of body)) eqn:Ht; [|reflexivity].
        rewrite (Hread body eq_refl Hnull), Ht in Hres.
        destruct (ToString (uuid_of body)); [|discriminate Hres].
        destruct (ToString (auth_of body)); discriminate Hres.
    + rewrite Hunread in Hres by (now left). discriminate Hres.
  - unfold relayed. repeat split.
    + intros r Hp. now rewrite Hp.
    + intros r data Hp Hok. now rewrite Hp, Hok.
    + intros r data Hp Hok Hv. now rewrite Hp, Hok, Hv.
    + intros r data Hp Hok Hv. now rewrite Hp, Hok, Hv.
Qed.

Lemma graph_status_route_witness :
  run (POST None uuid_request) created_backend
  = (Normal (NextResponse_json status_body (Some 200%Z)),
     [status_request None (Some (JStr (lit "u1"))) (Some (JStr (lit "tok")))])
  /\ run (POST None unconvertible_request) created_backend = (Normal fetch_failed, []).
Proof.
  split.
  - destruct (graph_status_route None created_backend uuid_request) as (_ & H & _).
    apply (H (JObj [(lit "uuid", JStr (lit "u1")); (lit "auth", JStr (lit "tok"))])
             (lit "u1") (lit "tok")); reflexivity.
  - destruct (graph_status_route None created_backend unconvertible_request)
      as (_ & _ & H & _).
    apply (H (JObj [(lit "uuid", JObj [(lit "toString", JNum 1)]);
                    (lit "auth", JStr (lit "tok"))])).
    + reflexivity.
    + reflexivity.
    + left. reflexivity.
Defined.

(** C6 as first stated fails: a backend answer that is ok with a status
    other than 200 (here 201, with a JSON body) is relayed under status 200,
    not under the backend's status code. *)
Lemma graph_status_created_counterexample :
  exists r : response,
    created_backend [status_request None (Some (JStr (lit "u1"))) (Some (JStr (lit "tok")))]
      = Resolved r
    /\ parsed r = Some status_body
    /\ fst (run (POST None uuid_request) created_backend)
       = Normal (NextResponse_json status_body (Some 200%Z))
    /\ fst (run (POST None uuid_request) created_backend)
       <> Normal (NextResponse_json status_body (Some (status r))).
Proof.
  exists {| status := 201; parsed := Some status_body |}.
  repeat split. discriminate.
Qed.

End GraphStatusFacts.

(** *** The create-knowledgebase route *)

Module GenerateKnowledgebaseFacts.
Import Js Json Http JsFacts RouteFacts GenerateKnowledgebase.

(** Whatever mode the home page selects, the route behaves the same: the
    mode in the posted body is never read. *)
Lemma POST_ignores_mode (BACKEND_URL : option jsstring) (be : backend)
    (token : jsval) (text mode mode' : jsstring) :
  run (POST BACKEND_URL (handleSubmit_request token text mode)) be
  = run (POST BACKEND_URL (handleSubmit_request token text mode')) be.
Proof.
  unfold POST, handleSubmit_request. run_route. cbn [authorization json_body].
  destruct (lit "Bearer " ++ to_string token) as [|c hdr] eqn:Hhdr; [reflexivity|].
  destruct (be ([] ++ [me_request BACKEND_URL (c :: hdr)])) as [|userResponse];
    [reflexivity|].
  destruct (negb (ok userResponse)); [reflexivity|].
  destruct (parsed userResponse) as [userInfo|]; reflexivity.
Qed.

(** The request forwarded to the orchestrator carries a title and a user
    id, and no other field. *)
Lemma create_request_fields (BACKEND_URL : option jsstring) (token : jsstring)
    (text id : jsval) :
  exists fields,
    body (create_request BACKEND_URL token text id) = JsonBody (JObj fields)
    /\ assoc (lit "mode") fields = None.
Proof.
  eexists; split; [reflexivity|].
  destruct text, id; reflexivity.
Qed.

(** C1, evaluated.  A post from the home page with the query
    ["quantum computing"] and mode ["pioneer"]: the route returns the
    backend's body with the uuid, and the request it forwards to the
    orchestrator holds the query as [title] and the user's id as [user_id],
    and no mode. *)
Theorem createGraph_forwards_no_mode :
  run (POST None pioneer_request) sample_backend
  = (Normal (NextResponse_json (JObj [(lit "uuid", JStr (lit "u-1"))]) None),
     [ me_request None (lit "Bearer tok");
       {| method := lit "POST";
          url := lit "undefined/knowledge-graphs/";
          headers := [(lit "Authorization", lit "Bearer tok");
                      (lit "Content-Type", lit "application/json")];
          body := JsonBody (JObj [(lit "title", JStr (lit "quantum computing"));
                                  (lit "user_id", JNum 7)]) |} ]).
Proof. vm_compute. reflexivity. Qed.

End GenerateKnowledgebaseFacts.

(** *** The auth route: logout *)

Module AuthFacts.
Import Js Json Http JsFacts RouteFacts Auth.

(** C10. Logout is local.  For every post to the auth route whose body
    has the action ['logout'], whatever else the body holds and whatever the
    backend would answer: the response has status 200 and the body
    [{ message: 'Logout successful' }], its cookie operations are the
    deletion of [token] and then of [username] and nothing else, and no
    request is sent to the backend. *)
Theorem logout_is_local (BACKEND_URL NODE_ENV : option jsstring) (be : backend)
    (request : Request) (body : json) :
  json_body request = Some body ->
  is_str (opt_prop (Some body) (lit "action")) (lit "logout") = true ->
  run (POST BACKEND_URL NODE_ENV request) be
  = (Normal {| nr_status := 200;
               nr_body := JObj [(lit "message", JStr (lit "Logout successful"))];
               nr_cookies := [cookie_delete (lit "token"); cookie_delete (lit "username")] |},
     []).
Proof.
  intros Hbody Haction.
  assert (Hnull : body <> JNull) by (intros ->; discriminate Haction).
  apply is_str_true in Haction.
  unfold POST. run_route. rewrite Hbody.
  rewrite !prop_object by assumption. rewrite Haction. reflexivity.
Qed.

Lemma logout_is_local_witness :
  run (POST None None logout_request) (fun _ => Rejected)
  = (Normal {| nr_status := 200;
               nr_body := JObj [(lit "message", JStr (lit "Logout successful"))];
               nr_cookies := [cookie_delete (lit "token"); cookie_delete (lit "username")] |},
     []).
Proof.
  apply (logout_is_local None None (fun _ => Rejected) logout_request
           (JObj [(lit "username", JStr (lit "ada")); (lit "action", JStr (lit "logout"))])).
  - reflexivity.
  - reflexivity.
Defined.

End AuthFacts.

(** ** Lines of a stream *)

Module LineFacts.
Import Js JsFacts.

Lemma unlines_app (sep : N) (ls ls' : list jsstring) :
  unlines sep (ls ++ ls') = unlines sep ls ++ unlines sep ls'.
Proof. apply flat_map_app. Qed.

Lemma split_fields_no_sep (sep : N) (s : jsstring) :
  Forall (fun f => ~ In sep f) (split sep s).
Proof.
  induction s as [|c s IH]; simpl.
  - constructor; [tauto | constructor].
  - destruct (N.eqb_spec c sep) as [->|Hc].
    + constructor; [tauto | assumption].
    + destruct (split sep s) as [|f fs]; [repeat constructor; simpl; intuition|].
      inversion IH; subst. constructor; [|assumption].
      simpl. intuition.
Qed.

Lemma split_unlines (sep : N) (ls : list jsstring) (b : jsstring) :
  Forall (fun f => ~ In sep f) ls ->
  ~ In sep b ->
  split sep (unlines sep ls ++ b) = ls ++ [b].
Proof.
  intros Hls Hb. induction Hls as [|l ls Hl Hls IH]; simpl.
  - now apply split_no_sep.
  - rewrite <- !app_assoc. simpl. rewrite split_app_sep by assumption.
    now rewrite IH.
Qed.

Lemma unlines_cons (sep : N) (l : jsstring) (ls : list jsstring) :
  unlines sep (l :: ls) = l ++ sep :: unlines sep ls.
Proof. unfold unlines. simpl. now rewrite <- app_assoc. Qed.

(** Every text is its complete lines followed by its last, open line. *)
Lemma unlines_split (sep : N) (s : jsstring) :
  unlines sep (removelast (split sep s)) ++ last (split sep s) [] = s.
Proof.
  induction s as [|c s IH]; [reflexivity|]. simpl split.
  pose proof (split_nonempty sep s) as Hne.
  destruct (N.eqb_spec c sep) as [->|Hc].
  - destruct (split sep s) as [|f fs] eqn:Hs; [congruence|].
    change (removelast ([] :: f :: fs)) with ([] :: removelast (f :: fs)).
    change (last ([] :: f :: fs) []) with (last (f :: fs) ([] : jsstring)).
    rewrite unlines_cons. cbn [app]. now rewrite IH.
  - destruct (split sep s) as [|f fs] eqn:Hs; [congruence|].
    destruct fs as [|g fs].
    + simpl in *. now rewrite <- IH.
    + change (removelast ((c :: f) :: g :: fs)) with ((c :: f) :: removelast (g :: fs)).
      change (last ((c :: f) :: g :: fs) []) with (last (g :: fs) ([] : jsstring)).
      change (removelast (f :: g :: fs)) with (f :: removelast (g :: fs)) in IH.
      change (last (f :: g :: fs) []) with (last (g :: fs) ([] : jsstring)) in IH.
      rewrite unlines_cons in *. cbn [app]. now rewrite IH.
Qed.

Lemma last_split_no_sep (sep : N) (s : jsstring) :
  ~ In sep (last (split sep s) []).
Proof.
  pose proof (split_fields_no_sep sep s) as Hall.
  pose proof (split_nonempty sep s) as Hne.
  rewrite Forall_forall in Hall. apply Hall.
  destruct (exists_last Hne) as (ls & b & Heq). rewrite Heq.
  rewrite last_last. apply in_or_app. right. now left.
Qed.

Lemma removelast_split_no_sep (sep : N) (s : jsstring) :
  Forall (fun f => ~ In sep f) (removelast (split sep s)).
Proof.
  pose proof (split_fields_no_sep sep s) as Hall.
  pose proof (split_nonempty sep s) as Hne.
  destruct (exists_last Hne) as (ls & b & Heq). rewrite Heq in *.
  rewrite removelast_last. apply Forall_app in Hall. tauto.
Qed.

(** Splitting a text that arrives in two pieces: the complete lines of the
    first piece, then the lines of its open line continued by the second. *)
Lemma split_two_pieces (sep : N) (x y : jsstring) :
  let b := last (split sep x) [] in
  removelast (split sep (x ++ y))
    = removelast (split sep x) ++ removelast (split sep (b ++ y))
  /\ last (split sep (x ++ y)) [] = last (split sep (b ++ y)) [].
Proof.
  intros b.
  assert (Hxy : x ++ y
                = unlines sep (removelast (split sep x) ++ removelast (split sep (b ++ y)))
                  ++ last (split sep (b ++ y)) []).
  { rewrite unlines_app, <- app_assoc, (unlines_split sep (b ++ y)).
    subst b. now rewrite app_assoc, unlines_split. }
  rewrite Hxy. clear Hxy.
  rewrite split_unlines.
  - rewrite removelast_last, last_last. split; reflexivity.
  - apply Forall_app; split; apply removelast_split_no_sep.
  - apply last_split_no_sep.
Qed.

End LineFacts.

(** ** The agent-thought stream *)

Module AgentThoughtsFacts.
Import Js Json JsFacts LineFacts AgentThoughts.

Section Reader.
Variable JSON_parse : jsstring -> option json.

Lemma process_line_shown (thoughts : list jsstring) (line : jsstring) :
  process_line JSON_parse thoughts line = thoughts ++ shown JSON_parse line.
Proof.
  unfold process_line, shown.
  destruct (str_truthy (trim line)); [|now rewrite app_nil_r].
  destruct (JSON_parse line) as [data|]; [|now rewrite app_nil_r].
  unfold formattedMessage.
  destruct data; cbn [prop opt_prop]; try (now rewrite app_nil_r);
    destruct (ToString _); try reflexivity; now rewrite app_nil_r.
Qed.

Lemma process_lines_shown (lines : list jsstring) (thoughts : list jsstring) :
  fold_left (process_line JSON_parse) lines thoughts
  = thoughts ++ flat_map (shown JSON_parse) lines.
Proof.
  revert thoughts. induction lines as [|l lines IH]; intros thoughts; simpl.
  - now rewrite app_nil_r.
  - rewrite IH, process_line_shown. now rewrite <- app_assoc.
Qed.

(** The loop with its buffer shows what the whole text shows. *)
Lemma read_loop_lines (chunks : list jsstring) (e : ending) (buffer : jsstring)
    (thoughts : list jsstring) :
  ~ In (cu "010") buffer ->
  read_loop JSON_parse chunks e buffer thoughts
  = (match e with Done => Normal tt | ReadFails _ => Throw end,
     thoughts ++ flat_map (shown JSON_parse) (complete_lines (buffer ++ List.concat chunks))).
Proof.
  revert buffer thoughts.
  induction chunks as [|value rest IH]; intros buffer thoughts Hbuf.
  - simpl. unfold complete_lines. rewrite app_nil_r.
    rewrite split_no_sep by assumption. simpl. rewrite app_nil_r.
    destruct e; reflexivity.
  - simpl read_loop. rewrite IH by apply last_split_no_sep.
    rewrite process_lines_shown, <- app_assoc, <- flat_map_app.
    unfold complete_lines.
    change (List.concat (value :: rest)) with (value ++ List.concat rest).
    rewrite (app_assoc buffer value).
    destruct (split_two_pieces (cu "010") (buffer ++ value) (List.concat rest)) as [Hl _].
    cbv zeta in Hl. rewrite Hl. reflexivity.
Qed.

Lemma prefix_of_other (type : jsval) :
  is_str type (lit "thought") = false ->
  is_str type (lit "action") = false ->
  is_str type (lit "observation") = false ->
  is_str type (lit "error") = false ->
  prefix_of type = [].
Proof. intros H1 H2 H3 H4. unfold prefix_of. now rewrite H1, H2, H3, H4. Qed.

(** C7, as amended.  For a submitted prompt and any stream of chunks:
    the messages displayed are, in stream order, one message for each
    complete (newline-terminated) non-blank line that parses as JSON to a
    value other than [null] whose [content] converts to a string (prefixed
    by the thinking face for type [thought], the magnifying glass for
    [action], the memo for [observation], the cross mark for [error], and
    without prefix for any other type), and nothing for the other lines
    (blank, not JSON, [null], or with a [content] that has no string
    conversion), which do not stop the reading; a read error adds one error
    message at the end; and the streaming flag is cleared when the stream
    has ended. *)
Theorem stream_consumption (prompt : jsstring) (st : state)
    (chunks : list jsstring) (e : ending) :
  str_truthy (trim prompt) = true ->
  isStreaming st = false ->
  let st' := handleSubmit JSON_parse prompt st (Stream chunks e) in
  thoughts st'
    = flat_map (shown JSON_parse) (complete_lines (List.concat chunks))
      ++ match e with Done => [] | ReadFails error => [error_message error] end
  /\ isStreaming st' = false
  /\ (forall line data text,
        str_truthy (trim line) = true ->
        JSON_parse line = Some data -> data <> JNull ->
        ToString (opt_prop (Some data) (lit "content")) = Normal text ->
        shown JSON_parse line
        = [prefix_of (opt_prop (Some data) (lit "type")) ++ text ++ nl])
  /\ (forall line,
        str_truthy (trim line) = false
        \/ JSON_parse line = None
        \/ JSON_parse line = Some JNull
        \/ (exists data, JSON_parse line = Some data
                         /\ ToString (opt_prop (Some data) (lit "content")) = Throw) ->
        shown JSON_parse line = [])
  /\ prefix_of (Some (JStr (lit "thought"))) = thought_prefix
  /\ prefix_of (Some (JStr (lit "action"))) = action_prefix
  /\ prefix_of (Some (JStr (lit "observation"))) = observation_prefix
  /\ prefix_of (Some (JStr (lit "error"))) = error_prefix
  /\ (forall type,
        is_str type (lit "thought") = false ->
        is_str type (lit "action") = false ->
        is_str type (lit "observation") = false ->
        is_str type (lit "error") = false ->
        prefix_of type = []).
Proof.
  intros Hprompt Hidle st'.
  assert (Hst : st' =
    {| thoughts := flat_map (shown JSON_parse) (complete_lines (List.concat chunks))
                   ++ match e with Done => [] | ReadFails error => [error_message error] end;
       isStreaming := false |}).
  { subst st'. unfold handleSubmit. rewrite Hprompt, Hidle. simpl negb. cbv iota.
    simpl orb. cbv iota.
    rewrite read_loop_lines by (simpl; tauto). simpl app.
    destruct e; [now rewrite app_nil_r | reflexivity]. }
  rewrite Hst. cbn [thoughts isStreaming].
  split; [reflexivity|]. split; [reflexivity|]. split; [|split].
  - intros line data text Hline Hparse Hnull Htext. unfold shown.
    rewrite Hline, Hparse, Htext. destruct data; try reflexivity. now elim Hnull.
  - intros line H. unfold shown.
    destruct (str_truthy (trim line)); [|reflexivity].
    destruct H as [H|[H|[H|(data & H & Htext)]]]; try discriminate H.
    + now rewrite H.
    + now rewrite H.
    + rewrite H, Htext. now destruct data.
  - repeat split; try reflexivity. apply prefix_of_other.
Qed.

End Reader.

Lemma stream_consumption_witness :
  thoughts (handleSubmit parse_literal (lit "why") idle (Stream null_stream Done))
    = [lit "undefined" ++ nl]
  /\ isStreaming (handleSubmit parse_literal (lit "why") idle (Stream null_stream Done))
     = false.
Proof.
  destruct (stream_consumption parse_literal (lit "why") idle null_stream Done)
    as (H1 & H2 & _).
  - reflexivity.
  - reflexivity.
  - split; [rewrite H1; reflexivity | exact H2].
Defined.

(** C7 as first stated fails on the JSON text [null]: the line is complete,
    not blank, and parses as JSON, yet it adds no message, because reading
    [data.type] of [null] throws inside the inner [try]. *)
Lemma null_line_counterexample :
  complete_lines (lit "null" ++ nl) = [lit "null"]
  /\ str_truthy (trim (lit "null")) = true
  /\ parse_literal (lit "null") = Some JNull
  /\ thoughts (handleSubmit parse_literal (lit "why") idle (Stream [lit "null" ++ nl] Done))
     = [].
Proof. repeat split. Qed.

End AgentThoughtsFacts.

(** ** The citation renderer *)

Module DocRendererFacts.
Import Js Json JsFacts DocRenderer.

(** *** The pattern *)

Lemma span_digits_sound (s ds rest : jsstring) :
  span_digits s = (ds, rest) -> s = ds ++ rest /\ forallb is_digit ds = true.
Proof.
  revert ds rest. induction s as [|c s IH]; intros ds rest; simpl.
  - intros [= <- <-]. auto.
  - destruct (is_digit c) eqn:Hc.
    + destruct (span_digits s) as [ds' rest'].
      intros [= <- <-]. destruct (IH _ _ eq_refl) as [-> Hds].
      simpl. rewrite Hc, Hds. auto.
    + intros [= <- <-]. auto.
Qed.

Lemma span_digits_app (ds : jsstring) (c : N) (x : jsstring) :
  forallb is_digit ds = true ->
  is_digit c = false ->
  span_digits (ds ++ c :: x) = (ds, c :: x).
Proof.
  intros Hds Hc. induction ds as [|d ds IH]; simpl.
  - now rewrite Hc.
  - simpl in Hds. apply andb_prop in Hds as [Hd Hds].
    rewrite Hd, IH by assumption. reflexivity.
Qed.

Lemma match_marker_marker (ds rest : jsstring) :
  ds <> [] ->
  forallb is_digit ds = true ->
  match_marker (marker ds ++ rest) = Some (ds, rest).
Proof.
  intros Hne Hds. unfold marker. rewrite <- !app_assoc.
  change (lit "[S" ++ ds ++ lit "]" ++ rest) with (cu "[" :: cu "S" :: ds ++ cu "]" :: rest).
  unfold match_marker. rewrite !N.eqb_refl. cbn [andb].
  rewrite span_digits_app by (assumption || reflexivity).
  destruct ds; [congruence|]. now rewrite N.eqb_refl.
Qed.

Lemma match_marker_sound (s ds rest : jsstring) :
  match_marker s = Some (ds, rest) ->
  s = marker ds ++ rest /\ ds <> [] /\ forallb is_digit ds = true.
Proof.
  unfold match_marker. destruct s as [|c0 [|c1 s1]]; try discriminate.
  destruct (N.eqb_spec c0 (cu "[")) as [->|]; [|discriminate].
  destruct (N.eqb_spec c1 (cu "S")) as [->|]; [|discriminate].
  cbn [andb]. destruct (span_digits s1) as [ds' s2] eqn:Hspan.
  apply span_digits_sound in Hspan as [-> Hds].
  destruct ds' as [|d ds']; [discriminate|].
  destruct s2 as [|c2 rest']; [discriminate|].
  destruct (N.eqb_spec c2 (cu "]")) as [->|]; [|discriminate].
  intros [= <- <-]. repeat split; [|discriminate|assumption].
  unfold marker. rewrite <- !app_assoc. reflexivity.
Qed.

Lemma match_marker_shorter (s ds rest : jsstring) :
  match_marker s = Some (ds, rest) -> (List.length rest < List.length s)%nat.
Proof.
  intros H. apply match_marker_sound in H as (-> & _ & _).
  unfold marker. rewrite !length_app. simpl. lia.
Qed.

(** A match is not disturbed by what follows it. *)
Lemma match_marker_app (p x ds r : jsstring) :
  match_marker p = Some (ds, r) -> match_marker (p ++ x) = Some (ds, r ++ x).
Proof.
  intros H. apply match_marker_sound in H as (-> & Hne & Hds).
  rewrite <- app_assoc. now apply match_marker_marker.
Qed.

(** No character of a marker after its first is an opening bracket. *)
Lemma marker_inner_bracket (ds p l : jsstring) :
  forallb is_digit ds = true ->
  p <> [] ->
  marker ds = p ++ cu "[" :: l -> False.
Proof.
  intros Hds Hp Heq. destruct p as [|c0 p]; [congruence|].
  unfold marker in Heq. change (lit "[S" ++ ds ++ lit "]") with (cu "[" :: cu "S" :: ds ++ [cu "]"]) in Heq.
  injection Heq as _ Heq.
  assert (Hin : In 91%N (83%N :: ds ++ [93%N])).
  { rewrite Heq. apply in_or_app. right. now left. }
  destruct Hin as [Hin|Hin]; [discriminate Hin|].
  apply in_app_or in Hin as [Hin|[Hin|[]]]; [|discriminate Hin].
  rewrite forallb_forall in Hds. apply Hds in Hin. discriminate Hin.
Qed.

(** A match that starts before an opening bracket ends before it. *)
Lemma match_marker_app_inv (p x ds r : jsstring) :
  p <> [] ->
  match_marker (p ++ cu "[" :: x) = Some (ds, r) ->
  exists r', match_marker p = Some (ds, r') /\ r = r' ++ cu "[" :: x.
Proof.
  intros Hp H. apply match_marker_sound in H as (Heq & Hne & Hds).
  apply app_eq_app in Heq as [l [[Hpl Hr]|[Hm Hx]]].
  - exists l. subst p. split; [now apply match_marker_marker | assumption].
  - destruct l as [|c l].
    + rewrite app_nil_r in Hm. simpl in Hx. exists []. subst p r.
      split; [|reflexivity].
      rewrite <- (app_nil_r (marker ds)). now apply match_marker_marker.
    + injection Hx as <- _. exfalso.
      now apply (marker_inner_bracket ds p l).
Qed.

(** *** The scan *)

#[local] Arguments match_marker : simpl never.

Section Renderer.
Variable renderBadge : Z -> jsval -> jsval -> completion jsstring.
Variable renderMarkdown : jsstring -> jsstring.
Variable sanitize : jsstring -> jsstring.
Variable chunks : list json.

Lemma emit_assoc (a b c : completion jsstring * list Z) :
  emit a (emit b c) = emit (emit a b) c.
Proof.
  destruct a as [[x|] ra], b as [[y|] rb], c as [[z|] rc]; unfold emit; cbn [fst snd];
    rewrite ?app_assoc; reflexivity.
Qed.

Lemma emit_nil_l (a : completion jsstring * list Z) : emit (Normal [], []) a = a.
Proof. destruct a as [[x|] ra]; reflexivity. Qed.

(** Enough fuel: any amount from [length s] on gives the same result. *)
Lemma replace_from_fuel (n : nat) :
  forall (s : jsstring) (f f' : nat),
    (List.length s <= n)%nat -> (n <= f)%nat -> (n <= f')%nat ->
    replace_from renderBadge chunks f s = replace_from renderBadge chunks f' s.
Proof.
  induction n as [|n IH]; intros s f f' Hs Hf Hf'.
  - destruct s; [|simpl in Hs; lia]. destruct f, f'; reflexivity.
  - destruct s as [|c s']; [destruct f, f'; reflexivity|].
    destruct f as [|f]; [lia|]. destruct f' as [|f']; [lia|].
    simpl replace_from.
    destruct (match_marker (c :: s')) as [[ds rest]|] eqn:Hm.
    + apply match_marker_shorter in Hm. simpl in Hm, Hs.
      rewrite (IH rest f f') by lia. reflexivity.
    + simpl in Hs. rewrite (IH s' f f') by lia. reflexivity.
Qed.

Lemma replace_markers_nil : replace_markers renderBadge chunks [] = (Normal [], []).
Proof. reflexivity. Qed.

Lemma replace_markers_match (s ds rest : jsstring) :
  match_marker s = Some (ds, rest) ->
  replace_markers renderBadge chunks s
  = emit (replacer renderBadge chunks ds) (replace_markers renderBadge chunks rest).
Proof.
  intros Hm. pose proof (match_marker_shorter _ _ _ Hm) as Hlen.
  unfold replace_markers.
  destruct s as [|c s']; [discriminate Hm|].
  simpl List.length. simpl replace_from. rewrite Hm.
  simpl in Hlen.
  rewrite (replace_from_fuel (List.length rest) rest (List.length s') (List.length rest))
    by lia.
  reflexivity.
Qed.

Lemma replace_markers_copy (c : N) (s : jsstring) :
  match_marker (c :: s) = None ->
  replace_markers renderBadge chunks (c :: s)
  = emit (Normal [c], []) (replace_markers renderBadge chunks s).
Proof.
  intros Hm. unfold replace_markers.
  simpl List.length. simpl replace_from. now rewrite Hm.
Qed.

(** The scan of a text that continues with an opening bracket is the scan
    of the text followed by the scan of the continuation: no match spans
    the bracket. *)
Lemma replace_markers_app_bracket (n : nat) :
  forall p x : jsstring,
    (List.length p <= n)%nat ->
    replace_markers renderBadge chunks (p ++ cu "[" :: x)
    = emit (replace_markers renderBadge chunks p) (replace_markers renderBadge chunks (cu "[" :: x)).
Proof.
  induction n as [|n IH]; intros p x Hp.
  - destruct p; [|simpl in Hp; lia]. rewrite replace_markers_nil.
    now rewrite emit_nil_l.
  - destruct p as [|c p']; [apply (IH [] x); simpl; lia|].
    destruct (match_marker (c :: p')) as [[ds r]|] eqn:Hm.
    + rewrite (replace_markers_match _ _ _ (match_marker_app _ (cu "[" :: x) _ _ Hm)).
      rewrite (replace_markers_match _ _ _ Hm).
      apply match_marker_shorter in Hm. simpl in Hm, Hp.
      rewrite IH by lia. apply emit_assoc.
    + assert (Hm' : match_marker ((c :: p') ++ cu "[" :: x) = None).
      { destruct (match_marker ((c :: p') ++ cu "[" :: x)) as [[ds r]|] eqn:Hm'; [|reflexivity].
        apply match_marker_app_inv in Hm' as (r' & Hm' & _); [congruence | discriminate]. }
      change ((c :: p') ++ cu "[" :: x) with (c :: (p' ++ cu "[" :: x)) in *.
      rewrite (replace_markers_copy _ _ Hm'), (replace_markers_copy _ _ Hm).
      simpl in Hp. rewrite IH by lia. apply emit_assoc.
Qed.

Lemma replacer_text (ds : jsstring) :
  fst (replacer renderBadge chunks ds) = replacement renderBadge chunks ds.
Proof.
  unfold replacer, replacement, cited, badge_of, chunk_at.
  destruct ((0 <=? parseInt_digits ds - 1)%Z
            && (parseInt_digits ds - 1 <? Z.of_nat (List.length chunks))%Z);
    [|reflexivity].
  cbn [andb].
  destruct (truthy _); reflexivity.
Qed.

Lemma replacer_reads (ds : jsstring) :
  Forall (in_bounds chunks) (snd (replacer renderBadge chunks ds)).
Proof.
  unfold replacer.
  destruct ((0 <=? parseInt_digits ds - 1)%Z
            && (parseInt_digits ds - 1 <? Z.of_nat (List.length chunks))%Z) eqn:Hb;
    [|constructor].
  apply andb_prop in Hb as [H0 H1].
  apply Z.leb_le in H0. apply Z.ltb_lt in H1.
  assert (in_bounds chunks (parseInt_digits ds - 1)) by (split; assumption).
  destruct (truthy _); simpl; repeat constructor; assumption.
Qed.

Lemma emit_reads (P : Z -> Prop) (a b : completion jsstring * list Z) :
  Forall P (snd a) -> Forall P (snd b) -> Forall P (snd (emit a b)).
Proof.
  intros Ha Hb. unfold emit. destruct (fst a); cbn [snd]; [|assumption].
  apply Forall_app; split; assumption.
Qed.

Lemma replace_from_reads (fuel : nat) (s : jsstring) :
  Forall (in_bounds chunks) (snd (replace_from renderBadge chunks fuel s)).
Proof.
  revert s. induction fuel as [|fuel IH]; intros s; simpl; [constructor|].
  destruct s as [|c s']; [constructor|].
  destruct (match_marker (c :: s')) as [[ds rest]|].
  - apply emit_reads; [apply replacer_reads | apply IH].
  - apply emit_reads; [constructor | apply IH].
Qed.

Lemma marker_free_verbatim (s : jsstring) :
  marker_free s -> replace_markers renderBadge chunks s = (Normal s, []).
Proof.
  induction s as [|c s IH]; intros Hfree; [reflexivity|].
  rewrite replace_markers_copy by (apply (Hfree []); reflexivity).
  rewrite IH; [reflexivity|].
  intros pre t Heq. apply (Hfree (c :: pre)). now rewrite Heq.
Qed.

Lemma processedHtml_marker (pre ds post : jsstring) :
  ds <> [] ->
  forallb is_digit ds = true ->
  processedHtml renderBadge chunks (pre ++ marker ds ++ post)
  = sequence3 (processedHtml renderBadge chunks pre)
      (replacement renderBadge chunks ds)
      (processedHtml renderBadge chunks post).
Proof.
  intros Hne Hds. unfold processedHtml.
  pose proof (match_marker_marker ds post Hne Hds) as Hm.
  assert (Hshape : marker ds ++ post = cu "[" :: cu "S" :: ds ++ lit "]" ++ post).
  { unfold marker. now rewrite <- !app_assoc. }
  rewrite Hshape in *.
  rewrite (replace_markers_app_bracket (List.length pre) pre _ (le_n _)).
  rewrite (replace_markers_match _ _ _ Hm).
  rewrite <- replacer_text.
  destruct (replace_markers renderBadge chunks pre) as [[a|] ra],
           (replacer renderBadge chunks ds) as [[b|] rb],
           (replace_markers renderBadge chunks post) as [[c|] rc]; reflexivity.
Qed.

(** The replacement throws only where a badge does. *)
Lemma replace_from_completes (fuel : nat) (s : jsstring) :
  (forall index title url, renderBadge index title url <> Throw) ->
  fst (replace_from renderBadge chunks fuel s) <> Throw.
Proof.
  intros Hbadge. revert s. induction fuel as [|fuel IH]; intros s; simpl; [discriminate|].
  destruct s as [|c s']; [discriminate|].
  assert (Hemit : forall a b : completion jsstring * list Z,
            fst a <> Throw -> fst b <> Throw -> fst (emit a b) <> Throw).
  { intros [[x|] ra] [[y|] rb]; unfold emit; cbn [fst snd]; intros Ha Hb;
      solve [discriminate | now elim Ha | now elim Hb]. }
  destruct (match_marker (c :: s')) as [[ds rest]|].
  - apply Hemit; [|apply IH]. unfold replacer.
    destruct (_ && _); [|discriminate].
    destruct (truthy _); [apply Hbadge | discriminate].
  - apply Hemit; [discriminate | apply IH].
Qed.

(** C4, as amended.  Citation markers are bounds-checked.  For every
    content string and every chunk list, [renderContent] gives the sanitized
    result of replacing the markers in the HTML that the Markdown rendering
    of the content produces: every marker [[Sk]] in that HTML, wherever it
    stands, is replaced by the badge built from the title and url of the
    metadata of chunk [k - 1] when [0 <= k - 1 < chunks.length] and that
    chunk's [content.metadata] is truthy, and is copied verbatim otherwise
    (so also when the index is out of range, and when the metadata is there
    but falsy); an HTML in which the pattern matches nowhere is passed on as
    it is; every read of [chunks] is at an index inside its bounds; and the
    rendering completes unless the rendering of a badge throws. *)
Theorem citations_bounds_checked :
  (forall part pre ds post : jsstring,
     ds <> [] ->
     forallb is_digit ds = true ->
     renderMarkdown part = pre ++ marker ds ++ post ->
     renderContent renderBadge renderMarkdown sanitize chunks part
     = match sequence3 (processedHtml renderBadge chunks pre)
               (if cited chunks ds then badge_of renderBadge chunks ds
                else Normal (marker ds))
               (processedHtml renderBadge chunks post) with
       | Normal html => Normal (sanitize html)
       | Throw => Throw
       end)
  /\ (forall ds : jsstring,
        cited chunks ds = true
        <-> in_bounds chunks (parseInt_digits ds - 1)
            /\ truthy (opt_prop (opt_prop (nth_error chunks (Z.to_nat (parseInt_digits ds - 1)))
                                   (lit "content")) (lit "metadata")) = true)
  /\ (forall part : jsstring,
        marker_free (renderMarkdown part) ->
        renderContent renderBadge renderMarkdown sanitize chunks part
        = Normal (sanitize (renderMarkdown part)))
  /\ (forall part : jsstring,
        Forall (in_bounds chunks) (chunk_reads renderBadge chunks (renderMarkdown part)))
  /\ ((forall index title url, renderBadge index title url <> Throw) ->
      forall part : jsstring,
        exists html, renderContent renderBadge renderMarkdown sanitize chunks part
                     = Normal html).
Proof.
  split; [|split; [|split; [|split]]].
  - intros part pre ds post Hne Hds Hhtml. unfold renderContent.
    now rewrite Hhtml, processedHtml_marker.
  - intros ds. unfold cited, in_bounds. cbv zeta.
    rewrite !andb_true_iff, Z.leb_le, Z.ltb_lt. tauto.
  - intros part Hfree. unfold renderContent, processedHtml.
    now rewrite marker_free_verbatim.
  - intros part. apply replace_from_reads.
  - intros Hbadge part. unfold renderContent, processedHtml, replace_markers.
    pose proof (replace_from_completes (List.length (renderMarkdown part))
                  (renderMarkdown part) Hbadge) as H.
    destruct (fst (replace_from renderBadge chunks _ _)) as [html|]; [eauto | now elim H].
Qed.

End Renderer.

Lemma citations_bounds_checked_witness :
  renderContent plainBadge (fun s => s) (fun s => s) one_chunk
    (lit "see " ++ marker (lit "1") ++ lit " and [S2]")
  = Normal (lit "see <a href=http://a>Source 1</a> and [S2]").
Proof.
  destruct (citations_bounds_checked plainBadge (fun s => s) (fun s => s) one_chunk)
    as (H & _).
  rewrite (H _ (lit "see ") (lit "1") (lit " and [S2]")).
  - reflexivity.
  - discriminate.
  - reflexivity.
  - reflexivity.
Defined.

(** C4 as first stated fails: a chunk inside the bounds that has a
    [content.metadata] field, here the empty string, does not get a badge;
    its marker is left as it is, because the test is on the truthiness of the
    field. *)
Lemma falsy_metadata_counterexample :
  in_bounds empty_metadata_chunk (parseInt_digits (lit "1") - 1)
  /\ opt_prop (opt_prop (nth_error empty_metadata_chunk 0) (lit "content")) (lit "metadata")
     = Some (JStr [])
  /\ renderContent plainBadge (fun s => s) (fun s => s) empty_metadata_chunk (lit "[S1]")
     = Normal (lit "[S1]")
  /\ renderContent plainBadge (fun s => s) (fun s => s) empty_metadata_chunk (lit "[S1]")
     <> plainBadge 0 None None.
Proof.
  split; [split; vm_compute; [discriminate | reflexivity]|].
  split; [reflexivity|]. split; [reflexivity | discriminate].
Qed.

End DocRendererFacts.

(** ** The orchestrator's status writes *)

Module OrchestratorFacts.
Import Js Orchestrator.

Lemma before_trans (a b c : Status) : before a b -> before b c -> before a c.
Proof. unfold before. lia. Qed.

Lemma transition_advances (a b : Status) : transition a b = true -> before a b.
Proof. unfold before. destruct a, b; simpl; intros H; try discriminate; lia. Qed.

Lemma terminal_stuck (a b : Status) : terminal a = true -> transition a b = false.
Proof. destruct a, b; simpl; congruence. Qed.

Lemma chained_sorted (prev : Status) (rest : list Status) :
  chained prev rest = true -> Sorted before (prev :: rest).
Proof.
  revert prev. induction rest as [|s rest IH]; intros prev H.
  - repeat constructor.
  - simpl in H. apply andb_prop in H as [Ht Hc].
    constructor; [now apply IH|]. constructor. now apply transition_advances.
Qed.

Lemma chained_terminal_last (prev : Status) (rest : list Status) (s : Status) :
  chained prev rest = true ->
  In s (prev :: rest) ->
  terminal s = true ->
  last (prev :: rest) started = s.
Proof.
  revert prev. induction rest as [|r rest IH]; intros prev Hc Hin Hterm.
  - destruct Hin as [->|[]]. reflexivity.
  - simpl in Hc. apply andb_prop in Hc as [Ht Hc].
    destruct Hin as [->|Hin].
    + rewrite terminal_stuck in Ht by assumption. discriminate.
    + change (last (prev :: r :: rest) started) with (last (r :: rest) started).
      now apply IH.
Qed.

Lemma sorted_followed_by (a b : Status -> bool) (ws : list Status) :
  StronglySorted before ws ->
  followed_by a b ws = true ->
  exists x y, a x = true /\ b y = true /\ before x y.
Proof.
  induction 1 as [|w ws Hs IH Hall]; simpl; [discriminate|].
  intros H. apply orb_prop in H as [H|H]; [|now apply IH].
  apply andb_prop in H as [Ha Hb].
  apply existsb_exists in Hb as (y & Hy & Hb).
  rewrite Forall_forall in Hall. exists w, y. auto.
Qed.

(** Every run of the orchestrator function is a run of the state machine. *)
Lemma orchestrate_writes_run (plan : option (list jsstring))
    (retrieved synthesized : jsstring -> bool) :
  writes_of_run (orchestrate plan retrieved synthesized) = true.
Proof.
  unfold orchestrate. destruct plan as [topics|]; [|reflexivity].
  destruct (filter retrieved topics) as [|t found]; [reflexivity|].
  destruct (filter synthesized (t :: found)); reflexivity.
Qed.

(** C5. Status monotonicity.  The statuses written for one graph, being a
    run of the state machine from [started], are strictly ordered along
    [started], [topics_found], [search_results_found], [articles_generated],
    [done], with [failed] after whichever status it was reached from: every
    earlier write is strictly before every later one, so no status is ever
    regressed or repeated; in particular [done] is never followed by
    [articles_generated]; and a terminal status is the last write. *)
Theorem status_monotonic (ws : list Status) :
  writes_of_run ws = true ->
  StronglySorted before ws
  /\ followed_by is_done is_articles_generated ws = false
  /\ (forall s, In s ws -> terminal s = true -> last ws started = s).
Proof.
  intros Hrun. destruct ws as [|w rest]; [discriminate|].
  destruct w; try discriminate. simpl in Hrun.
  assert (Hsorted : StronglySorted before (started :: rest)).
  { apply Sorted_StronglySorted; [exact before_trans | now apply chained_sorted]. }
  split; [exact Hsorted|]. split.
  - destruct (followed_by is_done is_articles_generated (started :: rest)) eqn:Hf;
      [|reflexivity].
    apply (sorted_followed_by _ _ _ Hsorted) in Hf as (x & y & Hx & Hy & Hxy).
    destruct x; try discriminate. destruct y; try discriminate.
    unfold before in Hxy. simpl in Hxy. lia.
  - intros s Hin Hterm. now apply chained_terminal_last.
Qed.

Lemma status_monotonic_witness :
  writes_of_run full_run = true
  /\ StronglySorted before full_run
  /\ followed_by is_done is_articles_generated full_run = false.
Proof.
  split; [reflexivity|].
  destruct (status_monotonic full_run) as (H1 & H2 & _).
  - reflexivity.
  - split; assumption.
Defined.

End OrchestratorFacts.

(** *** The auth route: login, register and invalid actions *)

Module AuthOutcomesFacts.
Import Js Json Http JsFacts RouteFacts Auth AuthOutcomes.

Lemma cookie_value_truthy (value : jsval) :
  truthy value = true -> cookie_value value = to_string value.
Proof. destruct value as [[]|]; try reflexivity; discriminate. Qed.

Lemma is_str_object (body : json) (k s : jsstring) :
  is_str (opt_prop (Some body) k) s = true -> body <> JNull.
Proof. destruct body; simpl; intros H; discriminate. Qed.

Lemma is_str_other (v : jsval) (s s' : jsstring) :
  is_str v s = true -> str_eqb s s' = false -> is_str v s' = false.
Proof.
  intros H Hne. apply is_str_true in H. subst v. exact Hne.
Qed.

Lemma POST_invalid (BACKEND_URL NODE_ENV : option jsstring) (be : backend)
    (request : Request) (body : json) :
  json_body request = Some body ->
  body <> JNull ->
  is_str (opt_prop (Some body) (lit "action")) (lit "login") = false ->
  is_str (opt_prop (Some body) (lit "action")) (lit "register") = false ->
  is_str (opt_prop (Some body) (lit "action")) (lit "logout") = false ->
  run (POST BACKEND_URL NODE_ENV request) be = (Normal invalid_action, []).
Proof.
  intros Hbody Hnull H1 H2 H3. unfold POST. run_route. rewrite Hbody.
  rewrite !prop_object by assumption. run_route.
  rewrite H1, H2, H3. reflexivity.
Qed.

(** X1. An action that is none of ['login'], ['register'], ['logout'] (or
    no action at all) is answered 400 ['Invalid action'] and the backend is
    not contacted. *)
Theorem invalid_action_rejected (BACKEND_URL NODE_ENV : option jsstring) (be : backend)
    (request : Request) (body : json) :
  json_body request = Some body ->
  body <> JNull ->
  is_str (opt_prop (Some body) (lit "action")) (lit "login") = false ->
  is_str (opt_prop (Some body) (lit "action")) (lit "register") = false ->
  is_str (opt_prop (Some body) (lit "action")) (lit "logout") = false ->
  run (POST BACKEND_URL NODE_ENV request) be = (Normal invalid_action, []).
Proof. exact (POST_invalid BACKEND_URL NODE_ENV be request body). Qed.

Lemma invalid_action_rejected_witness :
  run (POST None None {| authorization := None;
                         json_body := Some (JObj [(lit "action", JStr (lit "signup"))]) |})
      token_backend
  = (Normal invalid_action, []).
Proof.
  apply (invalid_action_rejected None None token_backend _
           (JObj [(lit "action", JStr (lit "signup"))]));
    solve [reflexivity | discriminate].
Defined.

Lemma POST_login (BACKEND_URL NODE_ENV : option jsstring) (be : backend)
    (request : Request) (body : json) :
  json_body request = Some body ->
  is_str (opt_prop (Some body) (lit "action")) (lit "login") = true ->
  let username := opt_prop (Some body) (lit "username") in
  let password := opt_prop (Some body) (lit "password") in
  let rq := token_request BACKEND_URL username password in
  run (POST BACKEND_URL NODE_ENV request) be
  = (Normal (login_answer NODE_ENV username (be [rq])), [rq]).
Proof.
  intros Hbody Haction username password rq.
  pose proof (is_str_object _ _ _ Haction) as Hnull.
  unfold POST. run_route. rewrite Hbody.
  rewrite !prop_object by assumption. run_route.
  rewrite Haction. fold username password. fold rq.
  change ([] ++ [rq]) with [rq]. unfold login_answer.
  destruct (be [rq]) as [|r]; [reflexivity|].
  unfold after_fetch. run_route. rewrite Haction.
  destruct (parsed r) as [data|]; [|reflexivity].
  assert (Hd : data = JNull \/ data <> JNull)
    by (destruct data; [now left | right; discriminate ..]).
  destruct Hd as [->|Hd]; [reflexivity|].
  rewrite prop_object by assumption. run_route. cbn [andb].
  destruct (truthy (opt_prop (Some data) (lit "access_token"))) eqn:Ht.
  - destruct data; try reflexivity. now elim Hd.
  - rewrite (is_str_other _ _ (lit "register") Haction eq_refl).
    destruct data; try reflexivity. now elim Hd.
Qed.

(** X2. A login whose [username] and [password] convert to well-formed
    text sends exactly one request, the form post of the two texts to
    [/auth/token], and answers by the backend's answer alone: the session
    cookies [token] and [username] (the latter empty when the body has no
    username) under status 200 when the body carries a truthy
    [access_token], itself convertible to well-formed text; otherwise the
    backend's body under the backend's status, a status that a response with
    a body can carry, without cookies; and 500 when the fetch rejects or
    the body is not JSON or is [null]. *)
Theorem login_outcome (BACKEND_URL NODE_ENV : option jsstring) (be : backend)
    (request : Request) (body : json) (u p : jsstring) :
  json_body request = Some body ->
  is_str (opt_prop (Some body) (lit "action")) (lit "login") = true ->
  let username := opt_prop (Some body) (lit "username") in
  let password := opt_prop (Some body) (lit "password") in
  ToString username = Normal u -> well_formed_text u = true ->
  ToString password = Normal p -> well_formed_text p = true ->
  let rq := {| method := lit "POST";
               url := env_string BACKEND_URL ++ lit "/auth/token";
               headers := [];
               body := FormBody [(lit "username", u); (lit "password", p)] |} in
  (forall r data, be [rq] = Resolved r -> parsed r = Some data ->
     if truthy (opt_prop (Some data) (lit "access_token"))
     then sendable (opt_prop (Some data) (lit "access_token")) = true
     else valid_status (status r) = true) ->
  run (POST BACKEND_URL NODE_ENV request) be
  = (Normal (login_answer NODE_ENV username (be [rq])), [rq])
  /\ (forall r data, be [rq] = Resolved r -> parsed r = Some data ->
      truthy (opt_prop (Some data) (lit "access_token")) = true ->
      nr_cookies (login_answer NODE_ENV username (be [rq]))
      = [cookie_set (lit "token") (to_string (opt_prop (Some data) (lit "access_token")))
           false (production NODE_ENV) (lit "lax") 604800;
         cookie_set (lit "username")
           (match username with None | Some JNull => [] | Some _ => u end)
           false (production NODE_ENV) (lit "lax") 604800]).
Proof.
  intros Hbody Haction username password Hu _ Hp _ rq _.
  assert (Hrq : token_request BACKEND_URL username password = rq).
  { unfold token_request, rq. now rewrite (ToString_text _ _ Hu), (ToString_text _ _ Hp). }
  split.
  - rewrite (POST_login BACKEND_URL NODE_ENV be request body Hbody Haction).
    fold username password. now rewrite Hrq.
  - intros r data Hbe Hparsed Htoken. rewrite Hbe. unfold login_answer.
    rewrite Hparsed, Htoken.
    pose proof (truthy_object_field _ _ Htoken) as Hnull.
    rewrite <- (ToString_text _ _ Hu), <- (cookie_value_truthy _ Htoken).
    destruct data; try reflexivity. now elim Hnull.
Qed.

Lemma login_outcome_witness :
  run (POST None (Some (lit "production"))
         {| authorization := None; json_body := Some login_body |}) token_backend
  = (Normal {| nr_status := 200;
               nr_body := JObj [(lit "message", JStr (lit "Login successful"))];
               nr_cookies := [cookie_set (lit "token") (lit "t0") false true (lit "lax") 604800;
                              cookie_set (lit "username") (lit "ada") false true (lit "lax") 604800] |},
     [token_request None (Some (JStr (lit "ada"))) (Some (JStr (lit "pw")))]).
Proof.
  destruct (login_outcome None (Some (lit "production")) token_backend
              {| authorization := None; json_body := Some login_body |} login_body
              (lit "ada") (lit "pw") eq_refl eq_refl eq_refl eq_refl eq_refl eq_refl)
    as [H _].
  - intros r data [= <-] [= <-]. reflexivity.
  - exact H.
Defined.

Lemma POST_register (BACKEND_URL NODE_ENV : option jsstring) (be : backend)
    (request : Request) (body : json) :
  json_body request = Some body ->
  is_str (opt_prop (Some body) (lit "action")) (lit "register") = true ->
  let username := opt_prop (Some body) (lit "username") in
  let password := opt_prop (Some body) (lit "password") in
  let email := opt_prop (Some body) (lit "email") in
  let rq1 := register_request BACKEND_URL username password email in
  let rq2 := token_request BACKEND_URL username password in
  run (POST BACKEND_URL NODE_ENV request) be
  = match be [rq1] with
    | Rejected => (Normal internal_error, [rq1])
    | Resolved r =>
        match parsed r with
        | None => (Normal internal_error, [rq1])
        | Some data =>
            if (status r =? 400)%Z then
              (Normal (NextResponse_json (error_body "User already exists") (Some 400%Z)),
               [rq1])
            else if (status r =? 200)%Z then
              (Normal (auto_login_answer NODE_ENV username (be [rq1; rq2])), [rq1; rq2])
            else (Normal (NextResponse_json data (Some (status r))), [rq1])
        end
    end.
Proof.
  intros Hbody Haction username password email rq1 rq2.
  pose proof (is_str_object _ _ _ Haction) as Hnull.
  pose proof (is_str_other _ _ (lit "login") Haction eq_refl) as Hlogin.
  unfold POST. run_route. rewrite Hbody.
  rewrite !prop_object by assumption. run_route.
  rewrite Hlogin, Haction. fold username password email. fold rq1.
  change ([] ++ [rq1]) with [rq1].
  destruct (be [rq1]) as [|r]; [reflexivity|].
  unfold after_fetch. run_route. rewrite Hlogin, Haction.
  destruct (parsed r) as [data|]; [|reflexivity].
  cbn [andb].
  destruct (status r =? 400)%Z; [reflexivity|].
  destruct (status r =? 200)%Z; [|reflexivity].
  fold rq2. change ([rq1] ++ [rq2]) with [rq1; rq2]. unfold auto_login_answer.
  destruct (be [rq1; rq2]) as [|r2]; [reflexivity|].
  destruct (parsed r2) as [loginData|]; [|reflexivity].
  destruct loginData; try reflexivity;
    cbn [prop]; destruct (truthy _); reflexivity.
Qed.

(** X3. A registration first posts the username, password and email to
    [/auth/register].  When the backend's answer has a JSON body: a status
    400 is answered 400 ['User already exists'] whatever that body says; a
    status 200 is followed by an automatic login (a second request, the form
    post of the texts of [username] and [password] to [/auth/token]) whose
    answer decides between the session cookies and 500 ['Login failed after
    registration']; any other status relays the backend's body under that
    status.  A rejected fetch and a body that is not JSON are answered 500,
    whatever the status.  No other request is sent.  This holds when
    [username] and [password] convert to well-formed text, a token obtained
    by the automatic login does so too, and a relayed status is one that a
    response with a body can carry. *)
Theorem register_outcome (BACKEND_URL NODE_ENV : option jsstring) (be : backend)
    (request : Request) (body : json) (u p : jsstring) :
  json_body request = Some body ->
  is_str (opt_prop (Some body) (lit "action")) (lit "register") = true ->
  let username := opt_prop (Some body) (lit "username") in
  let password := opt_prop (Some body) (lit "password") in
  let email := opt_prop (Some body) (lit "email") in
  ToString username = Normal u -> well_formed_text u = true ->
  ToString password = Normal p -> well_formed_text p = true ->
  let rq1 := register_request BACKEND_URL username password email in
  let rq2 := {| method := lit "POST";
                url := env_string BACKEND_URL ++ lit "/auth/token";
                headers := [];
                body := FormBody [(lit "username", u); (lit "password", p)] |} in
  (forall r data, be [rq1] = Resolved r -> parsed r = Some data ->
     status r <> 400%Z -> status r <> 200%Z -> valid_status (status r) = true) ->
  (forall r loginData, be [rq1; rq2] = Resolved r -> parsed r = Some loginData ->
     truthy (opt_prop (Some loginData) (lit "access_token")) = true ->
     sendable (opt_prop (Some loginData) (lit "access_token")) = true) ->
  run (POST BACKEND_URL NODE_ENV request) be
  = match be [rq1] with
    | Rejected => (Normal internal_error, [rq1])
    | Resolved r =>
        match parsed r with
        | None => (Normal internal_error, [rq1])
        | Some data =>
            if (status r =? 400)%Z then
              (Normal (NextResponse_json (error_body "User already exists") (Some 400%Z)),
               [rq1])
            else if (status r =? 200)%Z then
              (Normal (auto_login_answer NODE_ENV username (be [rq1; rq2])), [rq1; rq2])
            else (Normal (NextResponse_json data (Some (status r))), [rq1])
        end
    end.
Proof.
  intros Hbody Haction username password email Hu _ Hp _ rq1 rq2 _ _.
  assert (Hrq : token_request BACKEND_URL username password = rq2).
  { unfold token_request, rq2. now rewrite (ToString_text _ _ Hu), (ToString_text _ _ Hp). }
  rewrite (POST_register BACKEND_URL NODE_ENV be request body Hbody Haction).
  fold username password email. fold rq1. now rewrite Hrq.
Qed.

Lemma register_outcome_witness :
  run (POST None None {| authorization := None; json_body := Some register_body |})
      taken_backend
  = (Normal (NextResponse_json (error_body "User already exists") (Some 400%Z)),
     [register_request None (Some (JStr (lit "ada"))) (Some (JStr (lit "pw")))
        (Some (JStr (lit "a@b.c")))]).
Proof.
  rewrite (register_outcome None None taken_backend
             {| authorization := None; json_body := Some register_body |} register_body
             (lit "ada") (lit "pw") eq_refl eq_refl eq_refl eq_refl eq_refl eq_refl).
  - reflexivity.
  - intros r data [= <-] _ H. now elim H.
  - intros r data [= <-] [= <-]. discriminate.
Defined.

Lemma login_answer_cookies (NODE_ENV : option jsstring) (username : jsval) (answer : fetched) :
  cookies_set (nr_cookies (login_answer NODE_ENV username answer)) <> [] ->
  nr_status (login_answer NODE_ENV username answer) = 200%Z
  /\ cookies_set (nr_cookies (login_answer NODE_ENV username answer))
     = [lit "token"; lit "username"]
  /\ exists r data, answer = Resolved r /\ parsed r = Some data
                    /\ truthy (opt_prop (Some data) (lit "access_token")) = true.
Proof.
  unfold login_answer. destruct answer as [|r]; [simpl; congruence|].
  destruct (parsed r) as [data|] eqn:Hp; [|simpl; congruence].
  destruct (truthy (opt_prop (Some data) (lit "access_token"))) eqn:Ht.
  - intros _. destruct data; try discriminate Ht;
      (split; [reflexivity|]; split; [reflexivity|]; eauto).
  - destruct data; simpl; congruence.
Qed.

Lemma auto_login_answer_cookies (NODE_ENV : option jsstring) (username : jsval)
    (answer : fetched) :
  cookies_set (nr_cookies (auto_login_answer NODE_ENV username answer)) <> [] ->
  nr_status (auto_login_answer NODE_ENV username answer) = 200%Z
  /\ cookies_set (nr_cookies (auto_login_answer NODE_ENV username answer))
     = [lit "token"; lit "username"]
  /\ exists r data, answer = Resolved r /\ parsed r = Some data
                    /\ truthy (opt_prop (Some data) (lit "access_token")) = true.
Proof.
  unfold auto_login_answer. destruct answer as [|r]; [simpl; congruence|].
  destruct (parsed r) as [data|] eqn:Hp; [|simpl; congruence].
  destruct (truthy (opt_prop (Some data) (lit "access_token"))) eqn:Ht.
  - intros _. destruct data; try discriminate Ht;
      (split; [reflexivity|]; split; [reflexivity|]; eauto).
  - destruct data; simpl; congruence.
Qed.

(** X4. Session cookies are set only on a token.  Whatever the request and
    the backend, the auth route answers (it never throws), sends at most two
    requests, and a response that sets any cookie has status 200, sets
    exactly [token] and [username], and follows a backend answer, the last
    one received, whose JSON body carries a truthy [access_token]. *)
Theorem session_only_with_token (BACKEND_URL NODE_ENV : option jsstring) (be : backend)
    (request : Request) :
  exists res,
    fst (run (POST BACKEND_URL NODE_ENV request) be) = Normal res
    /\ (List.length (snd (run (POST BACKEND_URL NODE_ENV request) be)) <= 2)%nat
    /\ (cookies_set (nr_cookies res) <> [] ->
        nr_status res = 200%Z
        /\ cookies_set (nr_cookies res) = [lit "token"; lit "username"]
        /\ exists r data,
             be (snd (run (POST BACKEND_URL NODE_ENV request) be)) = Resolved r
             /\ parsed r = Some data
             /\ truthy (opt_prop (Some data) (lit "access_token")) = true).
Proof.
  destruct (json_body request) as [body|] eqn:Hbody.
  2:{ exists internal_error. unfold POST. run_route. rewrite Hbody.
      simpl. repeat split; try lia; congruence. }
  assert (Hd : body = JNull \/ body <> JNull)
    by (destruct body; [now left | right; discriminate ..]).
  destruct Hd as [->|Hnull].
  { exists internal_error. unfold POST. run_route. rewrite Hbody.
    simpl. repeat split; try lia; congruence. }
  destruct (is_str (opt_prop (Some body) (lit "action")) (lit "login")) eqn:Hlogin.
  { rewrite (POST_login BACKEND_URL NODE_ENV be request body Hbody Hlogin).
    eexists; split; [reflexivity|]. split; [simpl; lia|].
    cbn [snd]. apply login_answer_cookies. }
  destruct (is_str (opt_prop (Some body) (lit "action")) (lit "register")) eqn:Hreg.
  { rewrite (POST_register BACKEND_URL NODE_ENV be request body Hbody Hreg).
    set (rq1 := register_request _ _ _ _). set (rq2 := token_request _ _ _).
    destruct (be [rq1]) as [|r];
      [exists internal_error; simpl; repeat split; try lia; congruence|].
    destruct (parsed r) as [data|];
      [|exists internal_error; simpl; repeat split; try lia; congruence].
    destruct (status r =? 400)%Z;
      [eexists; split; [reflexivity|]; simpl; repeat split; try lia; congruence|].
    destruct (status r =? 200)%Z.
    - eexists; split; [reflexivity|]. split; [simpl; lia|].
      cbn [snd]. apply auto_login_answer_cookies.
    - eexists; split; [reflexivity|]; simpl; repeat split; try lia; congruence. }
  destruct (is_str (opt_prop (Some body) (lit "action")) (lit "logout")) eqn:Hout.
  { exists (logoutResponse). unfold POST. run_route. rewrite Hbody.
    rewrite !prop_object by assumption. run_route. rewrite Hlogin, Hreg, Hout.
    simpl. repeat split; try lia; congruence. }
  rewrite (POST_invalid BACKEND_URL NODE_ENV be request body
             Hbody Hnull Hlogin Hreg Hout).
  exists invalid_action. simpl. repeat split; try lia; congruence.
Qed.

Lemma session_only_with_token_witness :
  exists res,
    fst (run (POST None None {| authorization := None; json_body := Some login_body |})
           token_backend) = Normal res
    /\ nr_status res = 200%Z
    /\ cookies_set (nr_cookies res) = [lit "token"; lit "username"].
Proof.
  destruct (session_only_with_token None None token_backend
              {| authorization := None; json_body := Some login_body |})
    as (res & Hres & _ & Hcookies).
  exists res. split; [exact Hres|].
  assert (Hset : cookies_set (nr_cookies res) <> []).
  { vm_compute in Hres. injection Hres as <-. discriminate. }
  destruct (Hcookies Hset) as (H1 & H2 & _). split; assumption.
Defined.

End AuthOutcomesFacts.

(** *** The create-knowledgebase route and the home page *)

Module HomePageFacts.
Import Js Json Http JsFacts RouteFacts GenerateKnowledgebase HomePage.

Lemma json_null_dec (j : json) : j = JNull \/ j <> JNull.
Proof. destruct j; [now left | right; discriminate ..]. Qed.

(** The route, step by step. *)
Lemma POST_steps (BACKEND_URL : option jsstring) (be : backend) (request : Request) :
  run (POST BACKEND_URL request) be
  = match authorization request with
    | None | Some [] => (Normal unauthorized, [])
    | Some token =>
        let me := me_request BACKEND_URL token in
        match be [me] with
        | Rejected => (Normal create_failed, [me])
        | Resolved u =>
            if negb (ok u) then (Normal (user_info_failed (status u)), [me])
            else
              match parsed u, json_body request with
              | Some userInfo, Some body =>
                  match prop (Some body) (lit "text") with
                  | Throw => (Normal create_failed, [me])
                  | Normal text =>
                      if negb (truthy text) then (Normal query_required, [me])
                      else
                        match prop (Some userInfo) (lit "id") with
                        | Throw => (Normal create_failed, [me])
                        | Normal id =>
                            let cr := create_request BACKEND_URL token text id in
                            (Normal (create_relayed (be [me; cr])), [me; cr])
                        end
                  end
              | _, _ => (Normal create_failed, [me])
              end
        end
    end.
Proof.
  unfold POST. run_route.
  destruct (authorization request) as [[|c token]|]; try reflexivity.
  cbv zeta. change ([] ++ [me_request BACKEND_URL (c :: token)])
    with [me_request BACKEND_URL (c :: token)].
  destruct (be [me_request BACKEND_URL (c :: token)]) as [|u]; [reflexivity|].
  destruct (negb (ok u)); [reflexivity|].
  destruct (parsed u) as [userInfo|]; [|reflexivity].
  destruct (json_body request) as [body|]; [|reflexivity].
  destruct (prop (Some body) (lit "text")) as [text|]; [|reflexivity].
  destruct (negb (truthy text)); [reflexivity|].
  destruct (prop (Some userInfo) (lit "id")) as [id|]; [|reflexivity].
  set (me := me_request BACKEND_URL (c :: token)).
  set (cr := create_request BACKEND_URL (c :: token) text id).
  change ([me] ++ [cr]) with [me; cr]. unfold create_relayed.
  destruct (be [me; cr]) as [|r]; [reflexivity|].
  destruct (ok r); simpl; destruct (parsed r); reflexivity.
Qed.

(** X5. A graph is created only for a known user.  Without an
    [authorization] header (absent or empty) the route answers 401 and sends
    nothing.  Otherwise the requests it sends are the user lookup alone, or
    the user lookup followed by the creation; and the creation is sent only
    when the lookup was answered ok with a JSON body and the posted [text] is
    truthy, and then carries that text as [title] and the looked-up [id] as
    [user_id], under the caller's own authorization header. *)
Theorem graph_created_only_for_user (BACKEND_URL : option jsstring) (be : backend)
    (request : Request) :
  (authorization request = None \/ authorization request = Some [] ->
   run (POST BACKEND_URL request) be = (Normal unauthorized, []))
  /\ match snd (run (POST BACKEND_URL request) be) with
     | [] => authorization request = None \/ authorization request = Some []
     | [me] =>
         exists token, authorization request = Some token /\ token <> []
                       /\ me = me_request BACKEND_URL token
     | [me; cr] =>
         exists token u userInfo body,
           authorization request = Some token
           /\ me = me_request BACKEND_URL token
           /\ be [me] = Resolved u /\ ok u = true /\ parsed u = Some userInfo
           /\ json_body request = Some body
           /\ truthy (opt_prop (Some body) (lit "text")) = true
           /\ cr = create_request BACKEND_URL token (opt_prop (Some body) (lit "text"))
                     (opt_prop (Some userInfo) (lit "id"))
     | _ => False
     end.
Proof.
  rewrite POST_steps. split.
  - intros [H|H]; rewrite H; reflexivity.
  - destruct (authorization request) as [[|c token]|]; [now right | | now left].
    cbv zeta. set (me := me_request BACKEND_URL (c :: token)).
    assert (Hone : exists t, Some (c :: token) = Some t /\ t <> []
                             /\ me = me_request BACKEND_URL t)
      by (exists (c :: token); repeat split; discriminate).
    destruct (be [me]) as [|u] eqn:Hbe; [exact Hone|].
    destruct (ok u) eqn:Hok; [|exact Hone]. cbn [negb].
    destruct (parsed u) as [userInfo|] eqn:Hu; [|exact Hone].
    destruct (json_body request) as [body|] eqn:Hb; [|exact Hone].
    destruct (json_null_dec body) as [->|Hbody]; [exact Hone|].
    rewrite prop_object by assumption.
    destruct (truthy (opt_prop (Some body) (lit "text"))) eqn:Ht; [|exact Hone].
    cbn [negb].
    destruct (json_null_dec userInfo) as [->|Hinfo]; [exact Hone|].
    rewrite prop_object by assumption. cbn [snd].
    exists (c :: token), u, userInfo, body. repeat split; assumption.
Qed.

Lemma navigation_error_body (msg : string) : navigation (error_body msg) = None.
Proof. reflexivity. Qed.

(** X6. From the home page the route always looks the user up: the
    header is ['Bearer '] followed by the cookie value, or by ['null']
    without a cookie, so it is never empty, the branch of the route that
    answers ['Authorization token required'] without sending anything is
    never taken, and the user lookup under that header is the first request
    sent.  With an empty query the lookup is the only request and the page
    does not navigate.  The token is one that a header carries as it is. *)
Theorem home_page_always_looks_up (BACKEND_URL : option jsstring) (be : backend)
    (token : option jsstring) (textAreaValue mode : jsstring) :
  header_safe token = true ->
  let header := lit "Bearer " ++ match token with Some t => t | None => lit "null" end in
  (exists rest, snd (handleSubmit BACKEND_URL be token textAreaValue mode)
                = me_request BACKEND_URL header :: rest)
  /\ (textAreaValue = [] ->
      handleSubmit BACKEND_URL be token textAreaValue mode
      = (None, [me_request BACKEND_URL header])).
Proof.
  intros _ header. unfold handleSubmit. rewrite POST_steps.
  assert (Hhdr : lit "Bearer "
                 ++ to_string (Some (match token with Some t => JStr t | None => JNull end))
                 = header) by (destruct token; reflexivity).
  cbn [handleSubmit_request authorization json_body]. rewrite Hhdr.
  assert (Hne : exists c h, header = c :: h) by (subst header; simpl; eauto).
  destruct Hne as (c & h & Hne). rewrite Hne. cbv zeta.
  set (me := me_request BACKEND_URL (c :: h)).
  split.
  - destruct (be [me]) as [|u]; [eexists; reflexivity|].
    destruct (negb (ok u)); [eexists; reflexivity|].
    destruct (parsed u) as [userInfo|]; [|eexists; reflexivity].
    cbn [prop assoc]. rewrite !str_eqb_refl.
    destruct (negb (truthy (Some (JStr textAreaValue)))); [eexists; reflexivity|].
    destruct userInfo; eexists; reflexivity.
  - intros ->. destruct (be [me]) as [|u]; [reflexivity|].
    destruct (negb (ok u)); [reflexivity|].
    destruct (parsed u) as [userInfo|]; reflexivity.
Qed.

Lemma home_page_always_looks_up_witness :
  handleSubmit None (fun _ => Rejected) None [] (lit "explorer")
  = (None, [me_request None (lit "Bearer null")]).
Proof.
  destruct (home_page_always_looks_up None (fun _ => Rejected) None [] (lit "explorer")
              eq_refl)
    as [_ H].
  apply H. reflexivity.
Defined.

(** X7. The home page navigates only to a graph the backend returned: when
    it pushes a page, the route sent the user lookup and the creation, the
    backend answered the creation with a JSON body whose [uuid] is truthy,
    and the page pushed is [/loading/] followed by that uuid. *)
Theorem home_page_navigates_to_created (BACKEND_URL : option jsstring) (be : backend)
    (token : option jsstring) (textAreaValue mode target : jsstring) :
  fst (handleSubmit BACKEND_URL be token textAreaValue mode) = Some target ->
  exists me cr r data,
    snd (handleSubmit BACKEND_URL be token textAreaValue mode) = [me; cr]
    /\ be [me; cr] = Resolved r
    /\ parsed r = Some data
    /\ truthy (opt_prop (Some data) (lit "uuid")) = true
    /\ target = lit "/loading/" ++ to_string (opt_prop (Some data) (lit "uuid")).
Proof.
  unfold handleSubmit. rewrite POST_steps.
  destruct (authorization _) as [[|c h]|]; try discriminate.
  cbv zeta. set (me := me_request BACKEND_URL (c :: h)).
  destruct (be [me]) as [|u]; [discriminate|].
  destruct (negb (ok u)); [discriminate|].
  destruct (parsed u) as [userInfo|]; [|discriminate].
  destruct (json_body _) as [body|]; [|discriminate].
  destruct (prop (Some body) (lit "text")) as [text|]; [|discriminate].
  destruct (negb (truthy text)); [discriminate|].
  destruct (prop (Some userInfo) (lit "id")) as [id|]; [|discriminate].
  set (cr := create_request BACKEND_URL (c :: h) text id).
  cbn [fst snd]. unfold create_relayed.
  destruct (be [me; cr]) as [|r] eqn:Hbe; [discriminate|].
  destruct (parsed r) as [data|] eqn:Hp; [|discriminate].
  cbn [NextResponse_json nr_body]. unfold navigation.
  destruct (json_null_dec data) as [->|Hd]; [discriminate|].
  rewrite prop_object by assumption.
  destruct (truthy (opt_prop (Some data) (lit "uuid"))) eqn:Ht; [|discriminate].
  intros [= <-]. exists me, cr, r, data. repeat split; assumption.
Qed.

Lemma home_page_navigates_to_created_witness :
  exists me cr r data,
    snd (handleSubmit None sample_backend (Some (lit "tok")) (lit "quantum computing")
           (lit "pioneer")) = [me; cr]
    /\ sample_backend [me; cr] = Resolved r
    /\ parsed r = Some data
    /\ truthy (opt_prop (Some data) (lit "uuid")) = true
    /\ lit "/loading/u-1" = lit "/loading/" ++ to_string (opt_prop (Some data) (lit "uuid")).
Proof.
  apply (home_page_navigates_to_created None sample_backend (Some (lit "tok"))
           (lit "quantum computing") (lit "pioneer") (lit "/loading/u-1")).
  reflexivity.
Defined.

End HomePageFacts.

(** *** The list-graphs route and the sidebar *)

Module ListGraphsFacts.
Import Js Json Http JsFacts RouteFacts ListGraphs.

Lemma GET_steps (BACKEND_URL : option jsstring) (be : backend) (request : Request) :
  run (GET BACKEND_URL request) be
  = match authorization request with
    | None | Some [] =>
        (Normal (NextResponse_json (error_body "Authorization token required") (Some 401%Z)),
         [])
    | Some token =>
        (Normal (list_relayed (be [list_request BACKEND_URL token])),
         [list_request BACKEND_URL token])
    end.
Proof.
  unfold GET. run_route.
  destruct (authorization request) as [[|c token]|]; try reflexivity.
  change ([] ++ [list_request BACKEND_URL (c :: token)])
    with [list_request BACKEND_URL (c :: token)].
  unfold list_relayed.
  destruct (be [list_request BACKEND_URL (c :: token)]) as [|r]; [reflexivity|].
  destruct (ok r); simpl; destruct (parsed r); reflexivity.
Qed.



(** X9. The sidebar's effect on mount.  Without a token cookie it asks
    nothing and leaves the state as it is.  With a token, one that a header
    carries as it is, it sends the single list request under [Bearer
    token]; an exception escapes exactly when the user's name cannot be read
    from the token (the second segment of the token is not base64, or does
    not decode to JSON, or decodes to [null] or to a string); otherwise the
    name becomes the [sub] field of the decoded payload, and if the list of
    graphs differs from the one before, the backend answered with a JSON
    array and the list is that array.  In particular an error answer (an
    object) never clears the list. *)
Theorem sidebar_keeps_graphs (atob : jsstring -> completion jsstring)
    (JSON_parse : jsstring -> option json)
    (BACKEND_URL : option jsstring) (be : backend)
    (token : option jsstring) (st : sidebar) :
  let load := sidebar_load atob JSON_parse BACKEND_URL be token st in
  (token = None \/ token = Some [] -> load = (Normal st, []))
  /\ (forall t, token = Some t -> header_safe token = true ->
      let rq := list_request BACKEND_URL (lit "Bearer " ++ t) in
      snd load = [rq]
      /\ (fst load = Throw <-> token_subject atob JSON_parse t = Throw)
      /\ (forall st', fst load = Normal st' ->
            token_subject atob JSON_parse t = Normal (username st')
            /\ (knowledgeGraphs st' <> knowledgeGraphs st ->
                exists r items,
                  be [rq] = Resolved r /\ parsed r = Some (JArr items)
                  /\ knowledgeGraphs st' = items))).
Proof.
  intros load. split.
  - intros [->| ->]; reflexivity.
  - intros t -> Hsafe rq. subst load. unfold sidebar_load.
    destruct t as [|c t]; [discriminate Hsafe|].
    rewrite GET_steps. cbn [authorization].
    change (lit "Bearer " ++ c :: t) with (cu "B" :: (lit "earer " ++ c :: t)).
    cbv iota. change (cu "B" :: (lit "earer " ++ c :: t)) with (lit "Bearer " ++ c :: t).
    fold rq.
    destruct (token_subject atob JSON_parse (c :: t)) as [sub|]; cbn [fst snd].
    + split; [reflexivity|]. split; [split; discriminate|].
      intros st' [= <-]. cbn [username knowledgeGraphs]. split; [reflexivity|].
      unfold list_relayed. destruct (be [rq]) as [|r]; [simpl; congruence|].
      destruct (parsed r) as [data|] eqn:Hp; [|simpl; congruence].
      cbn [NextResponse_json nr_body].
      destruct data; simpl; try congruence.
      intros _. eauto.
    + split; [reflexivity|]. split; [tauto|]. discriminate.
Qed.

Lemma sidebar_keeps_graphs_witness :
  sidebar_load atob_true AgentThoughts.parse_literal None expired_backend
    (Some (lit "a.dHJ1ZQ==.c")) {| knowledgeGraphs := [one_graph]; username := Some JNull |}
  = (Normal {| knowledgeGraphs := [one_graph]; username := None |},
     [list_request None (lit "Bearer a.dHJ1ZQ==.c")])
  /\ sidebar_load atob_true AgentThoughts.parse_literal None listing_backend None
       {| knowledgeGraphs := []; username := Some JNull |}
     = (Normal {| knowledgeGraphs := []; username := Some JNull |}, []).
Proof.
  destruct (sidebar_keeps_graphs atob_true AgentThoughts.parse_literal None listing_backend
              None {| knowledgeGraphs := []; username := Some JNull |}) as [H0 _].
  split; [|apply H0; now left].
  destruct (sidebar_keeps_graphs atob_true AgentThoughts.parse_literal None expired_backend
              (Some (lit "a.dHJ1ZQ==.c"))
              {| knowledgeGraphs := [one_graph]; username := Some JNull |}) as [_ H1].
  destruct (H1 (lit "a.dHJ1ZQ==.c") eq_refl eq_refl) as (_ & _ & Hst).
  destruct (Hst {| knowledgeGraphs := [one_graph]; username := None |} eq_refl) as [_ _].
  reflexivity.
Defined.

End ListGraphsFacts.

(** ** The simulated status route *)

Module StatusDemoFacts.
Import Js Json StatusDemo.

Lemma GET_counts (slug : option jsstring) (h : Z) :
  (-1 <= h)%Z -> GET slug h = (nth_answer (h + 2), (h + 1)%Z).
Proof.
  intros Hh. unfold GET, nth_answer. cbv zeta.
  change (Z.of_nat (List.length statusTexts) + 1)%Z with 6%Z.
  change (Z.of_nat (List.length statusTexts)) with 5%Z.
  rewrite Z.rem_mod_nonneg by lia.
  replace (h + 1 + 1)%Z with (h + 2)%Z by lia.
  destruct (Z.eqb_spec ((h + 2) mod 6) 5) as [_|Hne]; [reflexivity|].
  f_equal. f_equal.
  assert (Hr : (0 <= (h + 2) mod 6 < 6)%Z) by (apply Z.mod_pos_bound; lia).
  assert (Hn : (Z.to_nat ((h + 2) mod 6) < 5)%nat) by lia.
  revert Hn. generalize (Z.to_nat ((h + 2) mod 6)). intros n Hn.
  do 5 (destruct n as [|n]; [reflexivity|]). lia.
Qed.

Lemma serve_counts (slugs : list (option jsstring)) (h : Z) (i : nat) :
  (-1 <= h)%Z ->
  (i < List.length slugs)%nat ->
  nth_error (serve slugs h) i = Some (nth_answer (h + 2 + Z.of_nat i)).
Proof.
  revert h i. induction slugs as [|slug rest IH]; intros h i Hh Hi; [simpl in Hi; lia|].
  simpl serve. rewrite GET_counts by assumption.
  destruct i as [|i].
  - simpl. now rewrite Z.add_0_r.
  - simpl nth_error. simpl in Hi. rewrite IH by lia.
    f_equal. f_equal. lia.
Qed.

(** X10. The simulated status route counts requests, not slugs: whatever
    the slugs, the [n]-th request since the start (counted from 1) is
    answered ['completed'] exactly when [n mod 6 = 5], and otherwise
    ['loading'] with the status text of index [n mod 6], which is always one
    of the five texts; so the first request shows the second text, and the
    first text appears only with the sixth request. *)
Theorem status_demo_cycle (slugs : list (option jsstring)) (i : nat) :
  (i < List.length slugs)%nat ->
  nth_error (serve slugs initial_hitCount) i = Some (nth_answer (Z.of_nat i + 1))
  /\ (status (nth_answer (Z.of_nat i + 1)) = lit "completed"
      <-> ((Z.of_nat i + 1) mod 6 = 5)%Z)
  /\ exists text, statusText (nth_answer (Z.of_nat i + 1)) = Some text
                  /\ (In text statusTexts \/ text = lit "Completed!").
Proof.
  intros Hi. split; [|split].
  - rewrite serve_counts by (unfold initial_hitCount; lia).
    f_equal. f_equal. unfold initial_hitCount. lia.
  - unfold nth_answer.
    destruct (Z.eqb_spec ((Z.of_nat i + 1) mod 6) 5) as [He|Hne]; simpl.
    + tauto.
    + split; [discriminate | tauto].
  - unfold nth_answer.
    destruct (Z.eqb_spec ((Z.of_nat i + 1) mod 6) 5) as [He|Hne]; cbn [statusText].
    + eexists; split; [reflexivity | now right].
    + eexists; split; [reflexivity|]. left.
      assert (Hr : (0 <= (Z.of_nat i + 1) mod 6 < 6)%Z) by (apply Z.mod_pos_bound; lia).
      apply nth_In. change (List.length statusTexts) with 5%nat. lia.
Qed.

Lemma status_demo_cycle_witness :
  nth_error (serve [None; Some (lit "a"); None; None; Some (lit "b"); None] initial_hitCount) 4
  = Some {| status := lit "completed"; statusText := Some (lit "Completed!") |}.
Proof.
  destruct (status_demo_cycle [None; Some (lit "a"); None; None; Some (lit "b"); None] 4)
    as [H _].
  - simpl. lia.
  - rewrite H. reflexivity.
Defined.

End StatusDemoFacts.

(** ** The loading page: stage, token cookie, and the poll through the route *)

Module LoadingFlowFacts.
Import Js Json Http JsFacts RouteFacts LoadingPage LoadingFlow.

(** *** The stage shown *)

Lemma setGraphTitle_shown (title : jsval) (v : view) :
  stage_shown v -> stage_shown (setGraphTitle title v).
Proof.
  intros [Hs _]. split; [exact Hs|].
  unfold setGraphTitle. cbn [graphTitle].
  destruct title as [t|]; [|reflexivity].
  destruct (truthy (Some t)) eqn:Ht; [exact Ht | reflexivity].
Qed.

Lemma onStatusString_shown (slug status : jsstring) (v : view) :
  stage_shown v -> stage_shown (fst (onStatusString slug status v)).
Proof.
  intros [Hs Ht]. unfold onStatusString.
  destruct (startsWith status (lit "topics_found:")).
  - destruct (topicList status); split; simpl; auto.
  - destruct (str_eqb status (lit "search_results_found")); [split; simpl; auto|].
    destruct (str_eqb status (lit "articles_generated")); [split; simpl; auto 6|].
    destruct (str_eqb status (lit "done")); split; assumption.
Qed.

Lemma pollStatus_shown (slug : jsstring) (v : view) (r : reply) :
  stage_shown v -> stage_shown (fst (pollStatus slug v r)).
Proof.
  intros Hv. unfold pollStatus. destruct r as [|[|] [data|]]; try exact Hv.
  destruct (prop (Some data) (lit "status")) as [status|]; [|exact Hv].
  destruct (prop (Some data) (lit "title")) as [title|]; [|exact Hv].
  pose proof (setGraphTitle_shown title v Hv) as Hv1.
  destruct (is_str status (lit "done")); [exact Hv1|].
  destruct status as [[| | |s| |]|]; try exact Hv1.
  pose proof (onStatusString_shown slug s _ Hv1) as Hv2.
  destruct (onStatusString slug s (setGraphTitle title v)). exact Hv2.
Qed.

Lemma run_shown (slug : jsstring) (replies : list reply) (p : poller) :
  stage_shown (pview p) -> stage_shown (pview (LoadingPage.run slug p replies)).
Proof.
  revert p. induction replies as [|r replies IH]; intros p Hp; [exact Hp|].
  change (LoadingPage.run slug p (r :: replies))
    with (LoadingPage.run slug (tick slug p r) replies).
  apply IH. unfold tick. destruct (interval p); [|exact Hp].
  pose proof (pollStatus_shown slug (pview p) r Hp) as H.
  destruct (pollStatus slug (pview p) r). exact H.
Qed.

(** X11. The stage index of the loading page is always 0, 2, 3 or 4,
    whatever is polled: it never leaves the five stages, and the second stage
    (index 1) is never the current one, because a [topics_found] status moves
    it to index 2; and the title shown is never falsy (a missing or empty
    title is replaced by the default). *)
Theorem stage_always_shown (slug : jsstring) (token : option jsstring)
    (replies : list reply) :
  let v := pview (LoadingPage.run slug (mount token) replies) in
  In (currentStage v) [0; 2; 3; 4]%Z
  /\ (0 <= currentStage v < 5)%Z
  /\ currentStage v <> 1%Z
  /\ truthy (Some (graphTitle v)) = true.
Proof.
  intros v.
  assert (Hv : stage_shown v).
  { apply run_shown. destruct token as [[|c t]|]; split; simpl; auto. }
  destruct Hv as [Hs Ht]. repeat split; try assumption;
    simpl in Hs; lia.
Qed.

(** *** The token cookie *)

Lemma split2_no_sep (a b : N) (s : jsstring) :
  ~ In a s -> split2 a b s = [s].
Proof.
  induction s as [|c s IH]; intros Hs; [reflexivity|].
  simpl split2. destruct s as [|d s']; [reflexivity|].
  destruct (N.eqb_spec c a) as [->|_]; [exfalso; apply Hs; now left|].
  cbn [andb]. rewrite IH; [reflexivity|]. intros H. apply Hs. now right.
Qed.

Lemma split2_app_sep (a b : N) (x y : jsstring) :
  ~ In a x -> split2 a b (x ++ a :: b :: y) = x :: split2 a b y.
Proof.
  induction x as [|c x IH]; intros Hx.
  - simpl. now rewrite !N.eqb_refl.
  - change ((c :: x) ++ a :: b :: y) with (c :: (x ++ a :: b :: y)).
    simpl split2.
    destruct (x ++ a :: b :: y) as [|d s''] eqn:Hs; [now destruct x|].
    destruct (N.eqb_spec c a) as [->|_]; [exfalso; apply Hx; now left|].
    cbn [andb]. rewrite IH; [reflexivity|]. intros H. apply Hx. now right.
Qed.

Lemma split2_join (a b : N) (l : list jsstring) :
  l <> [] ->
  Forall (fun x => ~ In a x) l ->
  split2 a b (join [a; b] l) = l.
Proof.
  induction l as [|x l IH]; intros Hne Hall; [congruence|].
  inversion Hall as [|? ? Hx Hl]; subst.
  destruct l as [|y l].
  - simpl. now apply split2_no_sep.
  - change (join [a; b] (x :: y :: l)) with (x ++ a :: b :: join [a; b] (y :: l)).
    rewrite split2_app_sep by assumption.
    rewrite IH; [reflexivity | discriminate | assumption].
Qed.

Lemma startsWith_name (p n v : jsstring) :
  ~ In (cu "=") n -> ~ In (cu "=") p ->
  startsWith (n ++ cu "=" :: v) (p ++ [cu "="]) = str_eqb n p.
Proof.
  change (cu "=") with 61%N.
  revert n. induction p as [|q p IH]; intros n Hn Hp.
  - destruct n as [|c n]; cbn [startsWith app str_eqb].
    + reflexivity.
    + destruct (N.eqb_spec c 61) as [->|_]; [exfalso; apply Hn; now left|].
      reflexivity.
  - destruct n as [|c n]; cbn [startsWith app str_eqb].
    + destruct (N.eqb_spec 61 q) as [<-|_]; [exfalso; apply Hp; now left|].
      reflexivity.
    + rewrite IH; [reflexivity | |]; intros H; [apply Hn | apply Hp]; now right.
Qed.

Lemma find_rows (jar : list (jsstring * jsstring)) :
  Forall (fun nv => ~ In (cu "=") (fst nv)) jar ->
  find (fun row => startsWith row (lit "token="))
       (map (fun nv => fst nv ++ cu "=" :: snd nv) jar)
  = option_map (fun nv => fst nv ++ cu "=" :: snd nv) (jar_find (lit "token") jar).
Proof.
  induction 1 as [|[n v] jar Hn Hjar IH]; [reflexivity|].
  unfold jar_find in *. cbn [map find fst snd] in *.
  change (lit "token=") with (lit "token" ++ [cu "="]) in *.
  rewrite (startsWith_name (lit "token") n v Hn)
    by (vm_compute; intuition discriminate).
  destruct (str_eqb n (lit "token")); [reflexivity|].
  exact IH.
Qed.

(** X12. The token the loading page reads from [document.cookie].  For a
    cookie text of [name=value] pairs joined by ["; "] (no semicolon in a name
    or value, no equals sign in a name): without a cookie named [token] the
    page reads no token; with one, it reads the value of the first such cookie
    up to that value's first equals sign, so the whole value when it has
    none, and a value cut short when it has one. *)
Theorem token_cookie_read (jar : list (jsstring * jsstring)) :
  Forall (fun nv => ~ In (cu ";") (fst nv) /\ ~ In (cu "=") (fst nv)
                    /\ ~ In (cu ";") (snd nv)) jar ->
  token_of_cookie (cookie_string jar)
  = match jar_find (lit "token") jar with
    | Some (_, value) => Some (hd [] (split (cu "=") value))
    | None => None
    end
  /\ (forall name value, jar_find (lit "token") jar = Some (name, value) ->
      ~ In (cu "=") value ->
      token_of_cookie (cookie_string jar) = Some value).
Proof.
  intros Hjar.
  assert (Hmain : token_of_cookie (cookie_string jar)
                  = match jar_find (lit "token") jar with
                    | Some (_, value) => Some (hd [] (split (cu "=") value))
                    | None => None
                    end).
  { unfold token_of_cookie, cookie_string.
    destruct jar as [|nv jar]; [reflexivity|].
    change (lit "; ") with [cu ";"; cu " "].
    rewrite split2_join.
    - rewrite find_rows by (eapply Forall_impl; [|exact Hjar]; simpl; tauto).
      destruct (jar_find (lit "token") (nv :: jar)) as [[n v]|] eqn:Hfind; [|reflexivity].
      cbn [option_map fst snd].
      apply find_some in Hfind as [Hin _].
      rewrite Forall_forall in Hjar. destruct (Hjar _ Hin) as (_ & Hn & _).
      rewrite split_app_sep by exact Hn.
      pose proof (split_nonempty (cu "=") v) as Hne.
      destruct (split (cu "=") v); [congruence | reflexivity].
    - discriminate.
    - rewrite Forall_map. eapply Forall_impl; [|exact Hjar].
      intros [n v] (H1 & _ & H3) Hin. cbn [fst snd] in *.
      apply in_app_or in Hin as [Hin|[Hin|Hin]]; [tauto | discriminate Hin | tauto]. }
  split; [exact Hmain|].
  intros name value Hfind Hv. rewrite Hmain, Hfind.
  now rewrite split_no_sep.
Qed.

Lemma token_cookie_read_witness :
  token_of_cookie (cookie_string [(lit "username", lit "ada"); (lit "token", lit "abc=")])
  = Some (lit "abc").
Proof.
  destruct (token_cookie_read [(lit "username", lit "ada"); (lit "token", lit "abc=")])
    as [H _].
  - repeat constructor; vm_compute; intuition discriminate.
  - rewrite H. reflexivity.
Defined.

(** *** One poll through the route *)

(** X13. One poll of the loading page through the graph-status route.
    For a non-empty slug the route sends the backend exactly one request, the
    GET of [/knowledge-graphs/status/slug] under [Bearer token]; an ok answer
    with a JSON body is handled by the page exactly as if it had come from the
    backend directly; and every failure (a rejected fetch, an answer that is
    not ok, a body that is not JSON) leaves the page's state as it was, with a
    console error and no navigation.  With an empty slug the backend is not
    asked at all. *)
Theorem poll_through_route_transparent (BACKEND_URL : option jsstring) (be : backend)
    (slug token : jsstring) (v : view) :
  (slug <> [] ->
   let rq := GraphStatus.status_request BACKEND_URL (Some (JStr slug)) (Some (JStr token)) in
   poll_through_route BACKEND_URL be slug token v
   = (match be [rq] with
      | Resolved r =>
          match ok r, parsed r with
          | true, Some data => pollStatus slug v (Reply true (Some data))
          | _, _ => (v, [ConsoleError])
          end
      | Rejected => (v, [ConsoleError])
      end, [rq]))
  /\ (slug = [] ->
      poll_through_route BACKEND_URL be slug token v = (v, [ConsoleError], [])).
Proof.
  split.
  - intros Hslug rq. unfold poll_through_route, GraphStatus.POST, poll_request.
    run_route. cbn [json_body].
    change (prop (Some (JObj [(lit "uuid", JStr slug); (lit "auth", JStr token)])) (lit "uuid"))
      with (Normal (Some (JStr slug))).
    change (prop (Some (JObj [(lit "uuid", JStr slug); (lit "auth", JStr token)])) (lit "auth"))
      with (Normal (Some (JStr token))).
    cbv iota beta.
    destruct slug as [|c slug]; [congruence|]. cbn [truthy str_truthy negb].
    cbn [ToString ToString_json]. cbv iota beta.
    change (GraphStatus.status_request_of BACKEND_URL (c :: slug) token) with rq.
    change ([] ++ [rq]) with [rq].
    destruct (be [rq]) as [|r]; [reflexivity|].
    destruct (ok r) eqn:Hok; cbn [negb];
      destruct (parsed r) as [data|]; try reflexivity.
    all: unfold NextResponse_json_at; try destruct (valid_status (status r));
      cbv iota beta; try reflexivity;
      unfold reply_of, NextResponse_json; cbn [nr_status nr_body];
      unfold ok in Hok; rewrite Hok; reflexivity.
  - intros ->. reflexivity.
Qed.

Lemma poll_through_route_transparent_witness :
  poll_through_route None done_backend (lit "u1") (lit "tok") initialView
  = (initialView, [ConsoleLog; RouterPush (lit "/graph/u1")],
     [GraphStatus.status_request None (Some (JStr (lit "u1"))) (Some (JStr (lit "tok")))]).
Proof.
  destruct (poll_through_route_transparent None done_backend (lit "u1") (lit "tok")
              initialView) as [H _].
  rewrite H; [reflexivity | discriminate].
Defined.

(** *** The topic list of any [topics_found] status *)

Lemma startsWith_app (s prefix : jsstring) :
  startsWith s prefix = true -> exists rest, s = prefix ++ rest.
Proof.
  revert s. induction prefix as [|p prefix IH]; intros s H.
  - exists s. reflexivity.
  - destruct s as [|c s]; [discriminate|]. cbn [startsWith] in H.
    apply andb_prop in H as [Hc Hs]. apply N.eqb_eq in Hc. subst c.
    destruct (IH s Hs) as [rest ->]. exists rest. reflexivity.
Qed.

(** X14. Every status that starts with ['topics_found:'] has a topic list:
    the parse never fails on it, the list is never empty (an empty payload
    gives one empty topic), and it is made of the text between the first
    colon and the next one only, split at ['|']: what follows a second colon
    is dropped.  The poll therefore always stores a non-empty topic list and
    moves to stage 2. *)
Theorem topics_found_always_parsed (slug status : jsstring) (v : view) :
  startsWith status (lit "topics_found:") = true ->
  exists rest,
    status = lit "topics_found:" ++ rest
    /\ topicList status = Some (split (cu "|") (hd [] (split (cu ":") rest)))
    /\ topics (fst (onStatusString slug status v)) <> []
    /\ currentStage (fst (onStatusString slug status v)) = 2%Z.
Proof.
  intros Hstart. destruct (startsWith_app _ _ Hstart) as [rest Hrest].
  exists rest. split; [exact Hrest|].
  assert (Hparse : topicList status = Some (split (cu "|") (hd [] (split (cu ":") rest)))).
  { rewrite Hrest. unfold topicList.
    change (lit "topics_found:" ++ rest) with (lit "topics_found" ++ cu ":" :: rest).
    rewrite split_app_sep by (vm_compute; intuition discriminate).
    pose proof (split_nonempty (cu ":") rest) as Hne.
    destruct (split (cu ":") rest); [congruence | reflexivity]. }
  split; [exact Hparse|].
  unfold onStatusString. rewrite Hstart, Hparse. cbn [fst topics setTopics currentStage setCurrentStage].
  split; [apply split_nonempty | reflexivity].
Qed.

Lemma topics_found_always_parsed_witness :
  topicList (lit "topics_found:AI: a primer|Qubits") = Some [lit "AI"]
  /\ topicList (lit "topics_found:") = Some [[]].
Proof.
  destruct (topics_found_always_parsed [] (lit "topics_found:AI: a primer|Qubits") initialView)
    as (rest & Hrest & Hparse & _); [reflexivity|].
  split; reflexivity.
Defined.

End LoadingFlowFacts.

(** ** The middleware: redirects *)

Module MiddlewareRedirects.
Import Js Middleware JsFacts.

(** X15. The middleware's redirects do not loop: when it redirects a
    request, the target is [/login] or [/], the matcher accepts the target,
    and the same browser (the same cookies) asking for the target is let
    through. *)
Theorem redirect_is_let_through (request : NextRequest) (target : jsstring) :
  middleware request = redirect target ->
  (target = lit "/login" \/ target = lit "/")
  /\ matcher target = true
  /\ middleware {| pathname := target; cookies := cookies request |} = next.
Proof.
  unfold middleware, has_token, isAuthPage. cbn [pathname cookies].
  destruct (cookies_get (lit "token") (cookies request)) as [tok|];
    cbn [negb andb].
  - destruct (str_eqb (pathname request) (lit "/")); cbn [andb].
    + destruct (startsWith (pathname request) (lit "/login")
                || startsWith (pathname request) (lit "/register")); [|discriminate].
      intros [= <-]. repeat split. now right.
    + destruct (startsWith (pathname request) (lit "/login")
                || startsWith (pathname request) (lit "/register")); [|discriminate].
      intros [= <-]. repeat split. now right.
  - destruct (str_eqb (pathname request) (lit "/")); cbn [andb].
    + intros [= <-]. repeat split. now left.
    + destruct (startsWith (pathname request) (lit "/login")
                || startsWith (pathname request) (lit "/register")); [discriminate|].
      intros [= <-]. repeat split. now left.
Qed.

Lemma redirect_is_let_through_witness :
  middleware {| pathname := lit "/login"; cookies := cookies graph_page_request |} = next.
Proof.
  destruct (redirect_is_let_through graph_page_request (lit "/login")) as (_ & _ & H).
  - reflexivity.
  - exact H.
Defined.

End MiddlewareRedirects.

(** ** The parts of an article *)

Module CardsFacts.
Import Js Json JsFacts Cards.

Lemma startsWith_other (c : N) (s prefix : jsstring) (q : N) :
  c <> q -> startsWith (c :: s) (q :: prefix) = false.
Proof.
  intros Hc. cbn [startsWith]. destruct (N.eqb_spec c q); [congruence | reflexivity].
Qed.

Lemma no_fence_here (c : N) (s : jsstring) :
  c <> 96%N ->
  startsWith (c :: s) (lit "```card") = false /\ startsWith (c :: s) (lit "```") = false.
Proof.
  intros Hc. split; apply (startsWith_other c s _ 96%N Hc).
Qed.

Lemma split_fences_copy (c : N) (s : jsstring) :
  c <> 96%N -> split_fences 0 (c :: s) = cons_field c (split_fences 0 s).
Proof.
  intros Hc. destruct (no_fence_here c s Hc) as [H1 H2].
  cbn [split_fences]. now rewrite H1, H2.
Qed.

Lemma split_fences_plain (x : jsstring) :
  ~ In backquote x -> split_fences 0 x = [x].
Proof.
  induction x as [|c x IH]; intros Hx; [reflexivity|].
  rewrite split_fences_copy by (intros ->; apply Hx; now left).
  rewrite IH; [reflexivity|]. intros H. apply Hx. now right.
Qed.

Lemma split_fences_open (x y : jsstring) :
  ~ In backquote x ->
  split_fences 0 (x ++ lit "```card" ++ y) = x :: split_fences 0 y.
Proof.
  induction x as [|c x IH]; intros Hx; [reflexivity|].
  change ((c :: x) ++ lit "```card" ++ y) with (c :: (x ++ lit "```card" ++ y)).
  rewrite split_fences_copy by (intros ->; apply Hx; now left).
  rewrite IH; [reflexivity|]. intros H. apply Hx. now right.
Qed.

Lemma split_fences_close (x y : jsstring) :
  ~ In backquote x ->
  startsWith y (lit "card") = false ->
  split_fences 0 (x ++ lit "```" ++ y) = x :: split_fences 0 y.
Proof.
  induction x as [|c x IH]; intros Hx Hy.
  - change ([] ++ lit "```" ++ y) with (96%N :: 96%N :: 96%N :: y).
    cbn [split_fences].
    change (startsWith (96%N :: 96%N :: 96%N :: y) (lit "```card"))
      with (startsWith y (lit "card")).
    rewrite Hy. reflexivity.
  - change ((c :: x) ++ lit "```" ++ y) with (c :: (x ++ lit "```" ++ y)).
    rewrite split_fences_copy by (intros ->; apply Hx; now left).
    rewrite IH; [reflexivity | | assumption]. intros H. apply Hx. now right.
Qed.

Section Renderer.
Variable renderBadge : Z -> jsval -> jsval -> completion jsstring.
Variable renderMarkdown : jsstring -> jsstring.
Variable sanitize : jsstring -> jsstring.
Variable JSON_parse : jsstring -> option json.
Variable chunks : list json.

(** X16. Articles and their cards, for texts without a backquote.  A
    content without a backquote is one Markdown part and no card.  A content
    made of a text, a card fence, the card's JSON, a closing fence and a
    further text (none of the three holding a backquote, the text after the
    closing fence not starting with [card]) has exactly three parts: the two
    texts, rendered as Markdown with their citations, and between them the
    card, which is the parsed JSON, or the error text when the JSON does not
    parse.  The rendering throws exactly when that of one of the texts
    does. *)
Theorem article_parts (text json_text more : jsstring) :
  ~ In backquote text -> ~ In backquote json_text -> ~ In backquote more ->
  startsWith more (lit "card") = false ->
  let render := DocRenderer.renderContent renderBadge renderMarkdown sanitize chunks in
  CustomRenderer renderBadge renderMarkdown sanitize JSON_parse chunks text
    = match render text with
      | Normal html => Normal [MarkdownPart html]
      | Throw => Throw
      end
  /\ parts (text ++ lit "```card" ++ json_text ++ lit "```" ++ more)
     = [text; json_text; more]
  /\ CustomRenderer renderBadge renderMarkdown sanitize JSON_parse chunks
       (text ++ lit "```card" ++ json_text ++ lit "```" ++ more)
     = match render text, render more with
       | Normal html, Normal html' =>
           Normal [ MarkdownPart html;
                    match JSON_parse json_text with
                    | Some cardProps => CardPart cardProps
                    | None => CardError
                    end;
                    MarkdownPart html' ]
       | _, _ => Throw
       end.
Proof.
  intros Ht Hj Hm Hcard render.
  assert (Hparts : parts (text ++ lit "```card" ++ json_text ++ lit "```" ++ more)
                   = [text; json_text; more]).
  { unfold parts. rewrite split_fences_open by assumption.
    rewrite split_fences_close by assumption.
    now rewrite split_fences_plain. }
  split; [|split].
  - unfold CustomRenderer, parts. rewrite split_fences_plain by assumption.
    cbn [render_parts render_part Nat.even]. fold render.
    destruct (render text); reflexivity.
  - exact Hparts.
  - unfold CustomRenderer. rewrite Hparts.
    cbn [render_parts render_part Nat.even]. fold render.
    destruct (render text); [|reflexivity]. destruct (render more); reflexivity.
Qed.

End Renderer.

Lemma article_parts_witness :
  parts (lit "intro " ++ lit "```card" ++ lit "null" ++ lit "```" ++ lit " outro")
  = [lit "intro "; lit "null"; lit " outro"]
  /\ CustomRenderer DocRenderer.plainBadge (fun s => s) (fun s => s)
       AgentThoughts.parse_literal []
       (lit "intro " ++ lit "```card" ++ lit "null" ++ lit "```" ++ lit " outro")
     = Normal [MarkdownPart (lit "intro "); CardPart JNull; MarkdownPart (lit " outro")].
Proof.
  assert (Hq : forall s, forallb (fun c => negb (N.eqb c backquote)) s = true ->
                         ~ In backquote s).
  { intros s Hs Hin. rewrite forallb_forall in Hs. apply Hs in Hin.
    rewrite N.eqb_refl in Hin. discriminate Hin. }
  destruct (article_parts DocRenderer.plainBadge (fun s => s) (fun s => s)
              AgentThoughts.parse_literal [] (lit "intro ") (lit "null") (lit " outro")
              (Hq (lit "intro ") eq_refl) (Hq (lit "null") eq_refl)
              (Hq (lit " outro") eq_refl) eq_refl)
    as (_ & H & H').
  split; [exact H | rewrite H'; reflexivity].
Defined.

(** A closing fence followed by the word [card] is read as an opening
    fence: the word is swallowed. *)
Example closing_fence_swallows_card :
  parts (lit "a```card{}```cards are shown") = [lit "a"; lit "{}"; lit "s are shown"].
Proof. reflexivity. Qed.

End CardsFacts.

(** ** The chat sidebar *)

Module LlmSidebarFacts.
Import Js Json JsFacts LlmSidebar.

(** *** Cited node names *)

Lemma startsWith_closing_none (c : N) (s : jsstring) :
  c <> 93%N -> startsWith (c :: s) (lit "]]") = false.
Proof.
  intros Hc. change (lit "]]") with [93%N; 93%N]. cbn [startsWith].
  destruct (N.eqb_spec c 93); [congruence | reflexivity].
Qed.

Lemma lazy_name_unclosed (s : jsstring) : ~ In 93%N s -> lazy_name s = None.
Proof.
  induction s as [|c s IH]; intros Hs; [reflexivity|].
  cbn [lazy_name]. rewrite startsWith_closing_none by (intros ->; apply Hs; now left).
  destruct (is_line_terminator c); [reflexivity|].
  rewrite IH; [reflexivity|]. intros H. apply Hs. now right.
Qed.

Lemma lazy_name_found (name post : jsstring) :
  ~ In 93%N name ->
  forallb (fun c => negb (is_line_terminator c)) name = true ->
  lazy_name (name ++ lit "]]" ++ post) = Some (name, post).
Proof.
  induction name as [|c name IH]; intros Hn Hl; [reflexivity|].
  change ((c :: name) ++ lit "]]" ++ post) with (c :: (name ++ lit "]]" ++ post)).
  cbn [lazy_name]. rewrite startsWith_closing_none by (intros ->; apply Hn; now left).
  cbn [forallb] in Hl. apply andb_prop in Hl as [Hc Hl].
  destruct (is_line_terminator c); [discriminate Hc|].
  rewrite IH; [reflexivity | | assumption]. intros H. apply Hn. now right.
Qed.

Lemma lazy_name_shorter (s name rest : jsstring) :
  lazy_name s = Some (name, rest) -> (List.length rest < List.length s)%nat.
Proof.
  revert name. induction s as [|c s IH]; intros name; [discriminate|].
  cbn [lazy_name].
  destruct (startsWith (c :: s) (lit "]]")).
  - intros [= _ <-]. destruct s; simpl; lia.
  - destruct (is_line_terminator c); [discriminate|].
    destruct (lazy_name s) as [[n r]|]; [|discriminate].
    intros [= _ <-]. specialize (IH n eq_refl). simpl. lia.
Qed.

Lemma match_cite_shorter (s name rest : jsstring) :
  match_cite s = Some (name, rest) -> (List.length rest < List.length s)%nat.
Proof.
  unfold match_cite. destruct (startsWith s (lit "[[")); [|discriminate].
  intros H. apply lazy_name_shorter in H.
  pose proof (length_skipn 2 s). lia.
Qed.

Lemma match_cite_cite (name post : jsstring) :
  ~ In 93%N name ->
  forallb (fun c => negb (is_line_terminator c)) name = true ->
  match_cite (cite name ++ post) = Some (name, post).
Proof.
  intros Hn Hl. unfold cite. rewrite <- !app_assoc.
  change (lit "[[" ++ name ++ lit "]]" ++ post)
    with (91%N :: 91%N :: (name ++ lit "]]" ++ post)).
  unfold match_cite. change (startsWith _ (lit "[[")) with true. cbv iota.
  cbn [skipn]. now apply lazy_name_found.
Qed.

Lemma match_cite_other (c : N) (s : jsstring) :
  c <> 91%N -> match_cite (c :: s) = None.
Proof.
  intros Hc. unfold match_cite. change (lit "[[") with [91%N; 91%N]. cbn [startsWith].
  destruct (N.eqb_spec c 91); [congruence | reflexivity].
Qed.

Lemma match_cite_unclosed (s : jsstring) : ~ In 93%N s -> match_cite s = None.
Proof.
  intros Hs. unfold match_cite. destruct (startsWith s (lit "[[")); [|reflexivity].
  apply lazy_name_unclosed. intros H. apply Hs.
  destruct s as [|a [|b s]]; simpl in *; tauto.
Qed.

#[local] Arguments match_cite : simpl never.

Section Renderer.
Variable renderName : jsstring -> jsstring.

Lemma replace_cites_fuel (n : nat) :
  forall (s : jsstring) (f f' : nat),
    (List.length s <= n)%nat -> (n <= f)%nat -> (n <= f')%nat ->
    replace_cites_from renderName f s = replace_cites_from renderName f' s.
Proof.
  induction n as [|n IH]; intros s f f' Hs Hf Hf'.
  - destruct s; [|simpl in Hs; lia]. destruct f, f'; reflexivity.
  - destruct s as [|c s']; [destruct f, f'; reflexivity|].
    destruct f as [|f]; [lia|]. destruct f' as [|f']; [lia|].
    simpl replace_cites_from.
    destruct (match_cite (c :: s')) as [[name rest]|] eqn:Hm.
    + apply match_cite_shorter in Hm. simpl in Hm, Hs.
      rewrite (IH rest f f') by lia. reflexivity.
    + simpl in Hs. rewrite (IH s' f f') by lia. reflexivity.
Qed.

Lemma processedHtml_copy (c : N) (s : jsstring) :
  match_cite (c :: s) = None ->
  processedHtml renderName (c :: s) = c :: processedHtml renderName s.
Proof.
  intros Hm. unfold processedHtml. simpl List.length. simpl replace_cites_from.
  now rewrite Hm.
Qed.

Lemma processedHtml_match (s name rest : jsstring) :
  match_cite s = Some (name, rest) ->
  processedHtml renderName s = renderName name ++ processedHtml renderName rest.
Proof.
  intros Hm. pose proof (match_cite_shorter _ _ _ Hm) as Hlen.
  unfold processedHtml. destruct s as [|c s']; [discriminate Hm|].
  simpl List.length. simpl replace_cites_from. rewrite Hm. simpl in Hlen.
  now rewrite (replace_cites_fuel (List.length rest) rest (List.length s')
                 (List.length rest)) by lia.
Qed.

Lemma processedHtml_unclosed (s : jsstring) :
  ~ In 93%N s -> processedHtml renderName s = s.
Proof.
  induction s as [|c s IH]; intros Hs; [reflexivity|].
  rewrite processedHtml_copy by (now apply match_cite_unclosed).
  rewrite IH; [reflexivity|]. intros H. apply Hs. now right.
Qed.

Lemma processedHtml_plain (s : jsstring) :
  ~ In 91%N s -> processedHtml renderName s = s.
Proof.
  induction s as [|c s IH]; intros Hs; [reflexivity|].
  rewrite processedHtml_copy
    by (apply match_cite_other; intros ->; apply Hs; now left).
  rewrite IH; [reflexivity|]. intros H. apply Hs. now right.
Qed.

(** X17. Node names cited in an answer.  In the chat sidebar a citation
    [[[name]]] whose name is on one line and holds no closing bracket, after
    a text without opening bracket, is replaced by the badge of that name, the
    text before it is kept and the rest is scanned in the same way; a text
    without opening bracket, and a text without closing bracket (a citation
    left open), are shown unchanged. *)
Theorem cited_names_rendered :
  (forall pre name post : jsstring,
     ~ In 91%N pre ->
     ~ In 93%N name ->
     forallb (fun c => negb (is_line_terminator c)) name = true ->
     processedHtml renderName (pre ++ cite name ++ post)
     = pre ++ renderName name ++ processedHtml renderName post)
  /\ (forall s : jsstring, ~ In 91%N s -> processedHtml renderName s = s)
  /\ (forall s : jsstring, ~ In 93%N s -> processedHtml renderName s = s).
Proof.
  split; [|split; [exact processedHtml_plain | exact processedHtml_unclosed]].
  intros pre name post Hpre Hn Hl.
  induction pre as [|c pre IH].
  - simpl app. apply processedHtml_match. now apply match_cite_cite.
  - change ((c :: pre) ++ cite name ++ post) with (c :: (pre ++ cite name ++ post)).
    rewrite processedHtml_copy
      by (apply match_cite_other; intros ->; apply Hpre; now left).
    rewrite IH; [reflexivity|]. intros H. apply Hpre. now right.
Qed.

End Renderer.

Lemma cited_names_rendered_witness :
  processedHtml (fun name => lit "<a>" ++ name ++ lit "</a>")
    (lit "see " ++ cite (lit "Qubits") ++ lit " and [[open")
  = lit "see <a>Qubits</a> and [[open".
Proof.
  destruct (cited_names_rendered (fun name => lit "<a>" ++ name ++ lit "</a>"))
    as (H & _ & _).
  rewrite H; [reflexivity | | |]; vm_compute; intuition discriminate.
Defined.

(** *** The conversation *)

Lemma show_answer_after_ai (aiResponse text : jsstring) (before : list Message) :
  show_answer aiResponse (before ++ [{| type := ai; content := text |}])
  = Normal (before ++ [{| type := ai; content := aiResponse |}]).
Proof.
  unfold show_answer. rewrite rev_app_distr. simpl. now rewrite rev_involutive.
Qed.

Lemma read_answer_after_ai (chunks : list jsstring) (e : ending)
    (aiResponse text : jsstring) (before : list Message) :
  chunks <> [] ->
  read_answer chunks e aiResponse (before ++ [{| type := ai; content := text |}])
  = (match e with Done => Normal tt | ReadFails => Throw end,
     before ++ [{| type := ai; content := aiResponse ++ List.concat chunks |}]).
Proof.
  revert aiResponse text. induction chunks as [|chunk rest IH];
    intros aiResponse text Hne; [congruence|].
  cbn [read_answer]. rewrite show_answer_after_ai.
  destruct rest as [|chunk' rest].
  - simpl. now rewrite app_nil_r.
  - rewrite IH by discriminate.
    change (List.concat (chunk :: chunk' :: rest))
      with (chunk ++ List.concat (chunk' :: rest)).
    now rewrite app_assoc.
Qed.

(** X18. The answer takes the place of the last narration.  When the
    selection of narration messages has ended with at least one index and the
    answer arrives in at least one chunk, the conversation afterwards is the
    one before, the user's message, the narration messages except the last,
    and one [ai] message holding the whole answer (the chunks in order);
    a read error adds the apology after it. *)
Theorem answer_replaces_last_narration (st : state) (numAgents : nat)
    (draws selected : list nat) (chunks : list jsstring) (e : ending) :
  select numAgents [] draws = Some selected ->
  selected <> [] ->
  chunks <> [] ->
  handleSubmit st numAgents draws (Stream chunks e)
  = Some (finish (includes (inputValue st) (lit "add to the graph")) (expansions st)
            (messages st
             ++ [{| type := user; content := inputValue st |}]
             ++ map narration (removelast selected)
             ++ [{| type := ai; content := List.concat chunks |}]
             ++ match e with Done => [] | ReadFails => [sorry] end)).
Proof.
  intros Hsel Hne Hchunks. unfold handleSubmit. rewrite Hsel.
  destruct (exists_last Hne) as (front & lastIndex & ->).
  rewrite removelast_last, map_app. cbn [map].
  fold (narration lastIndex).
  change (fun index => {| type := ai; content := nth index agentMessages [] |})
    with narration.
  rewrite !app_assoc.
  unfold narration at 2.
  rewrite read_answer_after_ai by assumption. cbn [app].
  destruct e; [now rewrite app_nil_r | reflexivity].
Qed.

Lemma answer_replaces_last_narration_witness :
  option_map messages
    (handleSubmit {| messages := []; inputValue := lit "why"; isLoading := true;
                     expansions := 0 |}
       2 [3; 3; 0]%nat (Stream [lit "be"; lit "cause"] Done))
  = Some [ {| type := user; content := lit "why" |};
           {| type := ai; content := lit "_Analyzing web search results..._" |};
           {| type := ai; content := lit "because" |} ].
Proof.
  rewrite (answer_replaces_last_narration _ 2 [3; 3; 0]%nat [3; 0]%nat
             [lit "be"; lit "cause"] Done); [reflexivity | reflexivity | |];
    discriminate.
Defined.

(** *** The selection of narration messages *)

Lemma select_spec (numAgents : nat) (draws selected0 selected : list nat) :
  NoDup selected0 ->
  (List.length selected0 <= numAgents)%nat ->
  select numAgents selected0 draws = Some selected ->
  NoDup selected
  /\ List.length selected = numAgents
  /\ (forall i, In i selected -> In i selected0 \/ In i draws).
Proof.
  revert selected0. induction draws as [|d rest IH]; intros selected0 Hnd Hlen.
  - cbn [select]. destruct (Nat.leb_spec numAgents (List.length selected0));
      [|discriminate].
    intros [= <-]. repeat split; auto. lia.
  - cbn [select]. destruct (Nat.leb_spec numAgents (List.length selected0)).
    + intros [= <-]. repeat split; auto. lia.
    + destruct (existsb (Nat.eqb d) selected0) eqn:Hex.
      * intros H'. destruct (IH selected0 Hnd Hlen H') as (H1 & H2 & H3).
        repeat split; auto. intros i Hi. destruct (H3 i Hi); [now left|].
        right. now right.
      * intros H'.
        assert (Hnd' : NoDup (selected0 ++ [d])).
        { apply NoDup_app; [assumption | repeat constructor; simpl; tauto |].
          intros x Hx [<-|[]].
          assert (existsb (Nat.eqb d) selected0 = true)
            by (apply existsb_exists; exists d; split; [assumption | apply Nat.eqb_refl]).
          congruence. }
        assert (Hlen' : (List.length (selected0 ++ [d]) <= numAgents)%nat)
          by (rewrite length_app; simpl; lia).
        destruct (IH (selected0 ++ [d]) Hnd' Hlen' H') as (H1 & H2 & H3).
        repeat split; auto. intros i Hi. destruct (H3 i Hi) as [Hi'|Hi'].
        -- apply in_app_or in Hi' as [Hi'|[<-|[]]]; [now left|]. right. now left.
        -- right. now right.
Qed.

Lemma agentMessages_distinct : NoDup agentMessages.
Proof.
  repeat constructor; simpl; intuition discriminate.
Qed.

(** X19. The narration shows distinct messages.  When the selection loop
    ends, it has selected exactly [numAgents] indices, all different and all
    among the values drawn; and when the draws are indices of the five agent
    messages, the narration messages shown are [numAgents] different agent
    messages. *)
Theorem narration_is_distinct (numAgents : nat) (draws selected : list nat) :
  select numAgents [] draws = Some selected ->
  Forall (fun d => (d < List.length agentMessages)%nat) draws ->
  NoDup selected
  /\ List.length selected = numAgents
  /\ incl selected draws
  /\ NoDup (map narration selected)
  /\ Forall (fun m => In (content m) agentMessages) (map narration selected).
Proof.
  intros Hsel Hdraws.
  destruct (select_spec numAgents draws [] selected (NoDup_nil _) (Nat.le_0_l _) Hsel)
    as (Hnd & Hlen & Hin).
  assert (Hincl : incl selected draws).
  { intros i Hi. destruct (Hin i Hi) as [[]|H]. exact H. }
  rewrite Forall_forall in Hdraws.
  repeat split; try assumption.
  - apply NoDup_map_NoDup_ForallPairs; [|assumption].
    intros i j Hi Hj Heq. injection Heq as Heq.
    apply (proj1 (NoDup_nth agentMessages []) agentMessages_distinct);
      auto using Hdraws.
  - rewrite Forall_map, Forall_forall. intros i Hi. cbn [narration content].
    apply nth_In. auto.
Qed.

Lemma narration_is_distinct_witness :
  NoDup (map narration [3; 0]%nat).
Proof.
  destruct (narration_is_distinct 2 [3; 3; 0]%nat [3; 0]%nat) as (_ & _ & _ & H & _).
  - reflexivity.
  - repeat constructor.
  - exact H.
Defined.

(** *** What [handleSubmit] always does *)

Lemma show_answer_keeps (aiResponse question : jsstring) (before rest : list Message) :
  exists rest',
    show_answer aiResponse ((before ++ [{| type := user; content := question |}]) ++ rest)
    = Normal ((before ++ [{| type := user; content := question |}]) ++ rest').
Proof.
  destruct rest as [|m rest] using rev_ind.
  - exists [{| type := ai; content := aiResponse |}].
    rewrite app_nil_r. unfold show_answer. rewrite rev_app_distr. reflexivity.
  - clear IHrest. unfold show_answer. rewrite app_assoc, rev_app_distr. cbn [rev app].
    destruct (type m).
    + exists ((rest ++ [m]) ++ [{| type := ai; content := aiResponse |}]).
      now rewrite !app_assoc.
    + exists (rest ++ [{| type := ai; content := aiResponse |}]).
      now rewrite rev_involutive, !app_assoc.
Qed.

Lemma read_answer_keeps (chunks : list jsstring) (e : ending)
    (aiResponse question : jsstring) (before rest : list Message) :
  exists rest',
    snd (read_answer chunks e aiResponse
           ((before ++ [{| type := user; content := question |}]) ++ rest))
    = (before ++ [{| type := user; content := question |}]) ++ rest'.
Proof.
  revert aiResponse rest. induction chunks as [|chunk chunks IH]; intros aiResponse rest.
  - exists rest. reflexivity.
  - cbn [read_answer].
    destruct (show_answer_keeps (aiResponse ++ chunk) question before rest) as [rest1 ->].
    apply IH.
Qed.

Lemma handleSubmit_state (st st' : state) (numAgents : nat) (draws : list nat)
    (r : llm_response) :
  handleSubmit st numAgents draws r = Some st' ->
  let expand := includes (inputValue st) (lit "add to the graph") in
  inputValue st' = []
  /\ isLoading st' = false
  /\ expansions st' = (expansions st + if expand then 1 else 0)%nat
  /\ (exists rest, messages st'
                   = messages st ++ {| type := user; content := inputValue st |} :: rest)
  /\ (expand = true -> last (messages st') sorry = generating).
Proof.
  unfold handleSubmit. destruct (select numAgents [] draws) as [selected|]; [|discriminate].
  set (expand := includes (inputValue st) (lit "add to the graph")).
  set (question := {| type := user; content := inputValue st |}).
  set (narrations := map _ selected).
  assert (Hfinish : forall rest,
    let s := finish expand (expansions st) ((messages st ++ [question]) ++ rest) in
    inputValue s = []
    /\ isLoading s = false
    /\ expansions s = (expansions st + if expand then 1 else 0)%nat
    /\ (exists rest', messages s = messages st ++ question :: rest')
    /\ (expand = true -> last (messages s) sorry = generating)).
  { intros rest s. subst s. unfold finish. cbn [inputValue isLoading expansions messages].
    repeat split.
    - destruct expand; lia.
    - destruct expand.
      + exists (rest ++ [generating]). now rewrite <- !app_assoc.
      + exists rest. now rewrite <- !app_assoc.
    - intros ->. apply last_last. }
  intros [= <-].
  destruct r as [| | |chunks e].
  - rewrite <- (app_assoc _ narrations). apply (Hfinish (narrations ++ [sorry])).
  - rewrite <- (app_assoc _ narrations). apply (Hfinish (narrations ++ [sorry])).
  - apply (Hfinish narrations).
  - destruct (read_answer_keeps chunks e [] (inputValue st) (messages st) narrations)
      as [rest Hrest].
    fold question in Hrest.
    destruct (read_answer chunks e [] ((messages st ++ [question]) ++ narrations))
      as [[u|] ms2]; cbn [snd] in Hrest; subst ms2.
    + apply (Hfinish rest).
    + rewrite <- (app_assoc _ rest). apply (Hfinish (rest ++ [sorry])).
Qed.

Lemma length_remove_NoDup (d : nat) (l : list nat) :
  NoDup l -> (List.length l <= S (List.length (remove Nat.eq_dec d l)))%nat.
Proof.
  induction 1 as [|x l Hx Hl IH]; [simpl; lia|].
  cbn [remove]. destruct (Nat.eq_dec d x) as [->|Hd].
  - rewrite notin_remove by assumption. simpl. lia.
  - simpl. lia.
Qed.

(** The selection loop ends once the draws hold enough different values
    that are not selected yet. *)
Lemma select_ends (numAgents : nat) (draws : list nat) :
  forall selected l : list nat,
    NoDup l -> incl l draws -> (forall x, In x l -> ~ In x selected) ->
    (numAgents <= List.length selected + List.length l)%nat ->
    exists s, select numAgents selected draws = Some s.
Proof.
  induction draws as [|d rest IH]; intros selected l Hl Hincl Hnew Hlen;
    cbn [select]; destruct (numAgents <=? List.length selected)%nat eqn:Hfull;
    try (eexists; reflexivity); apply Nat.leb_gt in Hfull.
  - destruct l as [|x l]; [simpl in Hlen; lia|].
    exfalso. apply (Hincl x). now left.
  - destruct (existsb (Nat.eqb d) selected) eqn:Hd.
    + apply (IH selected l); try assumption.
      intros x Hx. destruct (Hincl x Hx) as [<-|Hin]; [|assumption].
      exfalso. apply (Hnew d Hx).
      apply existsb_exists in Hd as (y & Hy & Heq). apply Nat.eqb_eq in Heq. now subst y.
    + apply (IH (selected ++ [d]) (remove Nat.eq_dec d l)).
      * clear - Hl. induction Hl as [|x l Hx Hl IHl]; [constructor|].
        cbn [remove]. destruct (Nat.eq_dec d x); [assumption|].
        constructor; [|assumption]. intros Hin. apply in_remove in Hin as [Hin _]. contradiction.
      * intros x Hx. apply in_remove in Hx as [Hx Hne].
        destruct (Hincl x Hx) as [<-|Hin]; [congruence | assumption].
      * intros x Hx Hin. apply in_remove in Hx as [Hx Hne].
        apply in_app_or in Hin as [Hin|[<-|[]]]; [now apply (Hnew x Hx) | congruence].
      * rewrite length_app. cbn [List.length].
        pose proof (length_remove_NoDup d l Hl). lia.
Qed.

(** X20. Once the draws hold [numAgents] different values the selection
    loop ends and [handleSubmit] runs to its end, whatever the answer of the
    chat route (a rejected fetch, a status that is not ok, a missing body, a
    stream that ends or fails): it leaves the input empty and the loading
    flag cleared, keeps the earlier conversation followed by the user's
    message at the start of the conversation, and calls the graph expansion,
    after a last message ['_Generating additional nodes..._'], exactly when
    the input contains ["add to the graph"]. *)
Theorem handleSubmit_finishes (st : state) (numAgents : nat) (draws : list nat)
    (r : llm_response) :
  (numAgents <= List.length (nodup Nat.eq_dec draws))%nat ->
  let expand := includes (inputValue st) (lit "add to the graph") in
  exists st',
    handleSubmit st numAgents draws r = Some st'
    /\ inputValue st' = []
    /\ isLoading st' = false
    /\ expansions st' = (expansions st + if expand then 1 else 0)%nat
    /\ (exists rest, messages st'
                     = messages st ++ {| type := user; content := inputValue st |} :: rest)
    /\ (expand = true -> last (messages st') sorry = generating).
Proof.
  intros Hdraws expand.
  destruct (select_ends numAgents draws [] (nodup Nat.eq_dec draws)) as [selected Hsel].
  - apply NoDup_nodup.
  - intros x Hx. now apply nodup_In in Hx.
  - intros x _ [].
  - exact Hdraws.
  - assert (Hsome : exists st', handleSubmit st numAgents draws r = Some st')
      by (unfold handleSubmit; rewrite Hsel; eexists; reflexivity).
    destruct Hsome as [st' Hst']. exists st'. split; [exact Hst'|].
    exact (handleSubmit_state st st' numAgents draws r Hst').
Qed.

Lemma handleSubmit_finishes_witness :
  exists st',
    handleSubmit {| messages := []; inputValue := lit "add to the graph: gates";
                    isLoading := true; expansions := 0 |} 2 [1; 4; 1]%nat NotOk = Some st'
    /\ expansions st' = 1%nat
    /\ last (messages st') sorry = generating.
Proof.
  destruct (handleSubmit_finishes
              {| messages := []; inputValue := lit "add to the graph: gates";
                 isLoading := true; expansions := 0 |} 2 [1; 4; 1]%nat NotOk)
    as (st' & H0 & _ & _ & H3 & _ & H5).
  - vm_compute. lia.
  - exists st'. split; [exact H0|]. split; [exact H3 | apply H5; reflexivity].
Defined.

End LlmSidebarFacts.

(** ** Cookies on the client *)

Module CookiesFacts.
Import Js Json JsFacts LoadingFlow LoadingFlowFacts Cookies.

Lemma skipn_name (name : jsstring) (x : jsstring) :
  skipn (List.length name + 1) (name ++ cu "=" :: x) = x.
Proof.
  induction name as [|c name IH]; [reflexivity|]. exact IH.
Qed.

Lemma until_semicolon_value (v rest : jsstring) :
  ~ In (cu ";") v ->
  rest = [] \/ (exists y, rest = cu ";" :: y) ->
  until_semicolon (v ++ rest) = v.
Proof.
  intros Hv Hrest. induction v as [|c v IH].
  - destruct Hrest as [->|[y ->]]; reflexivity.
  - cbn [app until_semicolon].
    destruct (N.eqb_spec c (cu ";")) as [->|_]; [exfalso; apply Hv; now left|].
    rewrite IH; [reflexivity|]. intros H. apply Hv. now right.
Qed.

Lemma value_here_pair (name n v rest : jsstring) :
  ~ In (cu "=") name -> ~ In (cu "=") n -> ~ In (cu ";") v ->
  rest = [] \/ (exists y, rest = cu ";" :: y) ->
  value_here name ((n ++ cu "=" :: v) ++ rest)
  = if str_eqb n name then Some v else None.
Proof.
  intros Hname Hn Hv Hrest. unfold value_here.
  rewrite <- app_assoc. change ((cu "=" :: v) ++ rest) with (cu "=" :: (v ++ rest)).
  rewrite (startsWith_name name n (v ++ rest) Hn Hname).
  destruct (str_eqb_spec n name) as [->|_]; [|reflexivity].
  rewrite skipn_name. now rewrite until_semicolon_value.
Qed.

Lemma search_skip (name x rest : jsstring) :
  ~ In (cu ";") x ->
  search_after_separator name (x ++ rest) = search_after_separator name rest.
Proof.
  intros Hx. induction x as [|c x IH]; [reflexivity|].
  cbn [app search_after_separator].
  change (lit "; ") with [59%N; 32%N]. cbn [startsWith].
  destruct (N.eqb_spec c 59) as [->|_]; [exfalso; apply Hx; now left|].
  cbn [andb]. apply IH. intros H. apply Hx. now right.
Qed.

Lemma search_none (name x : jsstring) :
  ~ In (cu ";") x -> search_after_separator name x = None.
Proof.
  intros Hx. rewrite <- (app_nil_r x). now rewrite search_skip.
Qed.

Lemma search_separator (name y : jsstring) :
  search_after_separator name (lit "; " ++ y)
  = match value_here name y with
    | Some value => Some value
    | None => search_after_separator name y
    end.
Proof.
  change (lit "; " ++ y) with (59%N :: 32%N :: y).
  cbn [search_after_separator].
  change (startsWith (59%N :: 32%N :: y) (lit "; ")) with true. cbv iota. cbn [skipn].
  destruct (value_here name y); [reflexivity|].
  change (startsWith (32%N :: y) (lit "; ")) with false. reflexivity.
Qed.

Lemma cookie_string_cons (n v : jsstring) (nv : jsstring * jsstring)
    (jar : list (jsstring * jsstring)) :
  cookie_string ((n, v) :: nv :: jar)
  = (n ++ cu "=" :: v) ++ lit "; " ++ cookie_string (nv :: jar).
Proof. reflexivity. Qed.

Lemma cookie_string_rest (jar : list (jsstring * jsstring)) :
  jar = [] \/ exists nv jar', jar = nv :: jar'.
Proof. destruct jar; eauto. Qed.

Lemma pair_no_semicolon (n v : jsstring) :
  ~ In (cu ";") n -> ~ In (cu ";") v -> ~ In (cu ";") (n ++ cu "=" :: v).
Proof.
  intros Hn Hv H. apply in_app_or in H as [H|[H|H]]; [tauto | discriminate H | tauto].
Qed.

Lemma cookie_match_jar (name : jsstring) (jar : list (jsstring * jsstring)) :
  ~ In (cu "=") name ->
  well_formed jar ->
  cookie_match name (cookie_string jar) = option_map snd (jar_find name jar).
Proof.
  intros Hname Hjar. unfold cookie_match.
  induction Hjar as [|[n v] jar (Hn1 & Hn2 & Hv) Hjar IH].
  - cbn. unfold value_here. destruct name; reflexivity.
  - cbn [fst snd] in *. unfold jar_find in *. cbn [find fst].
    destruct jar as [|nv jar].
    + change (cookie_string [(n, v)]) with (n ++ cu "=" :: v).
      rewrite <- (app_nil_r (n ++ cu "=" :: v)) at 1.
      rewrite value_here_pair by auto.
      destruct (str_eqb n name); [reflexivity|].
      rewrite search_none by (now apply pair_no_semicolon). reflexivity.
    + rewrite cookie_string_cons.
      rewrite value_here_pair by (auto; right; eexists; reflexivity).
      destruct (str_eqb n name); [reflexivity|].
      rewrite search_skip by (now apply pair_no_semicolon).
      rewrite search_separator. exact IH.
Qed.

Section Decode.
Variable decodeURIComponent : jsstring -> completion jsstring.

(** X21. [getCookie] on the text of [document.cookie].  For cookies
    written as [name=value] pairs joined by ["; "] (no semicolon in a name or
    value, no equals sign in a name) and a name without equals sign,
    [getCookie] gives [null] when no cookie has that name, and otherwise the
    decoded value, whole, of the first cookie with exactly that name: a cookie
    whose name merely ends with the name asked for is not taken. *)
Theorem getCookie_finds (name : jsstring) (jar : list (jsstring * jsstring)) :
  ~ In (cu "=") name ->
  well_formed jar ->
  getCookie decodeURIComponent name (cookie_string jar)
  = match jar_find name jar with
    | Some (_, value) =>
        match decodeURIComponent value with
        | Normal decoded => Normal (Some decoded)
        | Throw => Throw
        end
    | None => Normal None
    end.
Proof.
  intros Hname Hjar. unfold getCookie. rewrite cookie_match_jar by assumption.
  destruct (jar_find name jar) as [[n v]|]; reflexivity.
Qed.

End Decode.

Lemma getCookie_finds_witness :
  getCookie (fun s => Normal s) (lit "token")
    (cookie_string [(lit "xtoken", lit "no"); (lit "token", lit "a=b")])
  = Normal (Some (lit "a=b")).
Proof.
  rewrite (getCookie_finds (fun s => Normal s) (lit "token")
             [(lit "xtoken", lit "no"); (lit "token", lit "a=b")]).
  - reflexivity.
  - vm_compute; intuition discriminate.
  - repeat constructor; vm_compute; intuition discriminate.
Defined.

(** *** Logging out in the sidebar *)

Lemma dropWhile_clean (s : jsstring) :
  not_whitespace s = true -> dropWhile is_whitespace s = s.
Proof.
  destruct s as [|c s]; [reflexivity|]. unfold not_whitespace. cbn [forallb dropWhile].
  intros H. apply andb_prop in H as [Hc _].
  destruct (is_whitespace c); [discriminate Hc | reflexivity].
Qed.

Lemma not_whitespace_rev (s : jsstring) :
  not_whitespace s = true -> not_whitespace (rev s) = true.
Proof.
  unfold not_whitespace. rewrite !forallb_forall. intros H c Hc.
  apply H. now apply in_rev.
Qed.

Lemma trim_clean (s : jsstring) : not_whitespace s = true -> trim s = s.
Proof.
  intros H. unfold trim. rewrite (dropWhile_clean s H).
  rewrite (dropWhile_clean (rev s) (not_whitespace_rev s H)). apply rev_involutive.
Qed.

Lemma trim_after_space (s : jsstring) :
  not_whitespace s = true -> trim (cu " " :: s) = s.
Proof.
  intros H. unfold trim. change (dropWhile is_whitespace (cu " " :: s))
    with (dropWhile is_whitespace s).
  now apply trim_clean.
Qed.

Lemma split_rows_after_space (jar : list (jsstring * jsstring)) :
  jar <> [] ->
  well_formed jar ->
  split (cu ";") (cu " " :: cookie_string jar) = map (fun nv => cu " " :: pair_text nv) jar.
Proof.
  intros Hne Hjar. revert Hne.
  induction Hjar as [|[n v] jar (Hn & _ & Hv) Hjar IH]; intros Hne; [now elim Hne|].
  cbn [fst snd] in *.
  destruct jar as [|nv jar].
  - change (cookie_string [(n, v)]) with (n ++ cu "=" :: v).
    rewrite split_no_sep; [reflexivity|].
    intros [H|H]; [discriminate H|]. now apply (pair_no_semicolon n v Hn Hv).
  - rewrite cookie_string_cons.
    change (cu " " :: (n ++ cu "=" :: v) ++ lit "; " ++ cookie_string (nv :: jar))
      with ((cu " " :: n ++ cu "=" :: v) ++ cu ";" :: (cu " " :: cookie_string (nv :: jar))).
    rewrite split_app_sep.
    + rewrite IH by discriminate. reflexivity.
    + intros [H|H]; [discriminate H|]. now apply (pair_no_semicolon n v Hn Hv).
Qed.

Lemma split_rows (jar : list (jsstring * jsstring)) (n v : jsstring) :
  well_formed ((n, v) :: jar) ->
  split (cu ";") (cookie_string ((n, v) :: jar))
  = pair_text (n, v) :: map (fun nv => cu " " :: pair_text nv) jar.
Proof.
  intros Hjar. inversion Hjar as [|? ? (Hn & _ & Hv) Hrest]; subst. cbn [fst snd] in *.
  destruct jar as [|nv jar].
  - change (cookie_string [(n, v)]) with (n ++ cu "=" :: v).
    rewrite split_no_sep by (now apply pair_no_semicolon). reflexivity.
  - rewrite cookie_string_cons.
    change ((n ++ cu "=" :: v) ++ lit "; " ++ cookie_string (nv :: jar))
      with ((n ++ cu "=" :: v) ++ cu ";" :: (cu " " :: cookie_string (nv :: jar))).
    rewrite split_app_sep by (now apply pair_no_semicolon).
    rewrite split_rows_after_space by (assumption || discriminate). reflexivity.
Qed.

Lemma name_of_row (n v : jsstring) :
  ~ In (cu "=") n -> hd [] (split (cu "=") (n ++ cu "=" :: v)) = n.
Proof.
  intros H. now rewrite split_app_sep.
Qed.

(** X22. Logging out in the sidebar removes every cookie by name.  For
    cookies listed as [name=value] pairs joined by ["; "] (no semicolon in a
    name or value, no equals sign and no white space in a name), [handleLogout]
    assigns to [document.cookie], once per cookie and in their order, the
    cookie's name followed by ['=; path=/; max-age=0'], and then sends the
    window to [/login]; it contacts no route. *)
Theorem handleLogout_removes_all (jar : list (jsstring * jsstring)) :
  jar <> [] ->
  well_formed jar ->
  Forall (fun nv => not_whitespace (fst nv) = true) jar ->
  handleLogout (cookie_string jar)
  = (map (fun nv => fst nv ++ lit "=; path=/; max-age=0") jar, lit "/login").
Proof.
  intros Hne Hjar Hclean. unfold handleLogout. f_equal.
  destruct jar as [|[n v] jar]; [congruence|].
  rewrite split_rows by assumption.
  inversion Hjar as [|? ? (_ & Hn & _) Hrest]; subst.
  inversion Hclean as [|? ? Hc Hcrest]; subst. cbn [fst snd] in *.
  cbn [map]. f_equal.
  - unfold pair_text. cbn [fst snd].
    rewrite (name_of_row n v Hn). now rewrite trim_clean.
  - rewrite map_map. apply map_ext_in. intros [n' v'] Hin.
    unfold well_formed in Hrest. rewrite Forall_forall in Hrest, Hcrest.
    destruct (Hrest _ Hin) as (_ & Hn' & _). specialize (Hcrest _ Hin).
    cbn [fst snd] in *. unfold pair_text. cbn [fst snd].
    change (cu " " :: n' ++ cu "=" :: v') with ((cu " " :: n') ++ cu "=" :: v').
    rewrite name_of_row
      by (intros [H|H]; [discriminate H | now apply Hn']).
    now rewrite trim_after_space.
Qed.

Lemma handleLogout_removes_all_witness :
  handleLogout (lit "token=abc; username=ada")
  = ([lit "token=; path=/; max-age=0"; lit "username=; path=/; max-age=0"], lit "/login").
Proof.
  apply (handleLogout_removes_all [(lit "token", lit "abc"); (lit "username", lit "ada")]).
  - discriminate.
  - repeat constructor; vm_compute; intuition discriminate.
  - repeat constructor.
Defined.

End CookiesFacts.

(** *** The sign-in form against the auth route and the middleware *)

Module AuthFormFacts.
Import Js Json Http JsFacts RouteFacts Auth AuthOutcomes AuthOutcomesFacts AuthForm.

Lemma form_action (m : mode) (username password email : jsstring) :
  opt_prop (Some (form_body m username password email)) (lit "action")
  = Some (JStr (mode_name m)).
Proof. destruct m; reflexivity. Qed.






Lemma session_ok (TypeError_message : jsstring) (NODE_ENV : option jsstring)
    (message : string) (access_token username : jsval) (m : mode) :
  on_response TypeError_message m (session_response NODE_ENV message access_token username)
  = {| error := [];
       pushed := Some (match m with login => lit "/" | register => lit "/login" end) |}.
Proof. reflexivity. Qed.









End AuthFormFacts.

(** *** The reader of agent events and the chunks of its stream *)

Module AgentThoughtsChunks.
Import Js Json JsFacts LineFacts AgentThoughts AgentThoughtsFacts.

Section Reader.
Variable JSON_parse : jsstring -> option json.

Lemma complete_lines_open_tail (s tail : jsstring) :
  ~ In (cu "010") tail -> complete_lines (s ++ tail) = complete_lines s.
Proof.
  intros Htail. unfold complete_lines.
  destruct (split_two_pieces (cu "010") s tail) as [Hl _]. cbv zeta in Hl.
  rewrite Hl. rewrite (split_no_sep (cu "010") (last (split (cu "010") s) [] ++ tail)).
  - cbn [removelast]. apply app_nil_r.
  - intros Hin. apply in_app_or in Hin as [Hin|Hin]; [|now apply Htail].
    now apply (last_split_no_sep (cu "010") s).
Qed.

(** X26. What the reader displays does not depend on how the stream is
    cut into chunks: two streams whose decoded chunks make up the same text
    and that end the same way leave the component in the same state,
    wherever the chunk boundaries fall (inside a line or inside a JSON
    value). *)
Theorem chunking_is_invisible (prompt : jsstring) (st : state)
    (chunks chunks' : list jsstring) (e : ending) :
  List.concat chunks = List.concat chunks' ->
  handleSubmit JSON_parse prompt st (Stream chunks e)
  = handleSubmit JSON_parse prompt st (Stream chunks' e).
Proof.
  intros Htext. unfold handleSubmit.
  destruct (negb (str_truthy (trim prompt)) || isStreaming st); [reflexivity|].
  rewrite !(read_loop_lines JSON_parse) by (simpl; tauto).
  now rewrite Htext.
Qed.

(** X27. The text after the last newline is never displayed: when the
    stream ends, whether by [done] or by a read error, what is left in the
    buffer is dropped, even if it is a complete JSON event.  A stream
    followed by a final chunk without a newline displays what the stream
    without that chunk displays. *)
Theorem open_last_line_dropped (prompt : jsstring) (st : state)
    (chunks : list jsstring) (tail : jsstring) (e : ending) :
  ~ In (cu "010") tail ->
  handleSubmit JSON_parse prompt st (Stream (chunks ++ [tail]) e)
  = handleSubmit JSON_parse prompt st (Stream chunks e).
Proof.
  intros Htail. unfold handleSubmit.
  destruct (negb (str_truthy (trim prompt)) || isStreaming st); [reflexivity|].
  rewrite !(read_loop_lines JSON_parse) by (simpl; tauto).
  cbn [app]. rewrite concat_app. cbn [List.concat]. rewrite app_nil_r.
  now rewrite complete_lines_open_tail.
Qed.

End Reader.

Lemma chunking_is_invisible_witness :
  handleSubmit parse_literal (lit "why") idle (Stream null_stream Done)
  = handleSubmit parse_literal (lit "why") idle
      (Stream [lit "null" ++ nl ++ lit "tr"; lit "ue" ++ nl ++ lit "tail"] Done).
Proof.
  apply (chunking_is_invisible parse_literal). reflexivity.
Defined.

Lemma open_last_line_dropped_witness :
  handleSubmit parse_literal (lit "why") idle
    (Stream ([lit "false" ++ nl] ++ [lit "true"]) Done)
  = handleSubmit parse_literal (lit "why") idle (Stream [lit "false" ++ nl] Done).
Proof.
  apply (open_last_line_dropped parse_literal).
  intros H. vm_compute in H. intuition discriminate.
Defined.

End AgentThoughtsChunks.
